(** * TmLibrary: a shallow embedding of the library's checked operations

    Each module below embeds one source file of the repository:

    - [LoggingUtils]  : tmlib/logging_utils.py
    - [PlateModel]    : src/tmlib/models/plate.py, src/tmlib/models/status.py
    - [Engine]        : src/tmlib/engine.py
    - [Description]   : tmlib/workflow/description.py
    - [ImExtract]     : tmlib/workflow/imextract/api.py
    - [Tile]          : tmlib/models/tile.py
    - [Cfg]           : src/tmlib/cfg.py
    - [ImageUtil]     : tmt/imageutil.py
    - [EngineControl] : src/tmlib/engine.py (start, stop, progress)
    - [DescriptionSteps] : tmlib/workflow/description.py (series of
                        stages, steps of a stage)
    - [LoggingHandlers] : tmlib/logging_utils.py (handlers and filters)
    - [Corilla]       : tmlib/workflow/corilla/api.py
    - [BorderObjects] : tmt/imageutil.py (objects at the border)
    - [PlateGrid]     : src/tmlib/models/plate.py (the grid of wells)
    - [CfgVerbosity]  : src/tmlib/cfg.py (verbosity of the legacy
                        workflow description)

    Python dictionaries are finite maps ([gmap]), Python sets are finite
    sets ([gset]), exceptions are an explicit error type. *)

From Stdlib Require Import Ascii ZArith List String Lia Permutation Bool.
From stdpp Require Import gmap strings list fin_maps sorting.

Set Warnings "-register-all".
Local Open Scope Z_scope.

(** ** Python values and exceptions shared by all modules *)

Module Py.

(** The exception classes raised by the embedded code. *)
Inductive exn : Type :=
| TypeError
| ValueError
| KeyError
| AttributeError
| NameError
| OSError
| ZeroDivisionError
| NotImplementedError
| WorkflowDescriptionError
| IntegrityError.

(** Outcome of a call: a returned value or a raised exception. *)
Inductive result (A : Type) : Type :=
| Ok (a : A)
| Raise (e : exn).
Arguments Ok {A} a.
Arguments Raise {A} e.

Definition bind {A B} (r : result A) (k : A -> result B) : result B :=
  match r with
  | Ok a => k a
  | Raise e => Raise e
  end.

(** Values passed around as arguments.  [VObj n] is an opaque object
    (a task, a resource matcher, ...) whose identity [id(obj)] is [n]. *)
Inductive value : Type :=
| VNone
| VBool (b : bool)
| VInt (z : Z)
| VStr (s : string)
| VObj (ident : nat).

(** [os.path.join(a, b)] of posixpath for two components. *)
Definition os_path_join (a b : string) : string :=
  if String.prefix "/" b then b
  else if (String.eqb a EmptyString || String.eqb (String.substring (String.length a - 1) 1 a) "/")%bool
       then (a +:+ b)%string
       else (a +:+ "/" +:+ b)%string.

End Py.

Import Py.

Notation "'do' x <- c1 ; c2" := (Py.bind c1 (fun x => c2))
  (at level 60, x name, c1 at next level, right associativity).

(** ** tmlib/logging_utils.py *)

Module LoggingUtils.

(** Level constants of the standard [logging] module. *)
Definition WARN : Z := 30.
Definition INFO : Z := 20.
Definition DEBUG : Z := 10.
Definition NOTSET : Z := 0.

Definition VERBOSITY_TO_LEVELS : gmap Z Z :=
  <[0 := WARN]> (<[1 := INFO]> (<[2 := DEBUG]> (<[3 := NOTSET]> ∅))).

(** [len(VERBOSITY_TO_LEVELS)] *)
Definition len_levels : Z := Z.of_nat (size VERBOSITY_TO_LEVELS).

(** [map_logging_verbosity(verbosity)].  A [bool] is an [int] in Python,
    every other non-integer argument is rejected with [TypeError]. *)
Definition map_logging_verbosity (verbosity : value) : result Z :=
  match verbosity with
  | VInt _ | VBool _ =>
      let v := match verbosity with
               | VInt z => z
               | VBool b => Z.b2z b
               | _ => 0
               end in
      if negb (v >=? 0) then Raise ValueError
      else
        let v' := if v >? len_levels then len_levels - 1 else v in
        Ok (default NOTSET (VERBOSITY_TO_LEVELS !! v'))
  | _ => Raise TypeError
  end.

End LoggingUtils.

(** ** src/tmlib/models/status.py and src/tmlib/models/plate.py *)

Module PlateModel.

(** class [FileUploadStatus]: three string constants. *)
Definition WAITING : string := "WAITING".
Definition UPLOADING : string := "UPLOADING".
Definition COMPLETE : string := "COMPLETE".

(** The [upload_status] column of an acquisition is a string. *)
Record Acquisition := { upload_status : string }.

Record Plate := { acquisitions : list Acquisition }.

(** [set([f.upload_status for f in self.acquisitions])] *)
Definition child_status (self : Plate) : gset string :=
  list_to_set (upload_status <$> acquisitions self).

(** Property [Plate.status]. *)
Definition status (self : Plate) : string :=
  if decide (UPLOADING ∈ child_status self) then UPLOADING
  else if decide (size (child_status self) = 1%nat ∧ COMPLETE ∈ child_status self)
       then COMPLETE
       else WAITING.

(** At least one child acquisition is uploading. *)
Definition some_uploading (p : Plate) : Prop :=
  exists a, a ∈ acquisitions p /\ upload_status a = UPLOADING.

(** The plate has an acquisition and all its acquisitions are complete. *)
Definition all_complete (p : Plate) : Prop :=
  acquisitions p <> [] /\
  forall a, a ∈ acquisitions p -> upload_status a = COMPLETE.

End PlateModel.

(** ** src/tmlib/engine.py *)

Module Engine.

(** The methods of the wrapped [gc3libs.core.Engine] that [BgEngine]
    proxies; [Engine_add] stands for the bound method [self._engine.add]. *)
Inductive method : Type :=
| Engine_add
| Engine_close
| Engine_fetch_output
| Engine_free
| Engine_get_resources
| Engine_get_backend
| Engine_kill
| Engine_peek
| Engine_remove
| Engine_select_resource
| Engine_submit
| Engine_update_job_state.

(** Keyword arguments [**extra_args]. *)
Definition kwargs : Type := list (string * value).

(** An entry [(fn, args, kwargs)] of the queue [self._q]. *)
Record delayed_call : Type := Delayed {
  fn : method;
  args : list value;
  kw : kwargs
}.

(** The records written to [gc3libs.log] by [_perform]. *)
Inductive log_record : Type :=
| LogPerformStarted
| LogExecuting (c : delayed_call)
| LogCallError (e : exn) (c : delayed_call)
| LogCallingProgress
| LogProgressError (e : exn)
| LogPerformDone.

(** The functions decorated with [at_most_once_per_cycle]. *)
Inductive reader : Type :=
| stats_data_fn
| all_tasks_data_fn
| task_data_fn
| task_and_children_data_fn.

#[global] Instance reader_eq_dec : EqDecision reader.
Proof. solve_decision. Defined.

Definition reader_code (r : reader) : nat :=
  match r with
  | stats_data_fn => 0
  | all_tasks_data_fn => 1
  | task_data_fn => 2
  | task_and_children_data_fn => 3
  end%nat.

Definition reader_decode (n : nat) : reader :=
  match n with
  | 0 => stats_data_fn
  | 1 => all_tasks_data_fn
  | 2 => task_data_fn
  | _ => task_and_children_data_fn
  end%nat.

#[global] Instance reader_countable : Countable reader.
Proof.
  apply (inj_countable' reader_code reader_decode). by intros [].
Defined.

(** The cache key [(fn, tuple(id(arg) for arg in args))]: the identity of
    the decorated function and the identities of the positional
    arguments. *)
Definition cache_key : Type := reader * list nat.

Section BgEngine.

(** State of the wrapped engine, and the values returned by the
    read-side methods. *)
Variable EngineState : Type.
Variable Value : Type.

(** A call of a method of the wrapped engine: the engine afterwards and
    the exception it raised, if any.  Only subclasses of [Exception]
    are considered, which is what [_perform] catches. *)
Variable engine_call :
  method -> list value -> kwargs -> EngineState -> EngineState * option exn.

(** [Engine.progress()] *)
Variable engine_progress : EngineState -> EngineState * option exn.

(** The attributes of a [BgEngine].  The two cache dictionaries do not
    exist until the decorator creates them. Timestamps are readings of
    [time.time()]; [_progress_last_run] is [0] after [__init__]. *)
Record BgEngine : Type := MkBgEngine {
  _q : list delayed_call;
  _engine : EngineState;
  _progress_last_run : Z;
  _cache_last_updated : option (gmap cache_key Z);
  _cache_value : option (gmap cache_key Value)
}.

(** [BgEngine.__init__] given an [Engine] instance. *)
Definition init (engine : EngineState) : BgEngine :=
  {| _q := [];
     _engine := engine;
     _progress_last_run := 0;
     _cache_last_updated := None;
     _cache_value := None |}.

(** [self._q.append(entry)] *)
Definition enqueue (self : BgEngine) (entry : delayed_call) : BgEngine :=
  {| _q := _q self ++ [entry];
     _engine := _engine self;
     _progress_last_run := _progress_last_run self;
     _cache_last_updated := _cache_last_updated self;
     _cache_value := _cache_value self |}.

(** *** Engine interface: the mutating proxies.  An optional argument
    is [None] when the caller leaves it out. *)

Definition add (self : BgEngine) (task : value) : BgEngine :=
  enqueue self (Delayed Engine_add [task] []).

Definition close (self : BgEngine) : BgEngine :=
  enqueue self (Delayed Engine_close [] []).

Definition fetch_output (self : BgEngine) (task : value)
    (output_dir overwrite changed_only : option value)
    (extra_args : kwargs) : BgEngine :=
  enqueue self
    (Delayed Engine_fetch_output
       [task; default VNone output_dir;
        default (VBool false) overwrite;
        default (VBool true) changed_only]
       extra_args).

Definition free (self : BgEngine) (task : value) (extra_args : kwargs)
  : BgEngine :=
  enqueue self (Delayed Engine_free [task] extra_args).

Definition get_resources (self : BgEngine) : BgEngine :=
  enqueue self (Delayed Engine_get_resources [] []).

Definition get_backend (self : BgEngine) (name : value) : BgEngine :=
  enqueue self (Delayed Engine_get_backend [name] []).

Definition kill (self : BgEngine) (task : value) (extra_args : kwargs)
  : BgEngine :=
  enqueue self (Delayed Engine_kill [task] extra_args).

Definition peek (self : BgEngine) (task : value)
    (what offset size : option value) (extra_args : kwargs) : BgEngine :=
  enqueue self
    (Delayed Engine_peek
       [task; default (VStr "stdout") what;
        default (VInt 0) offset;
        default VNone size]
       extra_args).

Definition remove (self : BgEngine) (task : value) : BgEngine :=
  enqueue self (Delayed Engine_remove [task] []).

Definition select_resource (self : BgEngine) (match_ : value) : BgEngine :=
  enqueue self (Delayed Engine_select_resource [match_] []).

Definition submit (self : BgEngine) (task : value)
    (resubmit targets : option value) (extra_args : kwargs) : BgEngine :=
  enqueue self
    (Delayed Engine_submit
       [task; default (VBool false) resubmit; default VNone targets]
       extra_args).

Definition update_job_state (self : BgEngine) (tasks : list value)
    (extra_args : kwargs) : BgEngine :=
  enqueue self (Delayed Engine_update_job_state tasks extra_args).

(** A mutating call as a client issues it. *)
Inductive proxy_call : Type :=
| Call_add (task : value)
| Call_close
| Call_fetch_output (task : value)
    (output_dir overwrite changed_only : option value) (extra : kwargs)
| Call_free (task : value) (extra : kwargs)
| Call_get_resources
| Call_get_backend (name : value)
| Call_kill (task : value) (extra : kwargs)
| Call_peek (task : value) (what offset size : option value) (extra : kwargs)
| Call_remove (task : value)
| Call_select_resource (match_ : value)
| Call_submit (task : value) (resubmit targets : option value) (extra : kwargs)
| Call_update_job_state (tasks : list value) (extra : kwargs).

Definition issue (self : BgEngine) (c : proxy_call) : BgEngine :=
  match c with
  | Call_add t => add self t
  | Call_close => close self
  | Call_fetch_output t o w c x => fetch_output self t o w c x
  | Call_free t x => free self t x
  | Call_get_resources => get_resources self
  | Call_get_backend n => get_backend self n
  | Call_kill t x => kill self t x
  | Call_peek t w o s x => peek self t w o s x
  | Call_remove t => remove self t
  | Call_select_resource m => select_resource self m
  | Call_submit t r g x => submit self t r g x
  | Call_update_job_state ts x => update_job_state self ts x
  end.

(** The call of the wrapped engine that corresponds to a proxy call. *)
Definition corresponding (c : proxy_call) : delayed_call :=
  match c with
  | Call_add t => Delayed Engine_add [t] []
  | Call_close => Delayed Engine_close [] []
  | Call_fetch_output t o w c x =>
      Delayed Engine_fetch_output
        [t; default VNone o; default (VBool false) w; default (VBool true) c] x
  | Call_free t x => Delayed Engine_free [t] x
  | Call_get_resources => Delayed Engine_get_resources [] []
  | Call_get_backend n => Delayed Engine_get_backend [n] []
  | Call_kill t x => Delayed Engine_kill [t] x
  | Call_peek t w o s x =>
      Delayed Engine_peek
        [t; default (VStr "stdout") w; default (VInt 0) o; default VNone s] x
  | Call_remove t => Delayed Engine_remove [t] []
  | Call_select_resource m => Delayed Engine_select_resource [m] []
  | Call_submit t r g x =>
      Delayed Engine_submit [t; default (VBool false) r; default VNone g] x
  | Call_update_job_state ts x => Delayed Engine_update_job_state ts x
  end.

(** *** [_perform] *)

(** The delayed call [fn] with its [args] and [kwargs], on the wrapped
    engine. *)
Definition invoke (c : delayed_call) (e : EngineState)
  : EngineState * option exn :=
  engine_call (fn c) (args c) (kw c) e.

(** The loop [for fn, args, kwargs in q]: every entry is called; an
    exception is logged and the loop goes on. *)
Fixpoint run_delayed (q : list delayed_call) (e : EngineState)
  : EngineState * list log_record :=
  match q with
  | [] => (e, [])
  | c :: q' =>
      let '(e1, raised) := invoke c e in
      let '(e2, l) := run_delayed q' e1 in
      (e2,
       LogExecuting c ::
         match raised with
         | Some err => LogCallError err c :: l
         | None => l
         end)
  end.

(** [_perform()]; [now] is the reading of [time.time()] taken after
    [progress()] has returned. *)
Definition _perform (now : Z) (self : BgEngine)
  : BgEngine * list log_record :=
  let q := _q self in
  let '(e1, l1) := run_delayed q (_engine self) in
  let '(e2, raised) := engine_progress e1 in
  match raised with
  | None =>
      ({| _q := [];
          _engine := e2;
          _progress_last_run := now;
          _cache_last_updated := _cache_last_updated self;
          _cache_value := _cache_value self |},
       LogPerformStarted :: l1 ++ [LogCallingProgress; LogPerformDone])
  | Some err =>
      ({| _q := [];
          _engine := e2;
          _progress_last_run := _progress_last_run self;
          _cache_last_updated := _cache_last_updated self;
          _cache_value := _cache_value self |},
       LogPerformStarted :: l1
         ++ [LogCallingProgress; LogProgressError err; LogPerformDone])
  end.

(** The calls that a log reports as executed, in order. *)
Definition executed (l : list log_record) : list delayed_call :=
  omap (fun r => match r with LogExecuting c => Some c | _ => None end) l.

(** The engine after it has received the calls [q] one after the other,
    whatever each of them raised. *)
Definition received (q : list delayed_call) (e : EngineState) : EngineState :=
  foldl (fun e c => fst (invoke c e)) e q.

(** *** [at_most_once_per_cycle] *)

(** A decorated method body: it gets [self] and the positional
    arguments (object references), may change [self] (nested calls of
    decorated methods fill the cache) and returns or raises. *)
Definition body : Type := BgEngine -> list nat -> BgEngine * result Value.

Definition set_cache (self : BgEngine)
    (lu : option (gmap cache_key Z)) (cv : option (gmap cache_key Value))
  : BgEngine :=
  {| _q := _q self;
     _engine := _engine self;
     _progress_last_run := _progress_last_run self;
     _cache_last_updated := lu;
     _cache_value := cv |}.

(** [self._cache_value[key]] *)
Definition cache_value_get (self : BgEngine) (key : cache_key)
  : result Value :=
  match _cache_value self with
  | None => Raise AttributeError
  | Some cv =>
      match cv !! key with
      | Some v => Ok v
      | None => Raise KeyError
      end
  end.

(** The [try] block: [update = self._cache_last_updated[key] <
    self._progress_last_run].  The dictionary is a [defaultdict(float)]:
    a missing key is inserted with [0.0].  Without the attribute both
    dictionaries are created and [update] is [True]. *)
Definition check_update (self : BgEngine) (key : cache_key)
  : BgEngine * bool :=
  match _cache_last_updated self with
  | Some lu =>
      match lu !! key with
      | Some t => (self, t <? _progress_last_run self)
      | None =>
          (set_cache self (Some (<[key := 0]> lu)) (_cache_value self),
           0 <? _progress_last_run self)
      end
  | None => (set_cache self (Some ∅) (Some ∅), true)
  end.

(** The two assignments of the [if update:] block after the body has
    returned [v]: the object afterwards and the exception of an
    assignment to a dictionary that does not exist. *)
Definition store (self : BgEngine) (key : cache_key) (v : Value) (now : Z)
  : BgEngine * option exn :=
  match _cache_value self with
  | None => (self, Some AttributeError)
  | Some cv =>
      let self' := set_cache self (_cache_last_updated self)
                     (Some (<[key := v]> cv)) in
      match _cache_last_updated self' with
      | None => (self', Some AttributeError)
      | Some lu =>
          (set_cache self' (Some (<[key := now]> lu)) (_cache_value self'),
           None)
      end
  end.

(** The [wrapper] of the decorator; [now] is the reading of [time.time()] that
    stamps a new cache entry. *)
Definition at_most_once_per_cycle (f : reader) (fn_body : body) (now : Z)
    (self : BgEngine) (args : list nat) : BgEngine * result Value :=
  if _progress_last_run self =? 0 then fn_body self args
  else
    let key := (f, args) in
    let '(self1, update) := check_update self key in
    if update then
      let '(self2, r) := fn_body self1 args in
      match r with
      | Raise e => (self2, Raise e)
      | Ok v =>
          match store self2 key v now with
          | (self3, Some e) => (self3, Raise e)
          | (self3, None) => (self3, cache_value_get self3 key)
          end
      end
    else (self1, cache_value_get self1 key).

(** The entry of [key] is older than the last completed progress
    cycle, or there is none. *)
Definition stale (self : BgEngine) (key : cache_key) : Prop :=
  match _cache_last_updated self with
  | None => True
  | Some lu => default 0 (lu !! key) < _progress_last_run self
  end.

(** [key] holds the value [v] stamped [t]. *)
Definition cached (self : BgEngine) (key : cache_key) (t : Z) (v : Value)
  : Prop :=
  exists lu cv,
    _cache_last_updated self = Some lu /\ _cache_value self = Some cv /\
    lu !! key = Some t /\ cv !! key = Some v.

(** A body that only reads the wrapped engine: it leaves the object as
    it is, and what it returns depends on the wrapped engine alone. *)
Definition reads_engine (fn_body : body) (args : list nat) : Prop :=
  (forall s, fst (fn_body s args) = s)
  /\ (forall s s', _engine s = _engine s' ->
                   snd (fn_body s args) = snd (fn_body s' args)).

End BgEngine.

Arguments MkBgEngine {EngineState Value}.
Arguments _q {EngineState Value}.
Arguments _engine {EngineState Value}.
Arguments _progress_last_run {EngineState Value}.
Arguments _cache_last_updated {EngineState Value}.
Arguments _cache_value {EngineState Value}.
Arguments init {EngineState} Value.
Arguments issue {EngineState Value}.
Arguments enqueue {EngineState Value}.
Arguments _perform {EngineState Value}.
Arguments run_delayed {EngineState}.
Arguments invoke {EngineState}.
Arguments received {EngineState}.
Arguments at_most_once_per_cycle {EngineState Value}.
Arguments check_update {EngineState Value}.
Arguments store {EngineState Value}.
Arguments cache_value_get {EngineState Value}.
Arguments set_cache {EngineState Value}.
Arguments stale {EngineState Value}.
Arguments cached {EngineState Value}.
Arguments reads_engine {EngineState Value}.
Arguments executed l : assert.
Arguments corresponding c : assert.

(** *** [BgEngine.task_data] *)

(** The states of [gc3libs.Run.State]. *)
Definition NEW : string := "NEW".
Definition SUBMITTED : string := "SUBMITTED".
Definition RUNNING : string := "RUNNING".
Definition STOPPED : string := "STOPPED".
Definition TERMINATING : string := "TERMINATING".
Definition TERMINATED : string := "TERMINATED".

(** What [isinstance] tells about a task: a [TaskCollection] (which is a
    [Task] too), a [Task] that is no collection, or another object. *)
Inductive task_class : Type :=
| TaskCollection
| Task
| OtherObject.

(** [task.execution]: the state, the exit code ([None] until there is one)
    and the dictionary mapping a state to the time it was entered.
    [state_is_constant] tells whether the state is the very string object
    of [Run.State], as it is after an assignment from the constants; a
    state that was restored from a pickle is an equal string but another
    object. *)
Record execution : Type := MkExecution {
  state : string;
  state_is_constant : bool;
  exitcode : option Z;
  timestamp : gmap string Z
}.

(** A task: its class, [jobname], [execution], [persistent_id] when it has
    one, the children [tasks] and the amount of [requested_walltime]. *)
Inductive task : Type :=
| MkTask (cls : task_class) (jobname : string) (exec : execution)
         (persistent_id : option string) (tasks : list task)
         (requested_walltime : Z).

Definition task_cls (t : task) : task_class :=
  match t with MkTask c _ _ _ _ _ => c end.
Definition task_jobname (t : task) : string :=
  match t with MkTask _ n _ _ _ _ => n end.
Definition task_execution (t : task) : execution :=
  match t with MkTask _ _ e _ _ _ => e end.
Definition task_persistent_id (t : task) : option string :=
  match t with MkTask _ _ _ p _ _ => p end.
Definition task_tasks (t : task) : list task :=
  match t with MkTask _ _ _ _ ts _ => ts end.
Definition task_requested_walltime (t : task) : Z :=
  match t with MkTask _ _ _ _ _ w => w end.

(** The entry ['percent_done']: [None], an integer (the quotient of two
    Python 2 integers), or the float [100.0 * runtime / walltime], which is
    kept as its two operands. *)
Inductive percent : Type :=
| PercentNone
| PercentInt (z : Z)
| PercentOfWalltime (runtime walltime : Z).

(** The dictionary [data] returned by [task_data]. *)
Record task_info : Type := MkTaskInfo {
  info_name : string;
  info_state : string;
  info_is_live : bool;
  info_is_done : bool;
  info_failed : bool;
  info_percent_done : percent;
  info_id : option string
}.

(** [a in b] on two strings: [a] occurs in [b]. *)
Definition str_in (a b : string) : bool :=
  match String.index 0 a b with Some _ => true | None => false end.

(** [child.execution.state is gc3libs.Run.State.TERMINATED]: the test of
    the loop is on the identity of the string object. *)
Definition is_TERMINATED (c : task) : Prop :=
  state (task_execution c) = TERMINATED
  /\ state_is_constant (task_execution c) = true.

#[global] Instance is_TERMINATED_dec (c : task) : Decision (is_TERMINATED c).
Proof. unfold is_TERMINATED. apply _. Defined.

(** The number of children whose state is [TERMINATED]. *)
Definition count_terminated (children : list task) : Z :=
  Z.of_nat (length (filter is_TERMINATED children)).

(** The body of [task_data(self, task, monitoring_depth=2)]; [now] is the
    reading of [time.time()].  The file does not import [division] from
    [__future__]: [/] on two integers is the floor division. *)
Definition task_data (now : Z) (t : task) : result task_info :=
  let e := task_execution t in
  let is_live := bool_decide (state e ∈ [SUBMITTED; RUNNING; STOPPED]) in
  let is_done := str_in (state e) TERMINATED in
  let failed := negb (bool_decide (exitcode e = Some 0)) in
  let data p :=
    {| info_name := task_jobname t;
       info_state := state e;
       info_is_live := is_live;
       info_is_done := is_done;
       info_failed := is_done && failed;
       info_percent_done := p;
       info_id := task_persistent_id t |} in
  match timestamp e !! RUNNING with
  | Some started =>
      match task_cls t with
      | TaskCollection =>
          let done := count_terminated (task_tasks t) in
          let n := Z.of_nat (length (task_tasks t)) in
          if n =? 0 then Raise ZeroDivisionError
          else Ok (data (PercentInt (done / n)))
      | Task =>
          let runtime := now - started in
          if task_requested_walltime t =? 0 then Raise ZeroDivisionError
          else Ok (data (PercentOfWalltime runtime (task_requested_walltime t)))
      | OtherObject => Raise NotImplementedError
      end
  | None => Ok (data PercentNone)
  end.

(** A wrapped engine that records what it receives and whose [kill]
    always raises. *)
Definition recording_call (m : method) (a : list value) (k : kwargs)
    (e : list delayed_call) : list delayed_call * option exn :=
  (e ++ [Delayed m a k],
   match m with Engine_kill => Some ValueError | _ => None end).

Definition recording_progress (e : list delayed_call)
  : list delayed_call * option exn := (e, None).

(** A collection of two children, one of them terminated, that has been
    running since time 5. *)
Definition half_done_collection : task :=
  let leaf st :=
    MkTask Task "child"
      {| state := st; state_is_constant := true; exitcode := None;
         timestamp := {[ RUNNING := 5 ]} |}
      None [] 3600 in
  MkTask TaskCollection "workflow"
    {| state := RUNNING; state_is_constant := true; exitcode := None;
       timestamp := {[ RUNNING := 5 ]} |}
    (Some "42") [leaf TERMINATED; leaf RUNNING] 0.

End Engine.

(** ** tmlib/workflow/description.py *)

Module Description.

(** The dependency declaration of a workflow type, as returned by
    [get_workflow_dependencies(type)]: the attributes are a list and
    dictionaries keyed by stage or step name. *)
Record WorkflowDependencies : Type := MkDeps {
  STAGES : list string;
  STAGE_MODES : gmap string string;
  STEPS_PER_STAGE : gmap string (list string);
  INTER_STAGE_DEPENDENCIES : gmap string (list string);
  INTRA_STAGE_DEPENDENCIES : gmap string (list string)
}.

Record WorkflowStepDescription : Type := MkStep {
  step_name : string;
  step_active : bool
}.

Record WorkflowStageDescription : Type := MkStage {
  name : string;
  mode : string;
  active : bool;
  steps : list WorkflowStepDescription
}.

Record WorkflowDescription : Type := MkWorkflow {
  type : string;
  dependencies : WorkflowDependencies;
  stages : list WorkflowStageDescription
}.

(** The argument of [add_stage]: a stage description or any other
    object. *)
Inductive argument : Type :=
| StageArg (s : WorkflowStageDescription)
| OtherArg (v : value).

(** [d[k]] on a dictionary. *)
Definition getitem {A} (d : gmap string A) (k : string) : result A :=
  match d !! k with
  | Some a => Ok a
  | None => Raise KeyError
  end.

(** [for step in stage_description.steps]: the implemented steps of the
    stage are looked up at every turn. *)
Fixpoint check_implemented (deps : WorkflowDependencies) (stage : string)
    (l : list WorkflowStepDescription) : result unit :=
  match l with
  | [] => Ok tt
  | step :: rest =>
      do implemented_steps <- getitem (STEPS_PER_STAGE deps) stage;
      if bool_decide (step_name step ∈ implemented_steps)
      then check_implemented deps stage rest
      else Raise WorkflowDescriptionError
  end.

(** [for dep in INTER_STAGE_DEPENDENCIES[name]]: a dependency that is
    not among the stage names reaches [logger.warning(...)].  The module
    neither imports [logging] nor binds the name [logger]: evaluating it
    raises [NameError]. *)
Fixpoint warn_missing (stage_names : list string) (deps : list string)
  : result unit :=
  match deps with
  | [] => Ok tt
  | dep :: rest =>
      if bool_decide (dep ∈ stage_names)
      then warn_missing stage_names rest
      else Raise NameError
  end.

(** [for name in stage_names]: the new stage must not be a declared
    upstream dependency of a stage that is already there. *)
Fixpoint check_upstream (deps : WorkflowDependencies) (new : string)
    (stage_names : list string) : result unit :=
  match stage_names with
  | [] => Ok tt
  | name :: rest =>
      do required <- getitem (INTER_STAGE_DEPENDENCIES deps) name;
      if bool_decide (new ∈ required)
      then Raise WorkflowDescriptionError
      else check_upstream deps new rest
  end.

(** [for name in step_names]: the [raise] of this loop formats a string
    of two fields with one argument, which is a [TypeError]. *)
Fixpoint check_required (required_steps : list string)
    (step_names : list string) : result unit :=
  match step_names with
  | [] => Ok tt
  | name :: rest =>
      if bool_decide (name ∈ required_steps)
      then check_required required_steps rest
      else Raise TypeError
  end.

(** [WorkflowDescription.add_stage(stage_description)] *)
Definition add_stage (self : WorkflowDescription) (a : argument)
  : result WorkflowDescription :=
  match a with
  | OtherArg _ => Raise TypeError
  | StageArg stage_description =>
      let deps := dependencies self in
      if existsb (fun stage => String.eqb (name stage) (name stage_description))
                 (stages self)
      then Raise WorkflowDescriptionError
      else if negb (bool_decide (name stage_description ∈ STAGES deps))
      then Raise WorkflowDescriptionError
      else
        do _ <- check_implemented deps (name stage_description)
                  (steps stage_description);
        let stage_names := name <$> stages self in
        do _ <- match INTER_STAGE_DEPENDENCIES deps !! name stage_description with
                | Some ds => warn_missing stage_names ds
                | None => Ok tt
                end;
        do _ <- check_upstream deps (name stage_description) stage_names;
        let step_names := step_name <$> steps stage_description in
        do required_steps <- getitem (STEPS_PER_STAGE deps) (name stage_description);
        do _ <- check_required required_steps step_names;
        Ok {| type := type self;
              dependencies := deps;
              stages := stages self ++ [stage_description] |}
  end.

(** A dependency declaration in which stage "analysis" requires stage
    "upload" upstream. *)
Definition upload_analysis : WorkflowDependencies :=
  {| STAGES := ["upload"; "analysis"];
     STAGE_MODES := {[ "upload" := "sequential"; "analysis" := "sequential" ]};
     STEPS_PER_STAGE := {[ "upload" := ["metaextract"]; "analysis" := ["jterator"] ]};
     INTER_STAGE_DEPENDENCIES := {[ "upload" := []; "analysis" := ["upload"] ]};
     INTRA_STAGE_DEPENDENCIES := ∅ |}.

Definition upload_stage : WorkflowStageDescription :=
  MkStage "upload" "sequential" true [MkStep "metaextract" true].

Definition analysis_stage : WorkflowStageDescription :=
  MkStage "analysis" "sequential" true [MkStep "jterator" true].

(** A workflow of that type with the given stages. *)
Definition workflow_with (l : list WorkflowStageDescription) : WorkflowDescription :=
  MkWorkflow "example" upload_analysis l.

End Description.

(** ** tmlib/models/tile.py *)

Module Tile.

(** A JPEG-encoded pixel blob. *)
Definition blob : Type := list Byte.byte.

(** A [ChannelLayerTile] object; [_pixels] is [None] when no pixels were
    given. *)
Record ChannelLayerTile : Type := MkTile {
  z : Z;
  y : Z;
  x : Z;
  channel_layer_id : Z;
  _pixels : option blob
}.

(** A row of the table [channel_layer_tiles]. *)
Record tile_row : Type := MkRow {
  row_channel_layer_id : Z;
  row_z : Z;
  row_y : Z;
  row_x : Z;
  row_pixels : blob
}.

(** The table behind a connection. *)
Abbreviation table := (list tile_row).

(** [PrimaryKeyConstraint('y', 'channel_layer_id', 'z', 'x')] *)
Abbreviation primary_key := (Z * Z * Z * Z)%type.

Definition row_key (r : tile_row) : primary_key :=
  (row_y r, row_channel_layer_id r, row_z r, row_x r).

Definition tile_key (t : ChannelLayerTile) : primary_key :=
  (y t, channel_layer_id t, z t, x t).

(** The table satisfies its primary key constraint. *)
Definition pkey_holds (tbl : table) : Prop := NoDup (row_key <$> tbl).

(** A row with the key [k] exists. *)
Definition has_key (tbl : table) (k : primary_key) : bool :=
  bool_decide (k ∈ row_key <$> tbl).

(** The rows of key [k]. *)
Definition rows_of (tbl : table) (k : primary_key) : list tile_row :=
  filter (fun r => row_key r = k) tbl.

(** [INSERT INTO channel_layer_tiles ... VALUES (...)]: a row whose key
    exists violates the constraint. *)
Definition insert (tbl : table) (r : tile_row) : result table :=
  if has_key tbl (row_key r) then Raise IntegrityError
  else Ok (tbl ++ [r]).

(** [INSERT ... ON CONFLICT ON CONSTRAINT channel_layer_tiles_pkey DO
    UPDATE SET pixels = ...]: the conflicting row keeps its place and gets
    the new pixels. *)
Definition on_conflict_update (r r' : tile_row) : tile_row :=
  if bool_decide (row_key r' = row_key r)
  then {| row_channel_layer_id := row_channel_layer_id r';
          row_z := row_z r';
          row_y := row_y r';
          row_x := row_x r';
          row_pixels := row_pixels r |}
  else r'.

Definition insert_on_conflict_update (tbl : table) (r : tile_row) : table :=
  if has_key tbl (row_key r)
  then on_conflict_update r <$> tbl
  else tbl ++ [r].

(** The parameters of both statements; [tile._pixels.tostring()] needs
    pixels. *)
Definition parameters (tile : ChannelLayerTile) : result tile_row :=
  match _pixels tile with
  | None => Raise AttributeError
  | Some px =>
      Ok {| row_channel_layer_id := channel_layer_id tile;
            row_z := z tile;
            row_y := y tile;
            row_x := x tile;
            row_pixels := px |}
  end.

(** [ChannelLayerTile.add(connection, tile)] *)
Definition add (connection : table) (tile : ChannelLayerTile) : result table :=
  do r <- parameters tile;
  Ok (insert_on_conflict_update connection r).

(** [ChannelLayerTile.add_multiple(connection, tiles)] *)
Fixpoint add_multiple (connection : table) (tiles : list ChannelLayerTile)
  : result table :=
  match tiles with
  | [] => Ok connection
  | tile :: rest =>
      do r <- parameters tile;
      do connection' <- insert connection r;
      add_multiple connection' rest
  end.

End Tile.

(** ** tmt/imageutil.py *)

Module ImageUtil.

(** *** [random.sample] of the standard library (Python 2)

    The generator is the sequence [rng] of its draws: the draw of number
    [i] gives the index [rng i mod m] where the library computes
    [int(random() * m)].  For [k] items out of a population of [n], the
    library takes one of two ways.  For a population of at most
    [setsize] items it copies the population into a pool and, at turn
    [i], takes the pool entry [j] drawn below [n - i] and moves the last
    live entry of the pool into its place.  For a larger population it
    keeps the set of the selected indices and draws an index below [n]
    again and again until the index is not in the set. *)

Fixpoint sample_pool {A} (rng : nat -> nat) (i k : nat) (pool : list A)
  : list A :=
  match k with
  | O => []
  | S k' =>
      let m := length pool in
      let j := (rng i mod m)%nat in
      match pool !! j, last pool with
      | Some picked, Some moved =>
          picked :: sample_pool rng (S i) k' (take (m - 1) (<[j := moved]> pool))
      | _, _ => []
      end
  end.

(** [_ceil(_log(m, 4))] for [m >= 1]: the least [e] with [m <= 4 ** e].
    The library computes it on floats; [m] is three times a number of
    items here, which is no power of 4. *)
Fixpoint ceil_log4_from (fuel e m : nat) : nat :=
  match fuel with
  | O => e
  | S fuel' =>
      if (m <=? 4 ^ e)%nat then e else ceil_log4_from fuel' (S e) m
  end.

Definition ceil_log4 (m : nat) : nat := ceil_log4_from m 0 m.

(** [setsize = 21; if k > 5: setsize += 4 ** _ceil(_log(k * 3, 4))] *)
Definition setsize (k : nat) : nat :=
  if (5 <? k)%nat then (21 + 4 ^ ceil_log4 (k * 3))%nat else 21%nat.

(** [j = _int(random() * n); while j in selected: j = _int(random() * n)]
    from the draw of number [i] on: the index found and the number of the
    next draw, or [None] when [fuel] draws were all in [selected]. *)
Fixpoint draw_fresh (rng : nat -> nat) (fuel i n : nat) (selected : list nat)
  : option (nat * nat) :=
  match fuel with
  | O => None
  | S fuel' =>
      let j := (rng i mod n)%nat in
      if bool_decide (j ∈ selected) then draw_fresh rng fuel' (S i) n selected
      else Some (j, S i)
  end.

(** The loop [for i in xrange(k)] of the second way: the positions
    selected, in order. *)
Fixpoint sample_set (rng : nat -> nat) (fuel i n k : nat)
    (selected : list nat) : option (list nat) :=
  match k with
  | O => Some []
  | S k' =>
      match draw_fresh rng fuel i n selected with
      | None => None
      | Some (j, i') =>
          match sample_set rng fuel i' n k' (j :: selected) with
          | None => None
          | Some l => Some (j :: l)
          end
      end
  end.

(** The positions of the population that [sample] selects; [None] when
    a search for an index that is not selected yet has used up [fuel]
    draws. *)
Definition sample_positions (rng : nat -> nat) (fuel n k : nat)
  : option (list nat) :=
  if (n <=? setsize k)%nat then Some (sample_pool rng 0 k (seq 0 n))
  else sample_set rng fuel 0 n k [].

(** [random.sample(population, k)] on a list: [ValueError] unless
    [0 <= k <= n]. *)
Definition sample {A} (rng : nat -> nat) (fuel : nat) (population : list A)
    (k : Z) : option (result (list A)) :=
  let n := length population in
  if negb ((0 <=? k) && (k <=? Z.of_nat n)) then Some (Raise ValueError)
  else
    match sample_positions rng fuel n (Z.to_nat k) with
    | None => None
    | Some positions =>
        Some (Ok (omap (fun p => population !! p) positions))
    end.

(** The draws give every index below [n] again and again: the searches
    of the second way come to an end. *)
Definition recurrent (rng : nat -> nat) (n : nat) : Prop :=
  forall i j, (j < n)%nat -> exists d, (rng (i + d) mod n)%nat = j.

(** *** Arrays of numpy (version 1.10 or later)

    An array has a dtype.  [np.zeros((n,), dtype='uint32')] is unsigned;
    the counts of [np.histogram] are of the signed integer type [intp]. *)

Inductive dtype : Type := uint32 | intp.

Record array : Type := MkArray {
  array_dtype : dtype;
  array_data : list Z
}.

Definition uint32_modulus : Z := 2 ^ 32.
Definition intp_modulus : Z := 2 ^ 64.

(** The value that a dtype holds for the integer [z]. *)
Definition wrap (t : dtype) (z : Z) : Z :=
  match t with
  | uint32 => z mod uint32_modulus
  | intp => (z + intp_modulus / 2) mod intp_modulus - intp_modulus / 2
  end.

(** [np.zeros((n,), dtype='uint32')] *)
Definition np_zeros (n : nat) : array := MkArray uint32 (replicate n 0).

(** [np.result_type] of two of these dtypes, and
    [np.can_cast(from, to, casting='same_kind')]: a signed integer is
    not of the kind of an unsigned one. *)
Definition result_type (a b : dtype) : dtype :=
  match a, b with
  | uint32, uint32 => uint32
  | _, _ => intp
  end.

Definition can_cast_same_kind (from to : dtype) : bool :=
  match from, to with
  | intp, uint32 => false
  | _, _ => true
  end.

(** [hist += h]: the sum has the result type of the two arrays and is
    stored back into [hist]; from numpy 1.10 on the store is refused with
    [TypeError] unless the cast is of the same kind.  (Older versions
    stored the sum with a warning.) *)
Definition iadd (hist h : array) : result array :=
  let t := result_type (array_dtype hist) (array_dtype h) in
  if can_cast_same_kind t (array_dtype hist)
  then Ok (MkArray (array_dtype hist)
             (zip_with (fun a b => wrap (array_dtype hist) (a + b))
                       (array_data hist) (array_data h)))
  else Raise TypeError.

(** [hist /= d] for a Python 2 integer [d] that the dtype of [hist]
    holds: the floor division of integers, element by element; numpy
    yields [0] for a division by zero. *)
Definition idiv (hist : array) (d : Z) : array :=
  MkArray (array_dtype hist) ((fun a => a / d) <$> array_data hist).

Section Histogram.

(** The draws of the random generator. *)
Variable rng : nat -> nat.

(** The count in bin [b] of [np.histogram(bytescale(imread(f)), 256)[0]]
    for the image file [f]. *)
Variable bin_count : string -> nat -> N.

(** [np.histogram(scaled, 256)[0]]: an array of 256 counts. *)
Definition histogram (f : string) : array :=
  MkArray intp ((fun b => Z.of_N (bin_count f b)) <$> seq 0 256).

(** The loop [for f in files]: the accumulator or the exception that
    ended the loop, and the files that were read, in order. *)
Fixpoint accumulate (hist : array) (files : list string)
  : result array * list string :=
  match files with
  | [] => (Ok hist, [])
  | f :: rest =>
      let h := histogram f in
      match iadd hist h with
      | Raise e => (Raise e, [f])
      | Ok hist' =>
          let '(r, read) := accumulate hist' rest in
          (r, f :: read)
      end
  end.

(** [hist_sample_from_sites(filenames, nr_to_sample=5)]: the returned
    array or the exception, and the files that were read, in order;
    [None] when the sampling has used up [fuel]. *)
Definition hist_sample_from_sites (fuel : nat) (filenames : list string)
    (nr_to_sample : option Z) : option (result array * list string) :=
  let nr_to_sample := default 5 nr_to_sample in
  match sample rng fuel filenames nr_to_sample with
  | None => None
  | Some (Raise e) => Some (Raise e, [])
  | Some (Ok files) =>
      let '(r, read) := accumulate (np_zeros 256) files in
      Some (match r with
            | Ok hist => Ok (idiv hist (Z.of_nat (length files)))
            | Raise e => Raise e
            end,
            read)
  end.

End Histogram.

(** Thirty file names, for a population that is sampled the second way. *)
Definition thirty_files : list string :=
  (fun i => String (Ascii.ascii_of_nat (65 + i)) EmptyString) <$> seq 0 30.

End ImageUtil.

(** ** src/tmlib/cfg.py *)

Module Cfg.

(** Modelled from the spec: [Plate.SUPPORTED_PLATE_FORMATS] of the module
    [tmlib.plate], which is not among the sources; the supported plate
    formats are 1, 96 and 384. *)
Definition SUPPORTED_PLATE_FORMATS : list Z := [1; 96; 384].

(** [UserConfiguration._PERSISTENT_ATTRS] *)
Definition _PERSISTENT_ATTRS : list string :=
  ["sources_dir"; "plates_dir"; "layers_dir"; "plate_format"; "workflow"].

Section UserConfiguration.

(** The mapping given as ["args"] of a step, the arguments object that
    the handlers of [tmlib.tmaps.workflow] build from it for a step name,
    and the dictionary that [dict(args)] yields. *)
Variable RawArgs : Type.
Variable Args : Type.
Variable ArgsDict : Type.
Variable load_args : string -> RawArgs -> result Args.
Variable args_dict : Args -> ArgsDict.

(** [os.path.exists] *)
Variable path_exists : string -> bool.

(** *** The legacy workflow description of the same file *)

(** The keyword arguments of the three constructors: a key may be
    missing. *)
Record step_kwargs : Type := MkStepKwargs {
  kw_step_name : option value;
  kw_step_args : option RawArgs
}.

Record stage_kwargs : Type := MkStageKwargs {
  kw_stage_name : option value;
  kw_steps : option (list step_kwargs)
}.

Record workflow_kwargs : Type := MkWorkflowKwargs {
  kw_stages : option (list stage_kwargs)
}.

Record WorkflowStepDescription : Type := MkStepDescription {
  step_name : string;
  step_args : Args
}.

Record WorkflowStageDescription : Type := MkStageDescription {
  stage_name : string;
  stage_steps : list WorkflowStepDescription
}.

Record WorkflowDescription : Type := MkWorkflowDescription {
  stages : list WorkflowStageDescription;
  virtualenv : option string;
  verbosity : Z
}.

(** The setters of [name]: a [basestring] or [TypeError]. *)
Definition as_name (v : value) : result string :=
  match v with
  | VStr s => Ok s
  | _ => Raise TypeError
  end.

(** [mapM] on results, left to right. *)
Fixpoint traverse {A B} (f : A -> result B) (l : list A) : result (list B) :=
  match l with
  | [] => Ok []
  | a :: l' =>
      do b <- f a;
      do bs <- traverse f l';
      Ok (b :: bs)
  end.

Definition WorkflowStepDescription_init (kw : step_kwargs)
  : result WorkflowStepDescription :=
  match kw_step_name kw, kw_step_args kw with
  | Some n, Some a =>
      do name <- as_name n;
      do args <- load_args name a;
      Ok (MkStepDescription name args)
  | _, _ => Raise KeyError
  end.

Definition WorkflowStageDescription_init (kw : stage_kwargs)
  : result WorkflowStageDescription :=
  match kw_stage_name kw, kw_steps kw with
  | Some n, Some steps =>
      do name <- as_name n;
      match steps with
      | [] => Raise ValueError
      | _ =>
          do steps' <- traverse WorkflowStepDescription_init steps;
          Ok (MkStageDescription name steps')
      end
  | _, _ => Raise KeyError
  end.

Definition WorkflowDescription_init (kw : workflow_kwargs)
  : result WorkflowDescription :=
  match kw_stages kw with
  | None => Raise KeyError
  | Some l =>
      do stages' <- traverse WorkflowStageDescription_init l;
      Ok (MkWorkflowDescription stages' None 1)
  end.

(** [dict(step)], [dict(stage)] and the entry ['stages'] of
    [dict(workflow)]. *)
Record step_dict : Type := MkStepDict {
  dict_step_name : string;
  dict_step_args : ArgsDict
}.

Record stage_dict : Type := MkStageDict {
  dict_stage_name : string;
  dict_stage_steps : list step_dict
}.

Definition WorkflowStepDescription_dict (s : WorkflowStepDescription)
  : step_dict :=
  MkStepDict (step_name s) (args_dict (step_args s)).

Definition WorkflowStageDescription_dict (s : WorkflowStageDescription)
  : stage_dict :=
  MkStageDict (stage_name s) (WorkflowStepDescription_dict <$> stage_steps s).

Definition WorkflowDescription_dict (w : WorkflowDescription)
  : list stage_dict :=
  WorkflowStageDescription_dict <$> stages w.

(** *** [UserConfiguration] *)

(** The attributes of the object.  A directory is [None] until it is set
    or defaulted; [_plate_format] and [_workflow] do not exist until
    their setter has run. *)
Record UserConfiguration : Type := MkUserConfiguration {
  experiment_dir : string;
  _sources_dir : option string;
  _plates_dir : option string;
  _layers_dir : option string;
  _plate_format : option value;
  _workflow : option WorkflowDescription
}.

(** A value of [cfg_settings]: a plain value or a mapping that describes a
    workflow. *)
Inductive setting : Type :=
| Plain (v : value)
| Mapping (w : workflow_kwargs).

(** The setters of the three directories: a string or [None]. *)
Definition as_dir (v : setting) : result (option string) :=
  match v with
  | Plain (VStr s) => Ok (Some s)
  | Plain VNone => Ok None
  | _ => Raise TypeError
  end.

(** The setter of [plate_format].  For an integer that is not supported,
    the [raise] joins the integers of the set as if they were strings,
    which is a [TypeError] too. *)
Definition as_plate_format (v : setting) : result value :=
  match v with
  | Plain (VInt z) =>
      if bool_decide (z ∈ SUPPORTED_PLATE_FORMATS) then Ok (VInt z)
      else Raise TypeError
  | Plain (VBool b) =>
      if bool_decide (Z.b2z b ∈ SUPPORTED_PLATE_FORMATS) then Ok (VBool b)
      else Raise TypeError
  | _ => Raise TypeError
  end.

(** The body of the loop of [__init__] for a whitelisted key:
    [setattr(self, k, v)] after a workflow has been built from its
    mapping. *)
Definition setattr (self : UserConfiguration) (k : string) (v : setting)
  : result UserConfiguration :=
  if String.eqb k "workflow" then
    match v with
    | Mapping w =>
        do wd <- WorkflowDescription_init w;
        Ok (MkUserConfiguration (experiment_dir self) (_sources_dir self)
              (_plates_dir self) (_layers_dir self) (_plate_format self)
              (Some wd))
    | Plain _ => Raise TypeError
    end
  else if String.eqb k "sources_dir" then
    do d <- as_dir v;
    Ok (MkUserConfiguration (experiment_dir self) d
          (_plates_dir self) (_layers_dir self) (_plate_format self)
          (_workflow self))
  else if String.eqb k "plates_dir" then
    do d <- as_dir v;
    Ok (MkUserConfiguration (experiment_dir self) (_sources_dir self)
          d (_layers_dir self) (_plate_format self) (_workflow self))
  else if String.eqb k "layers_dir" then
    do d <- as_dir v;
    Ok (MkUserConfiguration (experiment_dir self) (_sources_dir self)
          (_plates_dir self) d (_plate_format self) (_workflow self))
  else if String.eqb k "plate_format" then
    do pf <- as_plate_format v;
    Ok (MkUserConfiguration (experiment_dir self) (_sources_dir self)
          (_plates_dir self) (_layers_dir self) (Some pf) (_workflow self))
  else Ok self.

(** [for k, v in cfg_settings.iteritems()] *)
Fixpoint init_loop (self : UserConfiguration)
    (cfg_settings : list (string * setting)) : result UserConfiguration :=
  match cfg_settings with
  | [] => Ok self
  | (k, v) :: rest =>
      if bool_decide (k ∈ _PERSISTENT_ATTRS)
      then do self' <- setattr self k v; init_loop self' rest
      else init_loop self rest
  end.

(** [UserConfiguration.__init__(experiment_dir, cfg_settings)]; the items
    of the dictionary come in the order of its iteration. *)
Definition __init__ (dir : string) (cfg_settings : list (string * setting))
  : result UserConfiguration :=
  if negb (path_exists dir) then Raise OSError
  else init_loop (MkUserConfiguration dir None None None None None)
                 cfg_settings.

(** A value yielded by the iteration. *)
Inductive item : Type :=
| ItemStr (s : string)
| ItemValue (v : value)
| ItemWorkflow (d : list stage_dict).

(** [getattr(self, attr)] for the five properties: the getter of a
    directory stores the default on first use, the getters of
    [plate_format] and [workflow] read an attribute that may not exist. *)
Definition getattr (self : UserConfiguration) (attr : string)
  : UserConfiguration * result item :=
  if String.eqb attr "sources_dir" then
    let d := default (os_path_join (experiment_dir self) "sources")
                     (_sources_dir self) in
    (MkUserConfiguration (experiment_dir self) (Some d) (_plates_dir self)
       (_layers_dir self) (_plate_format self) (_workflow self),
     Ok (ItemStr d))
  else if String.eqb attr "plates_dir" then
    let d := default (os_path_join (experiment_dir self) "plates")
                     (_plates_dir self) in
    (MkUserConfiguration (experiment_dir self) (_sources_dir self) (Some d)
       (_layers_dir self) (_plate_format self) (_workflow self),
     Ok (ItemStr d))
  else if String.eqb attr "layers_dir" then
    let d := default (os_path_join (experiment_dir self) "layers")
                     (_layers_dir self) in
    (MkUserConfiguration (experiment_dir self) (_sources_dir self)
       (_plates_dir self) (Some d) (_plate_format self) (_workflow self),
     Ok (ItemStr d))
  else if String.eqb attr "plate_format" then
    (self,
     match _plate_format self with
     | Some pf => Ok (ItemValue pf)
     | None => Raise AttributeError
     end)
  else if String.eqb attr "workflow" then
    (self,
     match _workflow self with
     | Some wd => Ok (ItemWorkflow (WorkflowDescription_dict wd))
     | None => Raise AttributeError
     end)
  else (self, Raise AttributeError).

(** The names of [dir(self)] that the class and the object define, in
    the sorted order of [dir]; the names inherited from [object] are left
    out, none of them is whitelisted. *)
Definition dir (self : UserConfiguration) : list string :=
  ["_PERSISTENT_ATTRS"; "__init__"; "__iter__"; "_layers_dir"]
  ++ match _plate_format self with Some _ => ["_plate_format"] | None => [] end
  ++ ["_plates_dir"; "_sources_dir"]
  ++ match _workflow self with Some _ => ["_workflow"] | None => [] end
  ++ ["experiment_dir"; "layers_dir"; "plate_format"; "plates_dir";
      "sources_dir"; "workflow"].

(** The loop of [__iter__] over the names [attrs]: the object afterwards,
    the pairs yielded and the exception that ended the iteration, if any.
    [hasattr] runs the getter and is [False] when it raises. *)
Fixpoint iter_loop (attrs : list string) (self : UserConfiguration)
  : UserConfiguration * list (string * item) * option exn :=
  match attrs with
  | [] => (self, [], None)
  | attr :: rest =>
      if bool_decide (attr ∈ _PERSISTENT_ATTRS) then
        let '(self1, has) := getattr self attr in
        match has with
        | Raise _ => (self1, [], Some AttributeError)
        | Ok _ =>
            let '(self2, got) := getattr self1 attr in
            match got with
            | Raise e => (self2, [], Some e)
            | Ok v =>
                let '(self3, items, e) := iter_loop rest self2 in
                (self3, (attr, v) :: items, e)
            end
        end
      else iter_loop rest self
  end.

(** [UserConfiguration.__iter__] *)
Definition __iter__ (self : UserConfiguration)
  : UserConfiguration * list (string * item) * option exn :=
  iter_loop (dir self) self.

(** The pairs that the iteration yields when the claim holds: the five
    whitelisted keys with the current values, a directory that is not set
    being defaulted. *)
Definition whitelisted_items (self : UserConfiguration) (pf : value)
    (wd : WorkflowDescription) : list (string * item) :=
  [("layers_dir",
    ItemStr (default (os_path_join (experiment_dir self) "layers")
                     (_layers_dir self)));
   ("plate_format", ItemValue pf);
   ("plates_dir",
    ItemStr (default (os_path_join (experiment_dir self) "plates")
                     (_plates_dir self)));
   ("sources_dir",
    ItemStr (default (os_path_join (experiment_dir self) "sources")
                     (_sources_dir self)));
   ("workflow", ItemWorkflow (WorkflowDescription_dict wd))].

(** The claim on one object: the iteration ends without an exception and
    the keys it has yielded are the whitelisted keys. *)
Definition yields_whitelist (self : UserConfiguration) : Prop :=
  snd (__iter__ self) = None
  /\ (fst <$> snd (fst (__iter__ self))) ≡ₚ _PERSISTENT_ATTRS.

(** The keys of the settings. *)
Definition supplied (k : string) (cfg_settings : list (string * setting))
  : Prop :=
  k ∈ fst <$> cfg_settings.

(** The setting has a whitelisted key. *)
Definition whitelisted (kv : string * setting) : Prop :=
  kv.1 ∈ _PERSISTENT_ATTRS.

#[global] Instance whitelisted_dec (kv : string * setting)
  : Decision (whitelisted kv).
Proof. unfold whitelisted. apply _. Defined.

End UserConfiguration.

End Cfg.

(** ** tmlib/workflow/imextract/api.py *)

Module ImExtract.

(** A row of [tm.ImageFileMapping]: its [id], its [site_id], the names
    [map['files']] and [acquisition.microscope_images_location]. *)
Record ImageFileMapping : Type := MkMapping {
  id : Z;
  site_id : Z;
  map_files : list string;
  microscope_images_location : string
}.

(** The step arguments that [create_batches] reads. *)
Record ImextractArgs : Type := MkArgs {
  batch_size : Z;
  mip : bool;
  delete : bool
}.

(** The sites of the table, once each. *)
Definition sites (tbl : list ImageFileMapping) : list Z :=
  remove_dups (site_id <$> tbl).

(** [array_agg(ImageFileMapping.id)] for one site. *)
Definition ids_of_site (tbl : list ImageFileMapping) (s : Z) : list Z :=
  id <$> filter (fun m => site_id m = s) tbl.

(** The query grouped by [site_id]: one row [(site_id, ids)] per site.
    The dictionary built from the rows has one entry per row, and its
    [values()] are taken in the order of the rows. *)
Definition file_mappings_per_site (tbl : list ImageFileMapping)
  : list (Z * list Z) :=
  (fun s => (s, ids_of_site tbl s)) <$> sites tbl.

(** Modelled from the spec: [ClusterRoutines._create_batches(li, n)] of
    [tmlib/workflow/api.py], which is not among the sources; the list is
    chunked, in order, into batches no larger than [n].  The spec gives no
    meaning to [n < 1]. *)
Fixpoint chunk {A} (fuel n : nat) (li : list A) : list (list A) :=
  match fuel with
  | O => []
  | S fuel' =>
      match li with
      | [] => []
      | _ => take n li :: chunk fuel' n (drop n li)
      end
  end.

Definition _create_batches {A} (li : list A) (n : Z) : list (list A) :=
  chunk (length li) (Z.to_nat n) li.

(** An element of [np.array(batch).flat]: a number when the array is
    numeric, a list when numpy has built an array of objects. *)
Inductive cell : Type :=
| Scalar (i : Z)
| Nested (l : list Z).

#[global] Instance cell_eq_dec : EqDecision cell.
Proof. solve_decision. Defined.

(** The rows of [batch] have the same length. *)
Definition rectangular (batch : list (list Z)) : bool :=
  match batch with
  | [] => true
  | r :: _ => forallb (fun r' => (length r' =? length r)%nat) batch
  end.

(** [list(np.array(batch).flat)]: rows of one length make a
    two-dimensional array of numbers, which is flattened row by row;
    rows of different lengths make a one-dimensional array whose elements
    are the rows. *)
Definition np_array_flat (batch : list (list Z)) : list cell :=
  if rectangular batch then Scalar <$> concat batch
  else Nested <$> batch.

(** An entry of [job_descriptions['run']]. *)
Record run_description : Type := MkRun {
  run_id : Z;
  microscope_image_files : list (list string);
  image_file_mapping_ids : list cell;
  run_mip : bool
}.

Record job_descriptions : Type := MkJobs {
  run : list run_description;
  collect_delete : bool
}.

(** The second query: the mappings whose [id] is in [ids], ordered by
    [id].  An element of [ids] that is not a number equals no [id]. *)
Definition by_id (a b : ImageFileMapping) : Prop := id a <= id b.

#[global] Instance by_id_dec (a b : ImageFileMapping) : Decision (by_id a b).
Proof. unfold by_id. apply _. Defined.

Definition query_mappings (tbl : list ImageFileMapping) (ids : list cell)
  : list ImageFileMapping :=
  merge_sort by_id (filter (fun m => Scalar (id m) ∈ ids) tbl).

(** The body of the loop [for batch in batches] for the batch of index
    [i]. *)
Definition run_of_batch (tbl : list ImageFileMapping) (args : ImextractArgs)
    (i : nat) (batch : list (list Z)) : run_description :=
  let ids := np_array_flat batch in
  let fmappings := query_mappings tbl ids in
  {| run_id := Z.of_nat i + 1;
     microscope_image_files :=
       (fun fmap =>
          (fun f => os_path_join (microscope_images_location fmap) f)
            <$> map_files fmap) <$> fmappings;
     image_file_mapping_ids := ids;
     run_mip := mip args |}.

(** [ImageExtractor.create_batches(args)] on the table of the
    experiment. *)
Definition create_batches (tbl : list ImageFileMapping) (args : ImextractArgs)
  : job_descriptions :=
  let values := snd <$> file_mappings_per_site tbl in
  let batches := _create_batches values (batch_size args) in
  {| run := imap (run_of_batch tbl args) batches;
     collect_delete := delete args |}.

(** The mapping records of the table that a job names. *)
Definition job_mappings (tbl : list ImageFileMapping) (job : run_description)
  : list ImageFileMapping :=
  filter (fun m => Scalar (id m) ∈ image_file_mapping_ids job) tbl.

(** Every batch is rectangular: the sites of a batch have equally many
    mappings. *)
Definition rectangular_batches (tbl : list ImageFileMapping) (n : Z) : bool :=
  forallb rectangular
    (_create_batches (snd <$> file_mappings_per_site tbl) n).

(** The mapping [m] appears in exactly one job of [jobs]. *)
Definition in_exactly_one_job (jobs : list run_description)
    (m : ImageFileMapping) : Prop :=
  exists j job,
    jobs !! j = Some job
    /\ Scalar (id m) ∈ image_file_mapping_ids job
    /\ forall j' job',
         jobs !! j' = Some job' ->
         Scalar (id m) ∈ image_file_mapping_ids job' -> j' = j.

(** The claim as it is stated: every mapping in exactly one job, no job
    with mappings of two sites, no job with more than [batch_size]
    mappings. *)
Definition one_site_per_job (tbl : list ImageFileMapping)
    (args : ImextractArgs) : Prop :=
  let jobs := run (create_batches tbl args) in
  (forall m, m ∈ tbl -> in_exactly_one_job jobs m)
  /\ (forall job m m',
        job ∈ jobs -> m ∈ job_mappings tbl job -> m' ∈ job_mappings tbl job ->
        site_id m = site_id m')
  /\ (forall job,
        job ∈ jobs ->
        Z.of_nat (length (image_file_mapping_ids job)) <= batch_size args).

(** Two sites of two mappings each. *)
Definition two_sites : list ImageFileMapping :=
  [MkMapping 1 10 ["a.tif"] "/raw"; MkMapping 2 10 ["b.tif"] "/raw";
   MkMapping 3 20 ["c.tif"] "/raw"; MkMapping 4 20 ["d.tif"] "/raw"].

End ImExtract.

(** ** src/tmlib/engine.py: scheduling of the main loop *)

Module EngineControl.
Import Engine.

Section Control.

Variable EngineState : Type.
Variable Value : Type.

(** The scheduler of APScheduler and its three calls; each may raise. *)
Variable Scheduler : Type.
Variable scheduler_add_job : Z -> Scheduler -> Scheduler * option exn.
Variable scheduler_start : Scheduler -> Scheduler * option exn.
Variable scheduler_shutdown : bool -> Scheduler -> Scheduler * option exn.

(** [Engine.progress()] *)
Variable engine_progress : EngineState -> EngineState * option exn.

(** A [BgEngine] with its scheduler and the attribute [running], which
    [__init__] does not create. *)
Record Controlled : Type := MkControlled {
  bg : BgEngine EngineState Value;
  running : option bool;
  _scheduler : Scheduler
}.

(** The attributes after [BgEngine.__init__]. *)
Definition fresh (engine : EngineState) (sched : Scheduler) : Controlled :=
  MkControlled (init Value engine) None sched.

(** [start(interval)] *)
Definition start (interval : Z) (self : Controlled) : Controlled * option exn :=
  let '(s1, raised) := scheduler_add_job interval (_scheduler self) in
  match raised with
  | Some e => (MkControlled (bg self) (Some true) s1, Some e)
  | None =>
      let '(s2, raised') := scheduler_start s1 in
      (MkControlled (bg self) (Some true) s2, raised')
  end.

(** [stop(wait=False)] *)
Definition stop (wait : option bool) (self : Controlled)
  : Controlled * option exn :=
  let '(s1, raised) := scheduler_shutdown (default false wait) (_scheduler self) in
  (MkControlled (bg self) (Some false) s1, raised).

(** [progress()], the proxy of [Engine.progress]: an exception of the
    wrapped engine reaches the caller. *)
Definition progress (self : Controlled) : Controlled * option exn :=
  match running self with
  | None => (self, Some AttributeError)
  | Some true => (self, None)
  | Some false =>
      let '(e, raised) := engine_progress (_engine (bg self)) in
      (MkControlled
         (MkBgEngine (_q (bg self)) e (_progress_last_run (bg self))
            (_cache_last_updated (bg self)) (_cache_value (bg self)))
         (running self) (_scheduler self),
       raised)
  end.

(** A call of [start] or [stop]. *)
Inductive control : Type :=
| Start (interval : Z)
| Stop (wait : option bool).

(** The object after a series of calls, whatever they raised. *)
Definition apply_control (self : Controlled) (c : control) : Controlled :=
  match c with
  | Start interval => fst (start interval self)
  | Stop wait => fst (stop wait self)
  end.

End Control.

Arguments MkControlled {EngineState Value Scheduler}.
Arguments bg {EngineState Value Scheduler}.
Arguments running {EngineState Value Scheduler}.
Arguments _scheduler {EngineState Value Scheduler}.
Arguments fresh {EngineState} Value {Scheduler}.
Arguments start {EngineState Value Scheduler}.
Arguments stop {EngineState Value Scheduler}.
Arguments progress {EngineState Value Scheduler}.
Arguments apply_control {EngineState Value Scheduler}.

End EngineControl.

(** ** tmlib/workflow/description.py: series of stages, steps of a stage *)

Module DescriptionSteps.
Import Description.

(** A loop that feeds the items [l] one by one to a call that returns the
    changed object or raises. *)
Fixpoint feed {S A} (call : S -> A -> result S) (self : S) (l : list A)
  : result S :=
  match l with
  | [] => Ok self
  | a :: rest => do self' <- call self a; feed call self' rest
  end.

(** The loop [for stage in stages: self.add_stage(...)] of
    [WorkflowDescription.__init__] on stage descriptions that have been
    built. *)
Definition add_stages (self : WorkflowDescription)
    (l : list WorkflowStageDescription) : result WorkflowDescription :=
  feed (fun w sd => add_stage w (StageArg sd)) self l.

(** The argument of [add_step]: a step description or any other object. *)
Inductive step_argument : Type :=
| StepArg (s : WorkflowStepDescription)
| OtherStepArg (v : value).

(** [for dep in INTRA_STAGE_DEPENDENCIES[name]]: every dependency must be
    among the steps that are already there. *)
Fixpoint require_upstream (step_names : list string) (deps : list string)
  : result unit :=
  match deps with
  | [] => Ok tt
  | dep :: rest =>
      if bool_decide (dep ∈ step_names)
      then require_upstream step_names rest
      else Raise WorkflowDescriptionError
  end.

(** [WorkflowStageDescription.add_step(step_description)]; [deps] is
    [self.dependencies]. *)
Definition add_step (deps : WorkflowDependencies)
    (self : WorkflowStageDescription) (a : step_argument)
  : result WorkflowStageDescription :=
  match a with
  | OtherStepArg _ => Raise TypeError
  | StepArg step_description =>
      if existsb (fun step => String.eqb (step_name step)
                                (step_name step_description))
                 (steps self)
      then Raise WorkflowDescriptionError
      else
        do declared <- getitem (STEPS_PER_STAGE deps) (name self);
        if negb (bool_decide (step_name step_description ∈ declared))
        then Raise WorkflowDescriptionError
        else
          let step_names := step_name <$> steps self in
          do _ <- match INTRA_STAGE_DEPENDENCIES deps
                        !! step_name step_description with
                  | Some ds => require_upstream step_names ds
                  | None => Ok tt
                  end;
          Ok {| name := name self;
                mode := mode self;
                active := active self;
                steps := steps self ++ [step_description] |}
  end.

(** The loop [for step in steps: self.add_step(...)] of
    [WorkflowStageDescription.__init__] on step descriptions that have
    been built. *)
Definition add_steps (deps : WorkflowDependencies)
    (self : WorkflowStageDescription) (l : list WorkflowStepDescription)
  : result WorkflowStageDescription :=
  feed (fun st sd => add_step deps st (StepArg sd)) self l.

(** What [add_stage] has checked of the stage [sd] that it appends to the
    stages [pre]. *)
Definition stage_admitted (deps : WorkflowDependencies)
    (pre : list WorkflowStageDescription) (sd : WorkflowStageDescription)
  : Prop :=
  (name sd ∉ name <$> pre)
  /\ name sd ∈ STAGES deps
  /\ (exists implemented,
        STEPS_PER_STAGE deps !! name sd = Some implemented
        /\ forall st, st ∈ steps sd -> step_name st ∈ implemented)
  /\ (forall ds d,
        INTER_STAGE_DEPENDENCIES deps !! name sd = Some ds ->
        d ∈ ds -> d ∈ name <$> pre)
  /\ (forall n, n ∈ name <$> pre ->
        exists ds, INTER_STAGE_DEPENDENCIES deps !! n = Some ds
                   /\ name sd ∉ ds).

(** What [add_step] has checked of the step [sd] that it appends to the
    steps [pre] of the stage named [stage]. *)
Definition step_admitted (deps : WorkflowDependencies) (stage : string)
    (pre : list WorkflowStepDescription) (sd : WorkflowStepDescription)
  : Prop :=
  (step_name sd ∉ step_name <$> pre)
  /\ (exists declared,
        STEPS_PER_STAGE deps !! stage = Some declared
        /\ step_name sd ∈ declared)
  /\ (forall ds d,
        INTRA_STAGE_DEPENDENCIES deps !! step_name sd = Some ds ->
        d ∈ ds -> d ∈ step_name <$> pre).

(** A dependency declaration of one stage with three steps, in which
    "metaconfig" requires "metaextract" and "imextract" requires
    "metaconfig", and the three steps in that order. *)
Definition conversion : WorkflowDependencies :=
  {| STAGES := ["image_conversion"];
     STAGE_MODES := {[ "image_conversion" := "sequential" ]};
     STEPS_PER_STAGE :=
       {[ "image_conversion" := ["metaextract"; "metaconfig"; "imextract"] ]};
     INTER_STAGE_DEPENDENCIES := {[ "image_conversion" := [] ]};
     INTRA_STAGE_DEPENDENCIES :=
       {[ "metaconfig" := ["metaextract"]; "imextract" := ["metaconfig"] ]} |}.

Definition conversion_steps : list WorkflowStepDescription :=
  [MkStep "metaextract" true; MkStep "metaconfig" true;
   MkStep "imextract" false].

End DescriptionSteps.

(** ** tmlib/logging_utils.py: the second table, handlers and filters *)

Module LoggingHandlers.
Import LoggingUtils.

Definition ERROR : Z := 40.
Definition CRITICAL : Z := 50.

Definition LEVELS_TO_VERBOSITY : gmap Z Z :=
  <[WARN := 0]> (<[ERROR := 0]> (<[CRITICAL := 0]>
    (<[INFO := 1]> (<[DEBUG := 2]> (<[NOTSET := 3]> ∅))))).

(** What the filters and handlers read of a [logging.LogRecord]. *)
Record LogRecord : Type := MkRecord {
  levelno : Z;
  record_name : string
}.

(** [logging.Filter(name).filter(record)] of the standard library: an
    empty name lets every record pass; otherwise the record's logger must
    be [name] or one of its dotted descendants. *)
Definition Filter_filter (name : string) (record : LogRecord) : bool :=
  let nlen := String.length name in
  if Nat.eqb nlen 0 then true
  else if String.eqb name (record_name record) then true
  else if negb (String.prefix name (record_name record)) then false
  else match String.get nlen (record_name record) with
       | Some c => Ascii.eqb c "."%char
       | None => false
       end.

(** The filters of the module. *)
Inductive filter : Type :=
| InfoFilter
| Whitelist (whitelist : list string).

(** [InfoFilter.filter(rec)] and [Whitelist.filter(record)]; the latter is
    [any([f.filter(record) for f in self.whitelist])]. *)
Definition filter_filter (f : filter) (rec : LogRecord) : bool :=
  match f with
  | InfoFilter =>
      bool_decide (levelno rec ∈ [DEBUG; INFO])
  | Whitelist whitelist =>
      existsb (fun name => Filter_filter name rec) whitelist
  end.

Inductive stream : Type := Stdout | Stderr.

(** A [logging.StreamHandler] with the attributes that [configure_logging]
    sets. *)
Record StreamHandler : Type := MkHandler {
  handler_name : string;
  handler_stream : stream;
  handler_level : Z;
  handler_filters : list filter
}.

(** The handlers of the root logger. *)
Abbreviation root_logger := (list StreamHandler).

(** [configure_logging()]: both handlers are appended to the handlers that
    the root logger has. *)
Definition configure_logging (logger : root_logger) : root_logger :=
  let stderr_handler := MkHandler "err" Stderr WARN [] in
  let logger := logger ++ [stderr_handler] in
  let stdout_handler := MkHandler "out" Stdout 0 [InfoFilter] in
  logger ++ [stdout_handler].

(** [Logger.callHandlers(record)] of the standard library: a handler is
    called when the record's level is not below the handler's, and emits
    when all its filters let the record pass.  The result lists the
    streams written to, one entry per line written. *)
Definition callHandlers (logger : root_logger) (record : LogRecord)
  : list stream :=
  handler_stream <$>
    List.filter (fun hdlr =>
                   (levelno record >=? handler_level hdlr)
                   && forallb (fun f => filter_filter f record)
                              (handler_filters hdlr))
                logger.

(** Where one call of [configure_logging] sends a record. *)
Definition route (record : LogRecord) : list stream :=
  if levelno record >=? WARN then [Stderr]
  else if bool_decide (levelno record ∈ [DEBUG; INFO]) then [Stdout]
  else [].

End LoggingHandlers.

(** ** tmlib/workflow/corilla/api.py *)

Module Corilla.

(** What [create_batches] reads of a [tm.ChannelImageFile], a [tm.Cycle]
    and a [tm.Channel]. *)
Record ChannelImageFile : Type := MkFile {
  file_id : Z;
  location : string;
  file_channel_id : Z
}.

Record Cycle : Type := MkCycle {
  cycle_id : Z;
  channel_image_files : list ChannelImageFile
}.

Record Channel : Type := MkChannel {
  channel_id : Z
}.

(** An entry of [job_descriptions['run']]. *)
Record run_description : Type := MkRun {
  id : Z;
  inputs_channel_image_files : list string;
  channel_image_files_ids : list Z;
  run_channel_id : Z;
  run_cycle_id : Z
}.

(** [[f for f in cycle.channel_image_files if f.channel_id == channel.id]] *)
Definition files_of (cycle : Cycle) (channel : Channel)
  : list ChannelImageFile :=
  filter (fun f => file_channel_id f = channel_id channel)
         (channel_image_files cycle).

(** The body of the inner loop on the counter and the jobs so far. *)
Definition visit (cycle : Cycle) (st : Z * list run_description)
    (channel : Channel) : Z * list run_description :=
  let '(count, run) := st in
  let files := files_of cycle channel in
  match files with
  | [] => (count, run)
  | _ =>
      let count := count + 1 in
      (count,
       run ++ [{| id := count;
                  inputs_channel_image_files := location <$> files;
                  channel_image_files_ids := file_id <$> files;
                  run_channel_id := channel_id channel;
                  run_cycle_id := cycle_id cycle |}])
  end.

(** [IllumstatsCalculator.create_batches(args)] on the cycles and the
    channels that the two queries return; the result is
    [job_descriptions['run']]. *)
Definition create_batches (cycles : list Cycle) (channels : list Channel)
  : list run_description :=
  snd (foldl (fun st cycle => foldl (visit cycle) st channels) (0, []) cycles).

(** The pairs of the two loops, in the order in which they are visited. *)
Definition visits (cycles : list Cycle) (channels : list Channel)
  : list (Cycle * Channel) :=
  cycle ← cycles; (fun channel => (cycle, channel)) <$> channels.

(** The job with the number [count] for a cycle and a channel. *)
Definition job_of (count : Z) (p : Cycle * Channel) : run_description :=
  {| id := count;
     inputs_channel_image_files := location <$> files_of p.1 p.2;
     channel_image_files_ids := file_id <$> files_of p.1 p.2;
     run_channel_id := channel_id p.2;
     run_cycle_id := cycle_id p.1 |}.

(** The cycle has files of the channel. *)
Definition with_files (p : Cycle * Channel) : Prop := files_of p.1 p.2 <> [].

(** One cycle with a file of channel 5 and a file of channel 6. *)
Definition one_cycle : list Cycle :=
  [MkCycle 1 [MkFile 10 "a.h5" 5; MkFile 11 "b.h5" 6]].

End Corilla.

(** ** Arrays of numpy, as far as the sources below use them *)

Module Numpy.

(** The exceptions of the embedded calls and [IndexError], which indexing
    raises. *)
Inductive raised : Type :=
| IndexError
| Exn (e : exn).

Inductive outcome (A : Type) : Type :=
| Return (a : A)
| Raised (e : raised).

Arguments Return {A} a.
Arguments Raised {A} e.

Definition and_then {A B} (c : outcome A) (f : A -> outcome B) : outcome B :=
  match c with
  | Return a => f a
  | Raised e => Raised e
  end.

(** A two-dimensional array of integers: its rows, which have one length. *)
Abbreviation ndarray := (list (list Z)).

Definition rectangular (width : nat) (im : ndarray) : Prop :=
  Forall (fun row => length row = width) im.

(** [im[0, :]] and [im[-1, :]] *)
Definition first_row (im : ndarray) : outcome (list Z) :=
  match im with
  | [] => Raised IndexError
  | row :: _ => Return row
  end.

Definition last_row (im : ndarray) : outcome (list Z) :=
  match last im with
  | None => Raised IndexError
  | Some row => Return row
  end.

(** [im[:, 0]] and [im[:, -1]]: an array without columns has no column 0
    and no last column. *)
Definition first_col (im : ndarray) : outcome (list Z) :=
  match mapM head im with
  | None => Raised IndexError
  | Some col => Return col
  end.

Definition last_col (im : ndarray) : outcome (list Z) :=
  match mapM last im with
  | None => Raised IndexError
  | Some col => Return col
  end.

(** [np.unique(a)]: the distinct values of [a] in ascending order. *)
Definition unique (a : list Z) : list Z := merge_sort Z.le (remove_dups a).

(** [im[im != 0]]: the non-zero entries, row by row. *)
Definition nonzero_entries (im : ndarray) : list Z :=
  filter (fun v => v <> 0) (concat im).

End Numpy.

Notation "'let*' x := c1 'in' c2" := (Numpy.and_then c1 (fun x => c2))
  (at level 60, x name, c1 at next level, right associativity).

(** ** tmt/imageutil.py: objects at the border of a site *)

Module BorderObjects.
Import Numpy.

(** [find_border_objects(im)] *)
Definition find_border_objects (im : ndarray) : outcome (list Z) :=
  let* e1 := first_row im in
  let* e2 := last_row im in
  let* e3 := first_col im in
  let* e4 := last_col im in
  let edges := [unique e1; unique e2; unique e3; unique e4] in
  let border_ids : gset Z :=
    foldr (fun e acc => list_to_set e ∪ acc) ∅ edges ∖ {[0]} in
  let object_ids := unique (nonzero_entries im) in
  Return ((fun o => if decide (o ∈ border_ids) then 1 else 0) <$> object_ids).

(** The label [o] occurs in the first or last row or column of [im]. *)
Definition on_border (im : ndarray) (o : Z) : Prop :=
  exists i j row,
    im !! i = Some row /\ row !! j = Some o
    /\ (i = 0%nat \/ S i = length im \/ j = 0%nat \/ S j = length row).

(** The label [o] occurs in [im]. *)
Definition occurs (im : ndarray) (o : Z) : Prop :=
  exists row, row ∈ im /\ o ∈ row.

End BorderObjects.

(** ** src/tmlib/models/plate.py: the grid of wells *)

Module PlateGrid.
Import Numpy.

(** The dictionary of [determine_plate_dimensions]. *)
Definition plate_dimensions : gmap Z (nat * nat) :=
  {[ 1 := (1, 1)%nat; 96 := (8, 12)%nat; 384 := (16, 24)%nat ]}.

(** [determine_plate_dimensions(n_wells)] *)
Definition determine_plate_dimensions (n_wells : Z) : outcome (nat * nat) :=
  match plate_dimensions !! n_wells with
  | Some dimensions => Return dimensions
  | None => Raised (Exn KeyError)
  end.

(** What the plate reads of a [Well]: its [id], its [coordinate] and its
    [image_size].  The ids are database integers, which fit the integer
    type of the grid. *)
Record Well : Type := MkWell {
  well_id : Z;
  coordinate : Z * Z;
  well_image_size : Z * Z
}.

(** A plate: [experiment.plate_format], [experiment.well_spacer_size] and
    the wells. *)
Record Plate : Type := MkPlate {
  plate_format : Z;
  well_spacer_size : Z;
  wells : list Well
}.

(** Property [n_wells] and property [dimensions]. *)
Definition n_wells (self : Plate) : Z := plate_format self.

Definition dimensions (self : Plate) : outcome (nat * nat) :=
  determine_plate_dimensions (n_wells self).

(** An index into an axis of [size] entries: a negative index counts from
    the end, an index outside [-size, size) raises [IndexError]. *)
Definition index (size : nat) (i : Z) : outcome nat :=
  if (0 <=? i) && (i <? Z.of_nat size) then Return (Z.to_nat i)
  else if (- Z.of_nat size <=? i) && (i <? 0)
       then Return (Z.to_nat (i + Z.of_nat size))
       else Raised IndexError.

(** [np.zeros((height, width), dtype=int)] *)
Definition zeros (height width : nat) : ndarray :=
  replicate height (replicate width 0).

(** [grid[c[0], c[1]] = v] on a grid of the given shape. *)
Definition setitem (height width : nat) (grid : ndarray) (c : Z * Z) (v : Z)
  : outcome ndarray :=
  let* i := index height c.1 in
  let* j := index width c.2 in
  Return (alter (<[j := v]>) i grid).

(** [for i, c in enumerate(cooridinates): grid[c[0], c[1]] = self.wells[i].id] *)
Fixpoint fill (height width : nat) (grid : ndarray) (ws : list Well)
  : outcome ndarray :=
  match ws with
  | [] => Return grid
  | well :: rest =>
      let* grid' := setitem height width grid (coordinate well) (well_id well) in
      fill height width grid' rest
  end.

(** Property [well_grid]. *)
Definition well_grid (self : Plate) : outcome ndarray :=
  let* d := dimensions self in
  fill d.1 d.2 (zeros d.1 d.2) (wells self).

(** The positions of the zeros of a row, and [np.where(np.logical_not(grid))]
    as the list of its coordinate pairs: the positions of the zeros of
    the grid, row by row. *)
Definition zero_positions (row : list Z) : list nat :=
  fst <$> filter (fun p => p.2 = 0) (imap pair row).

Definition where_not (grid : ndarray) : list (nat * nat) :=
  concat (imap (fun i row => pair i <$> zero_positions row) grid).

(** Property [empty_wells_coordinates]. *)
Definition empty_wells_coordinates (self : Plate) : outcome (list (nat * nat)) :=
  let* grid := well_grid self in
  Return (where_not grid).

(** [any(a)] on a one-dimensional array, [grid[:, i]] and [grid[i, :]]. *)
Definition any (a : list Z) : bool := existsb (fun v => negb (v =? 0)) a.

Definition column (grid : ndarray) (i : nat) : list Z :=
  omap (fun row => row !! i) grid.

Definition row (grid : ndarray) (i : nat) : list Z := default [] (grid !! i).

(** [grid.shape] of a grid with at least one row; the grids of a plate
    have one. *)
Definition shape (grid : ndarray) : nat * nat :=
  (length grid, length (row grid 0)).

(** Properties [nonempty_columns] and [nonempty_rows]. *)
Definition nonempty_columns (self : Plate) : outcome (list nat) :=
  let* grid := well_grid self in
  Return (filter (fun i => any (column grid i) = true) (seq 0 (shape grid).2)).

Definition nonempty_rows (self : Plate) : outcome (list nat) :=
  let* grid := well_grid self in
  Return (filter (fun i => any (row grid i) = true) (seq 0 (shape grid).1)).

(** Property [image_size]; [self.wells[0]] needs a well. *)
Definition image_size (self : Plate) : outcome (Z * Z) :=
  let offset := well_spacer_size self in
  match wells self with
  | [] => Raised IndexError
  | well0 :: _ =>
      let well_size := well_image_size well0 in
      let* nonempty_rows := nonempty_rows self in
      let rows := Z.of_nat (length nonempty_rows) in
      let* nonempty_columns := nonempty_columns self in
      let cols := Z.of_nat (length nonempty_columns) in
      Return (rows * well_size.1 + offset * (rows - 1),
              cols * well_size.2 + offset * (cols - 1))
  end.

(** The cell of a grid at a position. *)
Definition cell (grid : ndarray) (p : nat * nat) : option Z :=
  grid !! p.1 ≫= fun row => row !! p.2.

(** The position that a coordinate denotes on a grid of the given shape. *)
Definition position (height width : nat) (c : Z * Z) : option (nat * nat) :=
  match index height c.1, index width c.2 with
  | Return i, Return j => Some (i, j)
  | _, _ => None
  end.

(** The id that the last well at position [p] has, if there is a well. *)
Definition written (height width : nat) (ws : list Well) (p : nat * nat)
  : option Z :=
  well_id <$>
    last (filter (fun well => position height width (coordinate well) = Some p)
                 ws).

(** The wells lie on the grid at distinct positions and have an id other
    than zero. *)
Definition placed (height width : nat) (ws : list Well) : Prop :=
  NoDup ((fun well => position height width (coordinate well)) <$> ws)
  /\ Forall (fun well => is_Some (position height width (coordinate well))
                         /\ well_id well <> 0) ws.

(** The grid has [height] rows of [width] cells. *)
Definition has_shape (height width : nat) (grid : ndarray) : Prop :=
  length grid = height /\ Forall (fun row => length row = width) grid.

(** A plate of 96 wells of which two were imaged; the coordinate of the
    second counts its row from the end. *)
Definition two_wells : Plate :=
  MkPlate 96 5 [MkWell 7 (0, 0) (10, 20); MkWell 8 (-1, 3) (10, 20)].

End PlateGrid.

(** ** src/tmlib/cfg.py: the verbosity of the legacy workflow description *)

Module CfgVerbosity.
Import LoggingUtils.

(** The setter of [WorkflowDescription.verbosity]: the value stored and
    whether [logging.warning] was called.  The table whose length it
    reads is [VERBOSITY_TO_LEVELS] of tmlib/logging_utils.py. *)
Definition verbosity_setter (value : value) : result (Py.value * bool) :=
  match value with
  | VInt _ | VBool _ =>
      let v := match value with
               | VInt z => z
               | VBool b => Z.b2z b
               | _ => 0
               end in
      if v <? 0 then Raise ValueError
      else Ok (value, v >? len_levels)
  | _ => Raise TypeError
  end.

End CfgVerbosity.

(** * Properties *)

(** ** Logging verbosity *)

Module LoggingUtilsProps.
Import LoggingUtils.

Lemma len_levels_eq : len_levels = 4.
Proof. reflexivity. Qed.

Lemma lookup_level_ge4 (v : Z) : 4 <= v -> VERBOSITY_TO_LEVELS !! v = None.
Proof.
  intros Hv. unfold VERBOSITY_TO_LEVELS.
  rewrite !lookup_insert_ne by lia. apply lookup_empty.
Qed.

(** C8: verbosity 0, 1, 2, 3 give WARN, INFO, DEBUG and the unfiltered
    level NOTSET; every negative verbosity raises an error; every
    verbosity above 3 returns the same level as verbosity 3. *)
Theorem map_logging_verbosity_table :
  map_logging_verbosity (VInt 0) = Ok WARN
  /\ map_logging_verbosity (VInt 1) = Ok INFO
  /\ map_logging_verbosity (VInt 2) = Ok DEBUG
  /\ map_logging_verbosity (VInt 3) = Ok NOTSET
  /\ (forall v : Z, v < 0 -> map_logging_verbosity (VInt v) = Raise ValueError)
  /\ (forall v : Z, 3 < v ->
        map_logging_verbosity (VInt v) = map_logging_verbosity (VInt 3)).
Proof.
  repeat split; try reflexivity.
  - intros v Hv. unfold map_logging_verbosity.
    destruct (v >=? 0) eqn:E; [lia | reflexivity].
  - intros v Hv. unfold map_logging_verbosity.
    destruct (v >=? 0) eqn:E; [| lia]. cbn [negb].
    rewrite len_levels_eq.
    destruct (v >? 4) eqn:E4.
    + reflexivity.
    + assert (v = 4) by lia. subst v. reflexivity.
Qed.

(** Witness of C8 at the verbosities -1, 4 and 10, and for a [bool]. *)
Lemma map_logging_verbosity_table_witness :
  map_logging_verbosity (VInt (-1)) = Raise ValueError
  /\ map_logging_verbosity (VInt 4) = Ok NOTSET
  /\ map_logging_verbosity (VInt 10) = Ok NOTSET.
Proof.
  destruct map_logging_verbosity_table as (_ & _ & _ & H3 & Hneg & Hbig).
  split; [apply Hneg; lia|].
  split; (rewrite Hbig; [exact H3 | lia]).
Defined.

End LoggingUtilsProps.

(** ** Plate status *)

Module PlateModelProps.
Import PlateModel.

Lemma elem_of_child_status (p : Plate) (s : string) :
  s ∈ child_status p <-> exists a, a ∈ acquisitions p /\ upload_status a = s.
Proof.
  unfold child_status. rewrite elem_of_list_to_set, list_elem_of_fmap.
  split; intros (a & H1 & H2); exists a; auto.
Qed.

Lemma all_complete_child_status (p : Plate) :
  all_complete p <-> child_status p = {[ COMPLETE ]}.
Proof.
  split.
  - intros [Hne Hall]. apply set_eq. intros s.
    rewrite elem_of_child_status, elem_of_singleton. split.
    + intros (a & Ha & <-). auto.
    + intros ->. destruct (acquisitions p) as [|a l] eqn:E; [done|].
      exists a. split; [left | apply Hall; left].
  - intros Heq. split.
    + intros Hnil. assert (COMPLETE ∈ child_status p) as Hin
        by (rewrite Heq; set_solver).
      apply elem_of_child_status in Hin as (a & Ha & _).
      rewrite Hnil in Ha. inversion Ha.
    + intros a Ha.
      assert (upload_status a ∈ child_status p) as Hin
        by (apply elem_of_child_status; eauto).
      rewrite Heq in Hin. set_solver.
Qed.

Lemma size_one_with_elem (X : gset string) (x : string) :
  size X = 1%nat /\ x ∈ X <-> X = {[ x ]}.
Proof.
  split.
  - intros [Hsz Hx]. apply size_1_elem_of in Hsz as [y Hy].
    apply leibniz_equiv in Hy. subst X.
    apply elem_of_singleton in Hx. by subst.
  - intros ->. split; [apply size_singleton | set_solver].
Qed.

(** C7: the derived plate status is UPLOADING as soon as one child
    acquisition is uploading; it is COMPLETE exactly when the plate has at
    least one acquisition and all of them are complete; it is WAITING in
    every remaining case. *)
Theorem plate_status_derivation (p : Plate) :
  (some_uploading p -> status p = UPLOADING)
  /\ (status p = COMPLETE <-> all_complete p)
  /\ (~ some_uploading p -> ~ all_complete p -> status p = WAITING).
Proof.
  unfold status.
  rewrite all_complete_child_status.
  pose proof (elem_of_child_status p UPLOADING) as Hup.
  fold (some_uploading p) in Hup.
  pose proof (size_one_with_elem (child_status p) COMPLETE) as Hone.
  destruct (decide (UPLOADING ∈ child_status p)) as [Hu|Hu].
  - split; [done|]. split; [|intros Hn; exfalso; apply Hn, Hup, Hu].
    split; [discriminate|].
    intros Heq. rewrite Heq in Hu. apply elem_of_singleton in Hu. discriminate.
  - split; [intros Hs; exfalso; apply Hu, Hup, Hs|].
    destruct (decide (size (child_status p) = 1%nat ∧ COMPLETE ∈ child_status p))
      as [Hc|Hc].
    + split; [split; [intros _; by apply Hone | done]|].
      intros _ Hn. exfalso. by apply Hn, Hone.
    + split; [split; [discriminate | intros Heq; exfalso; by apply Hc, Hone]|].
      done.
Qed.

(** Witness of C7 on a plate mixing WAITING and COMPLETE acquisitions, on
    an uploading plate and on a complete plate. *)
Lemma plate_status_derivation_witness :
  status {| acquisitions := [ {| upload_status := WAITING |};
                              {| upload_status := COMPLETE |} ] |} = WAITING
  /\ status {| acquisitions := [ {| upload_status := COMPLETE |};
                                 {| upload_status := UPLOADING |} ] |} = UPLOADING
  /\ status {| acquisitions := [ {| upload_status := COMPLETE |} ] |} = COMPLETE.
Proof.
  split; [|split].
  - apply (plate_status_derivation _).
    + intros (a & Ha & Hs).
      apply list_elem_of_In in Ha. simpl in Ha.
      destruct Ha as [<-|[<-|[]]]; discriminate Hs.
    + intros [_ Hall].
      specialize (Hall {| upload_status := WAITING |}).
      discriminate Hall. left.
  - apply (plate_status_derivation _).
    exists {| upload_status := UPLOADING |}. split; [right; left | reflexivity].
  - apply (plate_status_derivation _). split; [discriminate|].
    intros a Ha. apply list_elem_of_In in Ha. simpl in Ha.
    destruct Ha as [<-|[]]. reflexivity.
Defined.

End PlateModelProps.

(** ** Background engine: queue and perform cycle *)

Module EngineProps.
Import Engine.

Section Queue.
Context {EngineState Value : Type}.
Variable engine_call :
  method -> list value -> kwargs -> EngineState -> EngineState * option exn.
Variable engine_progress : EngineState -> EngineState * option exn.

Local Abbreviation BgEngine := (Engine.BgEngine EngineState Value).

Lemma issue_enqueue (self : BgEngine) (c : proxy_call) :
  issue self c = enqueue self (corresponding c).
Proof. destruct c; reflexivity. Qed.

Lemma issue_all_queue (calls : list proxy_call) (self : BgEngine) :
  _q (foldl issue self calls) = _q self ++ (corresponding <$> calls)
  /\ _engine (foldl issue self calls) = _engine self
  /\ _progress_last_run (foldl issue self calls) = _progress_last_run self.
Proof.
  revert self. induction calls as [|c calls IH]; intros self; simpl.
  - by rewrite app_nil_r.
  - destruct (IH (issue self c)) as (Hq & He & Hp).
    rewrite Hq, He, Hp, issue_enqueue. simpl.
    by rewrite <- app_assoc.
Qed.

Lemma run_delayed_received (q : list delayed_call) (e : EngineState) :
  fst (run_delayed engine_call q e) = received engine_call q e.
Proof.
  revert e. induction q as [|c q IH]; intros e; simpl; [done|].
  destruct (invoke engine_call c e) as [e1 r] eqn:E1.
  specialize (IH e1).
  destruct (run_delayed engine_call q e1) as [e2 l]. simpl in *.
  by rewrite IH.
Qed.

Lemma run_delayed_executed (q : list delayed_call) (e : EngineState) :
  executed (snd (run_delayed engine_call q e)) = q.
Proof.
  revert e. induction q as [|c q IH]; intros e; simpl; [done|].
  destruct (invoke engine_call c e) as [e1 r].
  specialize (IH e1).
  destruct (run_delayed engine_call q e1) as [e2 l]. simpl in *.
  destruct r; simpl; by rewrite IH.
Qed.

Lemma executed_app (l1 l2 : list log_record) :
  executed (l1 ++ l2) = executed l1 ++ executed l2.
Proof. unfold executed. apply omap_app. Qed.

Lemma perform_queue (now : Z) (self : BgEngine) :
  _q (fst (_perform engine_call engine_progress now self)) = []
  /\ executed (snd (_perform engine_call engine_progress now self)) = _q self
  /\ _engine (fst (_perform engine_call engine_progress now self))
     = fst (engine_progress (received engine_call (_q self) (_engine self))).
Proof.
  unfold _perform.
  pose proof (run_delayed_received (_q self) (_engine self)) as Hr.
  pose proof (run_delayed_executed (_q self) (_engine self)) as Hx.
  destruct (run_delayed engine_call (_q self) (_engine self)) as [e1 l1].
  simpl in Hr, Hx. subst e1.
  destruct (engine_progress _) as [e2 [err|]]; simpl;
    rewrite executed_app, Hx; simpl; by rewrite app_nil_r.
Qed.

Lemma received_calls (q : list delayed_call) (e : EngineState) :
  received engine_call q e
  = foldl (fun e c => fst (engine_call (fn c) (args c) (kw c) e)) e q.
Proof.
  revert e. induction q as [|c q IH]; intros e; [done|].
  cbn [Engine.received foldl]. unfold invoke at 2. apply IH.
Qed.

Lemma recording_received (q trace : list delayed_call) :
  received recording_call q trace = trace ++ q.
Proof.
  revert trace. induction q as [|c q IH]; intros trace.
  - by rewrite app_nil_r.
  - cbn [Engine.received foldl]. unfold invoke at 2, recording_call at 2.
    cbn [fst]. destruct c as [m a k]. cbn [fn args kw].
    change (received recording_call q (trace ++ [Delayed m a k])
            = trace ++ Delayed m a k :: q).
    rewrite IH. by rewrite <- app_assoc.
Qed.

End Queue.

(** C1: N mutating proxy calls issued to a fresh [BgEngine] are queued
    in order and nothing reaches the wrapped engine; one perform cycle
    then calls the wrapped engine with all N corresponding calls in that
    order, each one on the engine as the previous call left it whether or
    not that call raised, calls [progress] and leaves the queue empty.
    An engine that records what it is called with, and whose [kill]
    raises, holds after the cycle exactly the N calls, in order, after
    what it held before. *)
Theorem perform_drains_queue_in_order {EngineState Value : Type}
    (engine_call :
       method -> list value -> kwargs -> EngineState -> EngineState * option exn)
    (engine_progress : EngineState -> EngineState * option exn)
    (engine : EngineState) (calls : list proxy_call) (now : Z) :
  let bg := foldl issue (init Value engine) calls in
  let cycle := _perform engine_call engine_progress now bg in
  _q bg = corresponding <$> calls
  /\ _engine bg = engine
  /\ executed (snd cycle) = corresponding <$> calls
  /\ length (executed (snd cycle)) = length calls
  /\ _engine (fst cycle)
     = fst (engine_progress
              (received engine_call (corresponding <$> calls) engine))
  /\ _engine (fst cycle)
     = fst (engine_progress
              (foldl (fun e c => fst (engine_call (fn c) (args c) (kw c) e))
                     engine (corresponding <$> calls)))
  /\ _q (fst cycle) = []
  /\ (forall (trace : list delayed_call) (now' : Z),
        _engine (fst (_perform recording_call recording_progress now'
                        (foldl issue (init Value trace) calls)))
        = trace ++ (corresponding <$> calls)).
Proof.
  intros bg cycle.
  destruct (issue_all_queue calls (init Value engine)) as (Hq & He & _).
  simpl in Hq, He. fold bg in Hq, He.
  destruct (perform_queue engine_call engine_progress now bg) as (H1 & H2 & H3).
  fold cycle in H1, H2, H3.
  rewrite Hq in H2, H3. rewrite He in H3.
  split; [done|]. split; [done|]. split; [done|].
  split; [by rewrite H2, length_fmap|]. split; [done|].
  split; [by rewrite H3, received_calls|]. split; [done|].
  intros trace now'.
  destruct (issue_all_queue calls (init Value trace)) as (Hq' & He' & _).
  simpl in Hq', He'.
  destruct (perform_queue recording_call recording_progress now'
              (foldl issue (init Value trace) calls)) as (_ & _ & H3').
  rewrite H3', Hq', He'. unfold recording_progress. cbn [fst].
  apply recording_received.
Qed.


Example perform_after_failing_call :
  let bg := foldl issue (init unit [])
              [Call_add (VObj 1); Call_kill (VObj 1) [];
               Call_submit (VObj 2) None None []] in
  let cycle := _perform recording_call recording_progress 7 bg in
  _engine (fst cycle)
    = [Delayed Engine_add [VObj 1] [];
       Delayed Engine_kill [VObj 1] [];
       Delayed Engine_submit [VObj 2; VBool false; VNone] []]
  /\ snd cycle
    = [LogPerformStarted;
       LogExecuting (Delayed Engine_add [VObj 1] []);
       LogExecuting (Delayed Engine_kill [VObj 1] []);
       LogCallError ValueError (Delayed Engine_kill [VObj 1] []);
       LogExecuting (Delayed Engine_submit [VObj 2; VBool false; VNone] []);
       LogCallingProgress; LogPerformDone]
  /\ _q (fst cycle) = []
  /\ _progress_last_run (fst cycle) = 7.
Proof. repeat split. Qed.


(** *** The read-side cache *)

Section Cache.
Context {EngineState Value : Type}.
Variable engine_call :
  method -> list value -> kwargs -> EngineState -> EngineState * option exn.
Variable engine_progress : EngineState -> EngineState * option exn.

Local Abbreviation BgEngine := (Engine.BgEngine EngineState Value).
Local Abbreviation body := (Engine.body EngineState Value).

Lemma bypass_before_first_cycle (f : reader) (fn_body : body) (now : Z)
    (self : BgEngine) (args : list nat) :
  _progress_last_run self = 0 ->
  at_most_once_per_cycle f fn_body now self args = fn_body self args.
Proof. intros H. unfold at_most_once_per_cycle. by rewrite H. Qed.

Lemma reuse_when_fresh (f : reader) (fn_body : body) (now : Z)
    (self : BgEngine) (args : list nat) (t : Z) (v : Value) :
  _progress_last_run self <> 0 ->
  cached self (f, args) t v ->
  _progress_last_run self <= t ->
  at_most_once_per_cycle f fn_body now self args = (self, Ok v).
Proof.
  intros Hp (lu & cv & Hlu & Hcv & Ht & Hv) Hle.
  unfold at_most_once_per_cycle, check_update, cache_value_get.
  destruct (Z.eqb_spec (_progress_last_run self) 0) as [|_]; [done|].
  rewrite Hlu, Ht.
  destruct (Z.ltb_spec t (_progress_last_run self)); [lia|].
  by rewrite Hcv, Hv.
Qed.

Lemma check_update_stale (self : BgEngine) (key : cache_key) :
  stale self key -> snd (check_update self key) = true.
Proof.
  unfold stale, check_update.
  destruct (_cache_last_updated self) as [lu|]; [|done].
  destruct (lu !! key) as [t|]; simpl; intros H; by apply Z.ltb_lt.
Qed.

Lemma recompute_when_stale (f : reader) (fn_body : body) (now : Z)
    (self self2 : BgEngine) (args : list nat) (v : Value)
    (lu2 : gmap cache_key Z) (cv2 : gmap cache_key Value) :
  _progress_last_run self <> 0 ->
  stale self (f, args) ->
  fn_body (fst (check_update self (f, args))) args = (self2, Ok v) ->
  _cache_last_updated self2 = Some lu2 ->
  _cache_value self2 = Some cv2 ->
  at_most_once_per_cycle f fn_body now self args
  = (set_cache self2 (Some (<[(f, args) := now]> lu2))
                     (Some (<[(f, args) := v]> cv2)), Ok v).
Proof.
  intros Hp Hst Hbody Hlu Hcv.
  unfold at_most_once_per_cycle.
  destruct (Z.eqb_spec (_progress_last_run self) 0) as [|_]; [done|].
  pose proof (check_update_stale self (f, args) Hst) as Hup.
  destruct (check_update self (f, args)) as [self1 update].
  simpl in Hup, Hbody. subst update. rewrite Hbody.
  unfold store. rewrite Hcv. simpl. rewrite Hlu.
  unfold cache_value_get, set_cache. simpl. by rewrite lookup_insert_eq.
Qed.

Lemma perform_stamps (now : Z) (self : BgEngine) :
  let e1 := received engine_call (_q self) (_engine self) in
  let self' := fst (_perform engine_call engine_progress now self) in
  _cache_last_updated self' = _cache_last_updated self
  /\ _cache_value self' = _cache_value self
  /\ _progress_last_run self'
     = match snd (engine_progress e1) with
       | None => now
       | Some _ => _progress_last_run self
       end.
Proof.
  unfold _perform.
  pose proof (run_delayed_received engine_call (_q self) (_engine self)) as Hr.
  destruct (run_delayed engine_call (_q self) (_engine self)) as [e1 l1].
  simpl in Hr. subst e1.
  by destruct (engine_progress _) as [e2 [err|]].
Qed.

Lemma reads_engine_run (b : body) (args : list nat) (s s0 : BgEngine) :
  reads_engine b args -> _engine s = _engine s0 ->
  b s args = (s, snd (b s0 args)).
Proof.
  intros [Hframe Hread] He. rewrite (surjective_pairing (b s args)).
  by rewrite Hframe, (Hread s s0 He).
Qed.

Lemma first_cycle (engine : EngineState) (now1 : Z) :
  snd (engine_progress engine) = None ->
  fst (_perform engine_call engine_progress now1 (init Value engine))
  = MkBgEngine [] (fst (engine_progress engine)) now1 None None.
Proof.
  intros Hp. unfold _perform, init. cbn.
  destruct (engine_progress engine) as [e1 r]. simpl in Hp. by subst r.
Qed.

Lemma first_call_after_cycle (f : reader) (b1 : body) (args : list nat)
    (e : EngineState) (q : list delayed_call) (p t1 : Z) (v1 : Value) :
  p <> 0 -> reads_engine b1 args ->
  snd (b1 (MkBgEngine q e p None None) args) = Ok v1 ->
  at_most_once_per_cycle f b1 t1 (MkBgEngine q e p None None) args
  = (MkBgEngine q e p (Some {[ (f, args) := t1 ]}) (Some {[ (f, args) := v1 ]}),
     Ok v1).
Proof.
  intros Hp Hb Hv. unfold at_most_once_per_cycle. cbn [_progress_last_run].
  destruct (Z.eqb_spec p 0) as [|_]; [done|].
  cbn [check_update _cache_last_updated].
  rewrite (reads_engine_run b1 args _ (MkBgEngine q e p None None) Hb)
    by reflexivity.
  rewrite Hv. unfold store, set_cache, cache_value_get. cbn.
  rewrite lookup_insert_eq. by rewrite !insert_empty.
Qed.

Lemma recompute_after_cycle (f : reader) (b : body) (args : list nat)
    (e : EngineState) (q : list delayed_call) (p t' : Z) (v' : Value)
    (lu : gmap cache_key Z) (cv : gmap cache_key Value) :
  p <> 0 -> default 0 (lu !! (f, args)) < p -> reads_engine b args ->
  snd (b (MkBgEngine q e p (Some lu) (Some cv)) args) = Ok v' ->
  exists lu',
    at_most_once_per_cycle f b t' (MkBgEngine q e p (Some lu) (Some cv)) args
    = (MkBgEngine q e p (Some (<[(f, args) := t']> lu'))
                  (Some (<[(f, args) := v']> cv)), Ok v')
    /\ forall k, k <> (f, args) -> default 0 (lu' !! k) = default 0 (lu !! k).
Proof.
  intros Hp Hst Hb Hv. unfold at_most_once_per_cycle, check_update.
  cbn [_progress_last_run _cache_last_updated].
  destruct (Z.eqb_spec p 0) as [|_]; [done|].
  match goal with
  | |- context [match ?x with Some _ => _ | None => _ end] =>
      destruct x as [t0|] eqn:Elu
  end.
  - assert (lu !! (f, args) = Some t0) as Elu' by exact Elu.
    rewrite Elu' in Hst. simpl in Hst.
    destruct (Z.ltb_spec t0 p); [|lia]. exists lu. cbv beta iota zeta.
    rewrite (reads_engine_run b args _ (MkBgEngine q e p (Some lu) (Some cv)) Hb)
      by reflexivity.
    rewrite Hv. unfold store, set_cache, cache_value_get. cbn.
    by rewrite lookup_insert_eq.
  - assert (lu !! (f, args) = None) as Elu' by exact Elu.
    rewrite Elu' in Hst. simpl in Hst.
    destruct (Z.ltb_spec 0 p); [|lia]. exists (<[(f, args) := 0]> lu).
    unfold set_cache. cbv beta iota zeta.
    cbn [_q _engine _progress_last_run _cache_value].
    rewrite (reads_engine_run b args _ (MkBgEngine q e p (Some lu) (Some cv)) Hb)
      by reflexivity.
    rewrite Hv. unfold store, set_cache, cache_value_get. cbn.
    rewrite lookup_insert_eq. split; [done|].
    intros k Hk. by rewrite lookup_insert_ne.
Qed.

Lemma memoizes_from_init (f : reader) (args : list nat)
    (engine : EngineState) (b1 : body) (v1 : Value) (now1 t1 : Z) :
  snd (engine_progress engine) = None ->
  0 < now1 -> now1 <= t1 ->
  reads_engine b1 args ->
  let bg0 := init Value engine in
  let bg1 := fst (_perform engine_call engine_progress now1 bg0) in
  snd (b1 bg1 args) = Ok v1 ->
  let c1 := at_most_once_per_cycle f b1 t1 bg1 args in
  (forall b t, at_most_once_per_cycle f b t bg0 args = b bg0 args)
  /\ snd c1 = Ok v1
  /\ cached (fst c1) (f, args) t1 v1
  /\ (forall b2 t2,
        at_most_once_per_cycle f b2 t2 (fst c1) args = (fst c1, Ok v1))
  /\ (forall f' args' b2 t2,
        (f', args') <> (f, args) -> reads_engine b2 args' ->
        snd (at_most_once_per_cycle f' b2 t2 (fst c1) args')
        = snd (b2 (fst c1) args'))
  /\ (forall now2 e b t,
        snd (engine_progress (_engine (fst c1))) = Some e ->
        let bg2 := fst (_perform engine_call engine_progress now2 (fst c1)) in
        at_most_once_per_cycle f b t bg2 args = (bg2, Ok v1))
  /\ (forall now2 b3 v3 t3,
        snd (engine_progress (_engine (fst c1))) = None ->
        t1 < now2 -> now2 <= t3 ->
        reads_engine b3 args ->
        let bg2 := fst (_perform engine_call engine_progress now2 (fst c1)) in
        snd (b3 bg2 args) = Ok v3 ->
        let c3 := at_most_once_per_cycle f b3 t3 bg2 args in
        snd c3 = Ok v3
        /\ cached (fst c3) (f, args) t3 v3
        /\ forall b4 t4,
             at_most_once_per_cycle f b4 t4 (fst c3) args = (fst c3, Ok v3)).
Proof.
  intros Hprog Hnow1 Ht1 Hb1 bg0 bg1 Hv1 c1.
  assert (bg1 = MkBgEngine [] (fst (engine_progress engine)) now1 None None)
    as Ebg1 by (by apply first_cycle).
  assert (c1 = (MkBgEngine [] (fst (engine_progress engine)) now1
                  (Some {[ (f, args) := t1 ]}) (Some {[ (f, args) := v1 ]}),
                Ok v1)) as Ec1.
  { unfold c1. rewrite Ebg1 in Hv1 |- *.
    apply first_call_after_cycle; [lia | done | done]. }
  set (s1 := MkBgEngine [] (fst (engine_progress engine)) now1
               (Some {[ (f, args) := t1 ]}) (Some {[ (f, args) := v1 ]}))
    in Ec1.
  assert (cached s1 (f, args) t1 v1) as Hc1.
  { exists {[ (f, args) := t1 ]}, {[ (f, args) := v1 ]}.
    repeat split; apply lookup_singleton_eq. }
  rewrite Ec1. cbn [fst snd].
  split; [intros b t; by apply bypass_before_first_cycle|].
  split; [done|]. split; [done|].
  split.
  { intros b2 t2. apply (reuse_when_fresh f b2 t2 s1 args t1 v1); [|done|done].
    simpl. lia. }
  split.
  { intros f' args' b2 t2 Hne Hb2.
    destruct (snd (b2 s1 args')) as [w|e] eqn:Eb2.
    - destruct (recompute_after_cycle f' b2 args' (fst (engine_progress engine))
                  [] now1 t2 w {[ (f, args) := t1 ]} {[ (f, args) := v1 ]})
        as (lu' & Hcall & _); [lia | | done | done |].
      + rewrite lookup_singleton_ne by done. simpl. lia.
      + fold s1 in Hcall. by rewrite Hcall.
    - unfold at_most_once_per_cycle, check_update, s1.
      cbn [_progress_last_run _cache_last_updated].
      destruct (Z.eqb_spec now1 0) as [|_]; [lia|].
      rewrite lookup_singleton_ne by done.
      destruct (Z.ltb_spec 0 now1); [|lia]. cbv beta iota zeta.
      rewrite (reads_engine_run b2 args' _ s1 Hb2) by reflexivity.
      by rewrite Eb2. }
  split.
  { intros now2 e b t Hfail.
    set (bg2 := fst (_perform engine_call engine_progress now2 s1)).
    destruct (perform_stamps now2 s1)
      as (H1 & H2 & H3).
    fold bg2 in H1, H2, H3. cbn in H3. cbn in Hfail. rewrite Hfail in H3.
    apply (reuse_when_fresh f b t bg2 args t1 v1).
    - rewrite H3. lia.
    - exists {[ (f, args) := t1 ]}, {[ (f, args) := v1 ]}.
      rewrite H1, H2. repeat split; apply lookup_singleton_eq.
    - rewrite H3. done. }
  intros now2 b3 v3 t3 Hok Hlt Hle Hb3.
  set (bg2 := fst (_perform engine_call engine_progress now2 s1)).
  intros Hv3.
  set (c3 := at_most_once_per_cycle f b3 t3 bg2 args).
  assert (bg2 = MkBgEngine [] (fst (engine_progress (fst (engine_progress engine))))
                  now2 (Some {[ (f, args) := t1 ]}) (Some {[ (f, args) := v1 ]}))
    as Ebg2.
  { unfold bg2, _perform, s1. cbn. cbn in Hok.
    destruct (engine_progress (fst (engine_progress engine))) as [e2 r].
    simpl in Hok. by subst r. }
  destruct (recompute_after_cycle f b3 args
              (fst (engine_progress (fst (engine_progress engine))))
              [] now2 t3 v3 {[ (f, args) := t1 ]} {[ (f, args) := v1 ]})
    as (lu' & Hcall & _); [lia | | done | by rewrite <- Ebg2 |].
  { rewrite lookup_singleton_eq. simpl. lia. }
  unfold c3. rewrite Ebg2, Hcall. cbn [fst snd].
  assert (cached
            {| _q := [];
               _engine := fst (engine_progress (fst (engine_progress engine)));
               _progress_last_run := now2;
               _cache_last_updated := Some (<[(f, args):=t3]> lu');
               _cache_value := Some (<[(f, args):=v3]> {[(f, args) := v1]}) |}
            (f, args) t3 v3) as Hc3.
  { eexists _, _. repeat split; apply lookup_insert_eq. }
  split; [done|]. split; [done|].
  intros b4 t4. apply (reuse_when_fresh f b4 t4 _ args t3 v3); [|done|done].
  simpl. lia.
Qed.

(** C5: a method decorated with [at_most_once_per_cycle] (a) is computed
    at every call while no progress cycle has succeeded; afterwards, for
    its call signature (function and identities of the arguments), (b) a
    value cached at or after the last completed progress cycle is returned
    without running the body, (c) an entry that is missing or older than
    the last completed progress cycle makes the body run and its value is
    stored with the time of the call, and (d) a progress cycle that
    succeeds at a time later than the entry makes the entry stale, one that
    fails leaves the time of the last cycle as it was.  (e) On an engine
    as [__init__] builds it, for bodies that only read the wrapped
    engine: every call runs the body before the first cycle; after the
    first successful cycle the first call of a signature runs the body
    and every later call of that signature returns the same value
    without running it, while a call of another signature runs its own
    body; a cycle whose [progress] fails changes nothing of this; after a
    later successful cycle the next call runs the body again and its
    value is the one returned from then on. *)
Theorem at_most_once_per_cycle_caching
    (f : reader) (fn_body : body) (now : Z) (self : BgEngine)
    (args : list nat) :
  (_progress_last_run (init Value (_engine self)) = 0
   /\ (_progress_last_run self = 0 ->
       at_most_once_per_cycle f fn_body now self args = fn_body self args))
  /\ (forall t v,
        _progress_last_run self <> 0 ->
        cached self (f, args) t v ->
        _progress_last_run self <= t ->
        at_most_once_per_cycle f fn_body now self args = (self, Ok v))
  /\ (forall self2 v lu2 cv2,
        _progress_last_run self <> 0 ->
        stale self (f, args) ->
        fn_body (fst (check_update self (f, args))) args = (self2, Ok v) ->
        _cache_last_updated self2 = Some lu2 ->
        _cache_value self2 = Some cv2 ->
        at_most_once_per_cycle f fn_body now self args
        = (set_cache self2 (Some (<[(f, args) := now]> lu2))
                           (Some (<[(f, args) := v]> cv2)), Ok v)
        /\ cached (fst (at_most_once_per_cycle f fn_body now self args))
                  (f, args) now v)
  /\ (forall t v now',
        cached self (f, args) t v ->
        let self' := fst (_perform engine_call engine_progress now' self) in
        match snd (engine_progress
                     (received engine_call (_q self) (_engine self))) with
        | None =>
            _progress_last_run self' = now'
            /\ cached self' (f, args) t v
            /\ (t < now' -> stale self' (f, args))
        | Some _ => _progress_last_run self' = _progress_last_run self
        end)
  /\ (forall (engine : EngineState) (b1 : body) (v1 : Value) (now1 t1 : Z),
        snd (engine_progress engine) = None ->
        0 < now1 -> now1 <= t1 ->
        reads_engine b1 args ->
        let bg0 := init Value engine in
        let bg1 := fst (_perform engine_call engine_progress now1 bg0) in
        snd (b1 bg1 args) = Ok v1 ->
        let c1 := at_most_once_per_cycle f b1 t1 bg1 args in
        (forall b t, at_most_once_per_cycle f b t bg0 args = b bg0 args)
        /\ snd c1 = Ok v1
        /\ cached (fst c1) (f, args) t1 v1
        /\ (forall b2 t2,
              at_most_once_per_cycle f b2 t2 (fst c1) args = (fst c1, Ok v1))
        /\ (forall f' args' b2 t2,
              (f', args') <> (f, args) -> reads_engine b2 args' ->
              snd (at_most_once_per_cycle f' b2 t2 (fst c1) args')
              = snd (b2 (fst c1) args'))
        /\ (forall now2 e b t,
              snd (engine_progress (_engine (fst c1))) = Some e ->
              let bg2 :=
                fst (_perform engine_call engine_progress now2 (fst c1)) in
              at_most_once_per_cycle f b t bg2 args = (bg2, Ok v1))
        /\ (forall now2 b3 v3 t3,
              snd (engine_progress (_engine (fst c1))) = None ->
              t1 < now2 -> now2 <= t3 ->
              reads_engine b3 args ->
              let bg2 :=
                fst (_perform engine_call engine_progress now2 (fst c1)) in
              snd (b3 bg2 args) = Ok v3 ->
              let c3 := at_most_once_per_cycle f b3 t3 bg2 args in
              snd c3 = Ok v3
              /\ cached (fst c3) (f, args) t3 v3
              /\ forall b4 t4,
                   at_most_once_per_cycle f b4 t4 (fst c3) args
                   = (fst c3, Ok v3))).
Proof.
  split; [split; [done | apply bypass_before_first_cycle]|].
  split; [intros t v; apply reuse_when_fresh|].
  split.
  { intros self2 v lu2 cv2 Hp Hst Hb Hlu Hcv.
    rewrite (recompute_when_stale f fn_body now self self2 args v lu2 cv2)
      by done.
    split; [done|]. simpl.
    exists (<[(f, args) := now]> lu2), (<[(f, args) := v]> cv2).
    by rewrite !lookup_insert_eq. }
  split.
  { intros t v now' (lu & cv & Hlu & Hcv & Ht & Hv) self'.
    destruct (perform_stamps now' self) as (H1 & H2 & H3).
    fold self' in H1, H2, H3.
    destruct (snd (engine_progress _)); [done|].
    split; [done|]. split.
    + exists lu, cv. by rewrite H1, H2.
    + intros Hlt. unfold stale. rewrite H1, Hlu, Ht, H3. done. }
  intros engine b1 v1 now1 t1. apply memoizes_from_init.
Qed.

End Cache.

(** Witness of C5: the scenario of one signature through two progress
    cycles.  The cached value 1 stamped 11 is returned after the cycle of
    time 10 whatever the body would compute, and the cycle of time 20
    makes it stale.  On a new engine, after the cycle of time 10 the call
    at time 12 computes 1, the call at time 15 returns 1 although the body
    would compute 2, and after the cycle of time 20 the call at time 21
    computes 3. *)
Lemma at_most_once_per_cycle_caching_witness :
  let key := (task_data_fn, [7%nat]) in
  let call_ : method -> list value -> kwargs -> unit -> unit * option exn :=
    fun _ _ _ e => (e, None) in
  let progress_ : unit -> unit * option exn := fun e => (e, None) in
  let returns (v : nat) : body unit nat := fun s _ => (s, Ok v) in
  let self : BgEngine unit nat :=
    MkBgEngine [] tt 10 (Some {[ key := 11 ]}) (Some {[ key := 1%nat ]}) in
  let bg1 := fst (_perform call_ progress_ 10 (init nat tt)) in
  let c1 := at_most_once_per_cycle task_data_fn (returns 1%nat) 12 bg1 [7%nat] in
  let bg2 := fst (_perform call_ progress_ 20 (fst c1)) in
  (at_most_once_per_cycle task_data_fn (returns 2%nat) 12 self [7%nat]
   = (self, Ok 1%nat)
   /\ stale (fst (_perform call_ progress_ 20 self)) key)
  /\ snd c1 = Ok 1%nat
  /\ at_most_once_per_cycle task_data_fn (returns 2%nat) 15 (fst c1) [7%nat]
     = (fst c1, Ok 1%nat)
  /\ snd (at_most_once_per_cycle task_data_fn (returns 3%nat) 21 bg2 [7%nat])
     = Ok 3%nat.
Proof.
  intros key call_ progress_ returns self bg1 c1 bg2.
  pose proof (at_most_once_per_cycle_caching call_ progress_
                task_data_fn (returns 2%nat) 12 self [7%nat])
    as (_ & Hreuse & _ & Hcycle & Hinit).
  assert (cached self key 11 1%nat) as Hc.
  { exists {[ key := 11 ]}, {[ key := 1%nat ]}.
    repeat split; apply lookup_singleton_eq. }
  assert (forall v, reads_engine (returns v) [7%nat]) as Hreads
    by (intros v; split; [reflexivity | reflexivity]).
  destruct (Hinit tt (returns 1%nat) 1%nat 10 12)
    as (_ & Hfirst & _ & Hsecond & _ & _ & Hnext);
    [reflexivity | lia | lia | apply Hreads | reflexivity |].
  destruct (Hnext 20 (returns 3%nat) 3%nat 21)
    as (Hthird & _); [reflexivity | lia | lia | apply Hreads | reflexivity |].
  split; [split|].
  - apply (Hreuse 11 1%nat); [discriminate | exact Hc | simpl; lia].
  - specialize (Hcycle 11 1%nat 20 Hc). simpl in Hcycle.
    apply Hcycle. lia.
  - split; [exact Hfirst|]. split; [apply Hsecond | exact Hthird].
Defined.

(** *** [task_data] *)

Lemma task_data_collection_floor (now started : Z) (t : task) :
  task_cls t = TaskCollection ->
  timestamp (task_execution t) !! RUNNING = Some started ->
  task_tasks t <> [] ->
  count_terminated (task_tasks t) < Z.of_nat (length (task_tasks t)) ->
  info_percent_done <$> (match task_data now t with
                         | Ok d => Some d
                         | Raise _ => None
                         end) = Some (PercentInt 0).
Proof.
  intros Hc Hs Hne Hlt. unfold task_data. rewrite Hs, Hc.
  destruct (Z.eqb_spec (Z.of_nat (length (task_tasks t))) 0) as [E|E].
  - destruct (task_tasks t); [done | simpl in E; lia].
  - simpl. rewrite Z.div_small; [done|].
    unfold count_terminated in *. lia.
Qed.

(** The parts of C6 that the code follows: no ['percent_done'] before the
    task has run, the ratio of the running time to the requested walltime
    for a leaf task, and [NotImplementedError] for another object. *)
Lemma task_data_other_cases (now : Z) (t : task) :
  (timestamp (task_execution t) !! RUNNING = None ->
   info_percent_done <$> (match task_data now t with
                          | Ok d => Some d
                          | Raise _ => None
                          end) = Some PercentNone)
  /\ (forall started,
        timestamp (task_execution t) !! RUNNING = Some started ->
        task_cls t = Task -> task_requested_walltime t <> 0 ->
        info_percent_done <$> (match task_data now t with
                               | Ok d => Some d
                               | Raise _ => None
                               end)
        = Some (PercentOfWalltime (now - started) (task_requested_walltime t)))
  /\ (forall started,
        timestamp (task_execution t) !! RUNNING = Some started ->
        task_cls t = OtherObject ->
        task_data now t = Raise NotImplementedError).
Proof.
  unfold task_data. split; [|split].
  - by intros ->.
  - intros started -> -> Hw.
    by destruct (Z.eqb_spec (task_requested_walltime t) 0).
  - by intros started -> ->.
Qed.

(** C6 (what the code does): for a collection of two children of which one
    has terminated, [task_data] reports a ['percent_done'] of 0, the floor
    of 1/2, not the ratio 1/2. *)
Theorem task_data_half_done_collection :
  task_data 100 half_done_collection
  = Ok {| info_name := "workflow";
          info_state := RUNNING;
          info_is_live := true;
          info_is_done := false;
          info_failed := false;
          info_percent_done := PercentInt 0;
          info_id := Some "42" |}.
Proof. vm_compute. reflexivity. Qed.

End EngineProps.

(** ** Workflow description: stage order *)

Module DescriptionProps.
Import Description.

Lemma warn_missing_raises (stage_names ds : list string) (dep : string) :
  dep ∈ ds -> dep ∉ stage_names ->
  warn_missing stage_names ds = Raise NameError.
Proof.
  intros Hin Hnot. induction ds as [|d ds IH]; [by inversion Hin|].
  simpl. case_bool_decide as Hd; [|done].
  apply IH. apply elem_of_cons in Hin as [->|Hin]; [done | exact Hin].
Qed.

Lemma warn_missing_ok (stage_names ds : list string) :
  (forall dep, dep ∈ ds -> dep ∈ stage_names) ->
  warn_missing stage_names ds = Ok tt.
Proof.
  induction ds as [|d ds IH]; intros H; [done|]. simpl.
  rewrite bool_decide_eq_true_2 by (apply H; left).
  apply IH. intros dep Hd. apply H. by right.
Qed.

(** Whatever the declaration: a new, known stage with implemented steps
    and a declared upstream dependency that has not been added yet makes
    [add_stage] end in the [NameError] of the warning. *)
Lemma add_stage_missing_dependency (self : WorkflowDescription)
    (sd : WorkflowStageDescription) (ds : list string) (dep : string) :
  existsb (fun stage => String.eqb (name stage) (name sd)) (stages self) = false ->
  name sd ∈ STAGES (dependencies self) ->
  check_implemented (dependencies self) (name sd) (steps sd) = Ok tt ->
  INTER_STAGE_DEPENDENCIES (dependencies self) !! name sd = Some ds ->
  dep ∈ ds -> dep ∉ name <$> stages self ->
  add_stage self (StageArg sd) = Raise NameError.
Proof.
  intros Hnew Hknown Himpl Hds Hin Hnot. unfold add_stage.
  rewrite Hnew, (bool_decide_eq_true_2 _ Hknown). simpl.
  rewrite Himpl. simpl. rewrite Hds.
  by rewrite (warn_missing_raises _ _ dep).
Qed.

(** C3 (what the code does): with "analysis" requiring "upload"
    upstream, adding "analysis" to a workflow without "upload" does not
    succeed with a warning but raises [NameError]; adding "upload" to a
    workflow that holds "analysis" raises [WorkflowDescriptionError];
    adding "upload" and then "analysis" succeeds. *)
Theorem add_stage_analysis_before_upload :
  add_stage (workflow_with []) (StageArg analysis_stage) = Raise NameError
  /\ add_stage (workflow_with [analysis_stage]) (StageArg upload_stage)
     = Raise WorkflowDescriptionError
  /\ (do w <- add_stage (workflow_with []) (StageArg upload_stage);
      add_stage w (StageArg analysis_stage))
     = Ok (workflow_with [upload_stage; analysis_stage]).
Proof. repeat split; vm_compute; reflexivity. Qed.

End DescriptionProps.

(** ** Pyramid tiles: upsert and plain insert *)

Module TileProps.
Import Tile.

Lemma has_key_true (tbl : table) (k : primary_key) :
  has_key tbl k = true <-> k ∈ row_key <$> tbl.
Proof. unfold has_key. apply bool_decide_eq_true. Qed.

Lemma has_key_false (tbl : table) (k : primary_key) :
  has_key tbl k = false <-> k ∉ row_key <$> tbl.
Proof. unfold has_key. apply bool_decide_eq_false. Qed.

Lemma upsert_keys (tbl : table) (r : tile_row) :
  row_key <$> insert_on_conflict_update tbl r
  = if has_key tbl (row_key r) then row_key <$> tbl
    else (row_key <$> tbl) ++ [row_key r].
Proof.
  unfold insert_on_conflict_update.
  destruct (has_key tbl (row_key r)).
  - rewrite <- list_fmap_compose. apply list_fmap_ext.
    intros i r' _. simpl. unfold on_conflict_update. by case_bool_decide.
  - by rewrite fmap_app.
Qed.

Lemma upsert_pkey_holds (tbl : table) (r : tile_row) :
  pkey_holds tbl -> pkey_holds (insert_on_conflict_update tbl r).
Proof.
  unfold pkey_holds. rewrite upsert_keys.
  destruct (has_key tbl (row_key r)) eqn:E; [done|].
  intros Hnd. apply NoDup_app. split; [done|]. split.
  - intros k Hk Hk'. apply list_elem_of_singleton in Hk'. subst k.
    by apply has_key_false in E.
  - apply NoDup_singleton.
Qed.

Lemma upsert_has_key (tbl : table) (r : tile_row) :
  has_key (insert_on_conflict_update tbl r) (row_key r) = true.
Proof.
  apply has_key_true. rewrite upsert_keys.
  destruct (has_key tbl (row_key r)) eqn:E.
  - by apply has_key_true.
  - apply elem_of_app. right. left.
Qed.

Lemma rows_of_absent (tbl : table) (k : primary_key) :
  k ∉ row_key <$> tbl -> rows_of tbl k = [].
Proof.
  intros Hk. unfold rows_of. induction tbl as [|r tbl IH]; [done|].
  rewrite fmap_cons, not_elem_of_cons in Hk. destruct Hk as [Hne Hk].
  rewrite filter_cons_False by done. by apply IH.
Qed.

Lemma on_conflict_update_same (r r' : tile_row) :
  row_key r' = row_key r -> on_conflict_update r r' = r.
Proof.
  intros Hk. unfold on_conflict_update. rewrite bool_decide_eq_true_2 by done.
  destruct r, r'. unfold row_key in Hk. simpl in *. congruence.
Qed.

Lemma on_conflict_update_other (r r' : tile_row) :
  row_key r' <> row_key r -> on_conflict_update r r' = r'.
Proof.
  intros Hk. unfold on_conflict_update. by rewrite bool_decide_eq_false_2.
Qed.

Lemma updated_rows_of (tbl : table) (r : tile_row) :
  NoDup (row_key <$> tbl) ->
  rows_of (on_conflict_update r <$> tbl) (row_key r)
  = if has_key tbl (row_key r) then [r] else [].
Proof.
  induction tbl as [|r' tbl IH]; [done|].
  rewrite !fmap_cons. intros Hnd. apply NoDup_cons in Hnd as [Hr' Hnd].
  unfold rows_of. destruct (decide (row_key r' = row_key r)) as [Hk|Hk].
  - rewrite on_conflict_update_same by done.
    rewrite filter_cons_True by done.
    rewrite (proj2 (has_key_true (r' :: tbl) (row_key r)))
      by (rewrite fmap_cons, Hk; left).
    f_equal. fold (rows_of (on_conflict_update r <$> tbl) (row_key r)).
    rewrite IH by done. rewrite Hk in Hr'.
    by rewrite (proj2 (has_key_false _ _) Hr').
  - rewrite on_conflict_update_other by done.
    rewrite filter_cons_False by done.
    fold (rows_of (on_conflict_update r <$> tbl) (row_key r)).
    rewrite IH by done.
    unfold has_key. rewrite fmap_cons.
    destruct (bool_decide (row_key r ∈ row_key <$> tbl)) eqn:E.
    + apply bool_decide_eq_true in E.
      rewrite bool_decide_eq_true_2; [done | by right].
    + apply bool_decide_eq_false in E.
      rewrite bool_decide_eq_false_2; [done|].
      rewrite not_elem_of_cons. split; [congruence | done].
Qed.

Lemma upsert_rows_of (tbl : table) (r : tile_row) :
  pkey_holds tbl ->
  rows_of (insert_on_conflict_update tbl r) (row_key r) = [r].
Proof.
  intros Hnd. unfold insert_on_conflict_update.
  destruct (has_key tbl (row_key r)) eqn:E.
  - rewrite updated_rows_of by done. by rewrite E.
  - unfold rows_of. rewrite filter_app.
    fold (rows_of tbl (row_key r)).
    rewrite rows_of_absent by (by apply has_key_false).
    by rewrite filter_cons_True.
Qed.

Lemma insert_ok (tbl tbl' : table) (r : tile_row) :
  insert tbl r = Ok tbl' -> has_key tbl (row_key r) = false /\ tbl' = tbl ++ [r].
Proof.
  unfold insert. destruct (has_key tbl (row_key r)); [done|].
  intros [= <-]. done.
Qed.

Lemma add_multiple_keeps_keys (tiles : list ChannelLayerTile) (tbl tbl' : table)
    (k : primary_key) :
  add_multiple tbl tiles = Ok tbl' ->
  k ∈ row_key <$> tbl -> k ∈ row_key <$> tbl'.
Proof.
  revert tbl. induction tiles as [|t tiles IH]; intros tbl; simpl.
  - by intros [= <-].
  - destruct (parameters t) as [r|e]; [|done]. simpl.
    destruct (insert tbl r) as [tbl1|e] eqn:E; [|done]. simpl.
    apply insert_ok in E as [_ ->].
    intros H Hk. apply (IH _ H). rewrite fmap_app. apply elem_of_app. by left.
Qed.

Lemma parameters_key (t : ChannelLayerTile) (r : tile_row) :
  parameters t = Ok r -> row_key r = tile_key t.
Proof.
  unfold parameters. destruct (_pixels t); [|done]. by intros [= <-].
Qed.

Lemma add_multiple_adds_keys (tiles : list ChannelLayerTile) (tbl tbl' : table)
    (t : ChannelLayerTile) :
  add_multiple tbl tiles = Ok tbl' ->
  t ∈ tiles -> tile_key t ∈ row_key <$> tbl'.
Proof.
  revert tbl. induction tiles as [|t' tiles IH]; intros tbl; simpl.
  - intros _ H. inversion H.
  - destruct (parameters t') as [r|e] eqn:Ep; [|done]. simpl.
    destruct (insert tbl r) as [tbl1|e] eqn:E; [|done]. simpl.
    apply insert_ok in E as [_ ->].
    intros H Hin. apply elem_of_cons in Hin as [->|Hin].
    + apply (add_multiple_keeps_keys _ _ _ _ H).
      rewrite fmap_app. apply elem_of_app. right.
      rewrite <- (parameters_key _ _ Ep). simpl. left.
    + by apply (IH _ H).
Qed.

Lemma add_multiple_conflict (tiles : list ChannelLayerTile) (tbl : table)
    (t : ChannelLayerTile) :
  Forall (fun t' => _pixels t' <> None) tiles ->
  t ∈ tiles -> tile_key t ∈ row_key <$> tbl ->
  add_multiple tbl tiles = Raise IntegrityError.
Proof.
  revert tbl. induction tiles as [|t' tiles IH]; intros tbl Hpx Hin Hk.
  - inversion Hin.
  - apply Forall_cons in Hpx as [Hp Hpx]. simpl.
    unfold parameters at 1. destruct (_pixels t') as [px|] eqn:Et; [|done].
    simpl. unfold insert.
    match goal with |- context [has_key tbl ?k] =>
      destruct (has_key tbl k) eqn:E end; [done|]. simpl.
    apply elem_of_cons in Hin as [->|Hin].
    + apply has_key_false in E. exfalso. apply E. exact Hk.
    + apply IH; [done|done|]. rewrite fmap_app. apply elem_of_app. by left.
Qed.

(** C4: on a table that satisfies its primary key, adding two tiles of
    the same key one after the other with [add] succeeds and leaves
    exactly one row for that key, which holds the pixels of the second
    tile; [add_multiple] fails on every tile whose key is in the table, in
    particular when it is called again with a tile of a key it has
    inserted. *)
Theorem add_upserts_add_multiple_inserts
    (tbl : table) (t1 t2 : ChannelLayerTile) (p1 p2 : blob) :
  pkey_holds tbl ->
  tile_key t1 = tile_key t2 ->
  _pixels t1 = Some p1 ->
  _pixels t2 = Some p2 ->
  (exists tbl2,
      (do tbl1 <- add tbl t1; add tbl1 t2) = Ok tbl2
      /\ rows_of tbl2 (tile_key t1)
         = [MkRow (channel_layer_id t2) (z t2) (y t2) (x t2) p2]
      /\ pkey_holds tbl2)
  /\ (forall tiles,
        Forall (fun t => _pixels t <> None) tiles ->
        t2 ∈ tiles -> tile_key t2 ∈ row_key <$> tbl ->
        add_multiple tbl tiles = Raise IntegrityError)
  /\ (forall tiles tiles' tbl',
        add_multiple tbl tiles = Ok tbl' ->
        t1 ∈ tiles -> t2 ∈ tiles' ->
        Forall (fun t => _pixels t <> None) tiles' ->
        add_multiple tbl' tiles' = Raise IntegrityError).
Proof.
  intros Hpk Hkey Hp1 Hp2. split; [|split].
  - unfold add, parameters. rewrite Hp1, Hp2. simpl.
    eexists. split; [reflexivity|].
    set (r1 := MkRow (channel_layer_id t1) (z t1) (y t1) (x t1) p1).
    set (r2 := MkRow (channel_layer_id t2) (z t2) (y t2) (x t2) p2).
    assert (row_key r2 = tile_key t1) as Hr2 by (by rewrite Hkey).
    split.
    + rewrite <- Hr2. apply upsert_rows_of. by apply upsert_pkey_holds.
    + by do 2 apply upsert_pkey_holds.
  - intros tiles Hpx Hin Hk. by apply (add_multiple_conflict tiles tbl t2).
  - intros tiles tiles' tbl' Hok Hin1 Hin2 Hpx.
    apply (add_multiple_conflict tiles' tbl' t2); [done|done|].
    rewrite <- Hkey. by apply (add_multiple_adds_keys tiles tbl).
Qed.

(** Witness of C4 on the empty table and the tile of key (0, 1, 2, 3). *)
Lemma add_upserts_add_multiple_inserts_witness :
  let t1 := MkTile 2 0 3 1 (Some [Byte.x01]) in
  let t2 := MkTile 2 0 3 1 (Some [Byte.x02]) in
  (do tbl1 <- add [] t1; add tbl1 t2) = Ok [MkRow 1 2 0 3 [Byte.x02]]
  /\ (do tbl1 <- add_multiple [] [t1]; add_multiple tbl1 [t2])
     = Raise IntegrityError.
Proof.
  intros t1 t2.
  destruct (add_upserts_add_multiple_inserts [] t1 t2 [Byte.x01] [Byte.x02])
    as ((tbl2 & Hadd & _) & _ & Htwice);
    [apply NoDup_nil_2 | reflexivity | reflexivity | reflexivity |].
  split.
  - reflexivity.
  - assert (add_multiple [] [t1] = Ok [MkRow 1 2 0 3 [Byte.x01]]) as H1
      by reflexivity.
    change (add_multiple [MkRow 1 2 0 3 [Byte.x01]] [t2] = Raise IntegrityError).
    apply (Htwice [t1] [t2]); [exact H1 | left | left |].
    apply Forall_cons. split; [discriminate | apply Forall_nil_2].
Defined.

End TileProps.

(** ** Legacy image utilities: histogram of sampled sites *)

Module ImageUtilProps.
Import ImageUtil.

Lemma pool_step {A} (pool : list A) (j : nat) (picked moved : A) :
  pool !! j = Some picked ->
  last pool = Some moved ->
  pool ≡ₚ picked :: take (length pool - 1) (<[j := moved]> pool).
Proof.
  intros Hj Hl. apply last_Some in Hl as [front ->].
  rewrite length_app. simpl length.
  replace (length front + 1 - 1)%nat with (length front) by lia.
  destruct (decide (j < length front)%nat) as [Hlt|Hge].
  - rewrite insert_app_l by done.
    rewrite take_app_length' by (by rewrite length_insert).
    rewrite lookup_app_l in Hj by done.
    rewrite insert_take_drop by done.
    rewrite <- (take_drop_middle front j picked Hj) at 1.
    set (a := take j front). set (b := drop (S j) front).
    rewrite <- app_assoc. simpl.
    rewrite <- Permutation_middle. apply Permutation_skip.
    apply Permutation_app_head.
    symmetry. apply Permutation_cons_append.
  - apply lookup_lt_Some in Hj as Hlen. rewrite length_app in Hlen.
    simpl in Hlen. assert (j = length front) as -> by lia.
    rewrite list_lookup_middle in Hj by done. injection Hj as ->.
    rewrite insert_app_r_alt by done. rewrite Nat.sub_diag. simpl.
    rewrite take_app_length. symmetry. apply Permutation_cons_append.
Qed.

Lemma sample_pool_spec {A} (rng : nat -> nat) (k i : nat) (pool : list A) :
  NoDup pool -> (k <= length pool)%nat ->
  length (sample_pool rng i k pool) = k
  /\ NoDup (sample_pool rng i k pool)
  /\ (forall x, x ∈ sample_pool rng i k pool -> x ∈ pool).
Proof.
  revert i pool. induction k as [|k IH]; intros i pool Hnd Hk; simpl.
  - split; [done|]. split; [apply NoDup_nil_2|]. intros x Hx. inversion Hx.
  - assert (rng i mod length pool < length pool)%nat as Hj
      by (apply Nat.mod_upper_bound; lia).
    destruct (lookup_lt_is_Some_2 pool _ Hj) as [picked Hp]. rewrite Hp.
    destruct (last pool) as [moved|] eqn:Hl.
    2: { apply last_None in Hl. subst pool. simpl in Hk. lia. }
    pose proof (pool_step pool _ picked moved Hp Hl) as Hperm.
    set (pool' := take (length pool - 1) (<[_ := moved]> pool)) in *.
    assert (NoDup (picked :: pool')) as Hnd' by (by rewrite <- Hperm).
    apply NoDup_cons in Hnd' as [Hnotin Hnd'].
    assert (length pool = S (length pool')) as Hlen
      by (by rewrite Hperm at 1).
    destruct (IH (S i) pool' Hnd' ltac:(lia)) as (H1 & H2 & H3).
    split; [simpl; by rewrite H1|]. split.
    + apply NoDup_cons. split; [|done]. intros Hin. by apply Hnotin, H3.
    + intros x Hx. rewrite Hperm. apply elem_of_cons in Hx as [->|Hx].
      * left.
      * right. by apply H3.
Qed.

Lemma ceil_log4_from_bound (m fuel e : nat) :
  (m <= e + fuel)%nat -> (1 <= m)%nat ->
  (m <= 4 ^ ceil_log4_from fuel e m)%nat.
Proof.
  revert e. induction fuel as [|fuel IH]; intros e Hm H1; simpl.
  - assert (e < 4 ^ e)%nat by (apply Nat.pow_gt_lin_r; lia). lia.
  - destruct (Nat.leb_spec m (4 ^ e)); [done|]. apply IH; lia.
Qed.

(** [ceil_log4 m] is the least exponent [e] with [m <= 4 ^ e]. *)
Lemma ceil_log4_from_least (m fuel e : nat) :
  (forall e', e' < e -> 4 ^ e' < m)%nat ->
  (forall e', e' < ceil_log4_from fuel e m -> 4 ^ e' < m)%nat.
Proof.
  revert e. induction fuel as [|fuel IH]; intros e He; simpl; [done|].
  destruct (Nat.leb_spec m (4 ^ e)); [done|]. apply IH.
  intros e' He'. destruct (decide (e' = e)) as [->|]; [done|]. apply He. lia.
Qed.

Lemma ceil_log4_spec (m : nat) :
  (1 <= m)%nat ->
  (m <= 4 ^ ceil_log4 m)%nat
  /\ (forall e', e' < ceil_log4 m -> 4 ^ e' < m)%nat.
Proof.
  intros H1. unfold ceil_log4. split.
  - apply ceil_log4_from_bound; lia.
  - apply ceil_log4_from_least. intros e' He'. lia.
Qed.

(** An index below [n] that is not selected exists as long as fewer than
    [n] indices are selected. *)
Lemma fresh_index (n : nat) (selected : list nat) :
  (length selected < n)%nat ->
  exists j, (j < n)%nat /\ (j ∉ selected).
Proof.
  intros Hlen.
  destruct (decide (Forall (fun j => j ∈ selected) (seq 0 n))) as [Hall|Hex].
  - assert (seq 0 n ⊆+ selected) as Hsub.
    { apply NoDup_submseteq; [apply NoDup_seq|].
      intros x Hx. by apply (proj1 (Forall_forall _ _) Hall). }
    apply submseteq_length in Hsub. rewrite length_seq in Hsub. lia.
  - apply not_Forall_Exists in Hex; [|intros x; apply _].
    apply Exists_exists in Hex as (j & Hj & Hnot).
    exists j. apply elem_of_seq in Hj. split; [lia|done].
Qed.

(** The search finds the first draw that is not selected, with any
    amount of fuel that reaches this draw. *)
Lemma draw_fresh_hit (rng : nat -> nat) (n : nat) (selected : list nat)
    (d i : nat) :
  (0 < n)%nat ->
  (rng (i + d) mod n)%nat ∉ selected ->
  exists j i',
    (j < n)%nat /\ (j ∉ selected)
    /\ forall fuel, (d < fuel)%nat ->
         draw_fresh rng fuel i n selected = Some (j, i').
Proof.
  intros Hn. revert i. induction d as [|d IH]; intros i Hfresh.
  - rewrite Nat.add_0_r in Hfresh.
    exists (rng i mod n)%nat, (S i). split; [by apply Nat.mod_upper_bound; lia|].
    split; [done|]. intros [|fuel] Hf; [lia|]. simpl.
    by rewrite bool_decide_eq_false_2.
  - destruct (decide ((rng i mod n)%nat ∈ selected)) as [Hin|Hnot].
    + destruct (IH (S i)) as (j & i' & Hj & Hjs & Hrun).
      { by replace (S i + d)%nat with (i + S d)%nat by lia. }
      exists j, i'. split; [done|]. split; [done|].
      intros [|fuel] Hf; [lia|]. simpl.
      rewrite bool_decide_eq_true_2 by done. apply Hrun. lia.
    + exists (rng i mod n)%nat, (S i).
      split; [by apply Nat.mod_upper_bound; lia|].
      split; [done|]. intros [|fuel] Hf; [lia|]. simpl.
      by rewrite bool_decide_eq_false_2.
Qed.

(** The second way of [sample] comes to an end when the draws give every
    index again and again, and selects [k] distinct indices below [n]
    that were not selected before. *)
Lemma sample_set_spec (rng : nat -> nat) (n k i : nat) (selected : list nat) :
  recurrent rng n ->
  (length selected + k <= n)%nat ->
  exists fuel0 l,
    length l = k
    /\ NoDup l
    /\ (forall p, p ∈ l -> (p < n)%nat /\ (p ∉ selected))
    /\ forall fuel, (fuel0 <= fuel)%nat ->
         sample_set rng fuel i n k selected = Some l.
Proof.
  intros Hrec. revert i selected.
  induction k as [|k IH]; intros i selected Hlen.
  - exists 0%nat, []. split; [done|]. split; [apply NoDup_nil_2|].
    split; [|done]. intros p Hp. inversion Hp.
  - destruct (fresh_index n selected) as (j0 & Hj0 & Hfresh0); [lia|].
    destruct (Hrec i j0 Hj0) as [d Hd].
    destruct (draw_fresh_hit rng n selected d i) as (j & i' & Hj & Hjs & Hrun);
      [lia|by rewrite Hd|].
    destruct (IH i' (j :: selected)) as (fuel1 & l & Hl & Hnd & Hin & Hset);
      [simpl; lia|].
    exists (S d `max` fuel1)%nat, (j :: l). split; [simpl; by rewrite Hl|].
    split.
    { apply NoDup_cons. split; [|done]. intros Hjl.
      destruct (Hin j Hjl) as [_ Hnot]. apply Hnot. left. }
    split.
    { intros p Hp. apply elem_of_cons in Hp as [->|Hp]; [done|].
      destruct (Hin p Hp) as [Hpn Hnot]. split; [done|].
      intros Hps. apply Hnot. by right. }
    intros fuel Hf. simpl. rewrite Hrun by lia. by rewrite Hset by lia.
Qed.

(** Whatever the draws, the positions that the second way returns are
    [k] positions below [n]. *)
Lemma draw_fresh_bound (rng : nat -> nat) (n : nat) (selected : list nat)
    (fuel i j i' : nat) :
  (0 < n)%nat ->
  draw_fresh rng fuel i n selected = Some (j, i') -> (j < n)%nat.
Proof.
  intros Hn. revert i. induction fuel as [|fuel IH]; intros i; simpl; [done|].
  case_bool_decide; [apply IH|]. intros [= <- _].
  apply Nat.mod_upper_bound. lia.
Qed.

Lemma sample_set_bound (rng : nat -> nat) (n k fuel i : nat)
    (selected l : list nat) :
  (0 < n)%nat ->
  sample_set rng fuel i n k selected = Some l ->
  length l = k /\ (forall p, p ∈ l -> (p < n)%nat).
Proof.
  intros Hn. revert i selected l.
  induction k as [|k IH]; intros i selected l; simpl.
  - intros [= <-]. split; [done|]. intros p Hp. inversion Hp.
  - destruct (draw_fresh rng fuel i n selected) as [[j i']|] eqn:Hd; [|done].
    destruct (sample_set rng fuel i' n k (j :: selected)) as [l'|] eqn:Hs;
      [|done].
    intros [= <-]. destruct (IH _ _ _ Hs) as [Hl Hin].
    split; [simpl; by rewrite Hl|]. intros p Hp.
    apply elem_of_cons in Hp as [->|Hp]; [|by apply Hin].
    by apply (draw_fresh_bound _ _ _ _ _ _ _ Hn Hd).
Qed.

Lemma sample_positions_bound (rng : nat -> nat) (fuel n k : nat)
    (positions : list nat) :
  (k <= n)%nat ->
  sample_positions rng fuel n k = Some positions ->
  length positions = k /\ (forall p, p ∈ positions -> (p < n)%nat).
Proof.
  intros Hk. unfold sample_positions.
  destruct (Nat.leb_spec n (setsize k)) as [Hsmall|Hlarge].
  - intros [= <-].
    destruct (sample_pool_spec rng k 0 (seq 0 n)) as (H1 & H2 & H3).
    { apply NoDup_seq. }
    { by rewrite length_seq. }
    split; [done|]. intros p Hp. apply H3, elem_of_seq in Hp. lia.
  - apply sample_set_bound. unfold setsize in Hlarge.
    destruct (5 <? k)%nat; lia.
Qed.

(** [sample] selects [k] pairwise distinct positions of the population,
    for every amount of fuel from some amount on. *)
Lemma sample_positions_spec (rng : nat -> nat) (n k : nat) :
  (k <= n)%nat ->
  ((setsize k < n)%nat -> recurrent rng n) ->
  exists fuel0 positions,
    length positions = k
    /\ NoDup positions
    /\ (forall p, p ∈ positions -> (p < n)%nat)
    /\ forall fuel, (fuel0 <= fuel)%nat ->
         sample_positions rng fuel n k = Some positions.
Proof.
  intros Hk Hrec. unfold sample_positions.
  destruct (Nat.leb_spec n (setsize k)) as [Hsmall|Hlarge].
  - destruct (sample_pool_spec rng k 0 (seq 0 n)) as (H1 & H2 & H3).
    { apply NoDup_seq. }
    { by rewrite length_seq. }
    exists 0%nat, (sample_pool rng 0 k (seq 0 n)).
    split; [done|]. split; [done|]. split; [|done]. intros p Hp.
    apply H3, elem_of_seq in Hp. lia.
  - destruct (sample_set_spec rng n k 0 [] (Hrec Hlarge))
      as (fuel0 & l & Hl & Hnd & Hin & Hset); [simpl; lia|].
    exists fuel0, l. split; [done|]. split; [done|]. split; [|done].
    intros p Hp. by destruct (Hin p Hp).
Qed.

Lemma omap_lookup_length {A} (population : list A) (ps : list nat) :
  (forall p, p ∈ ps -> (p < length population)%nat) ->
  length (omap (fun p => population !! p) ps) = length ps.
Proof.
  induction ps as [|p ps IH]; intros H; [done|]. simpl.
  destruct (lookup_lt_is_Some_2 population p) as [x Hx]; [apply H; left|].
  rewrite Hx. simpl. f_equal. apply IH. intros q Hq. apply H. by right.
Qed.

Lemma omap_lookup_total {A} (population : list A) (ps : list nat) :
  (forall p, p ∈ ps -> (p < length population)%nat) ->
  Some <$> omap (fun p => population !! p) ps = (fun p => population !! p) <$> ps.
Proof.
  induction ps as [|p ps IH]; intros H; [done|]. simpl.
  destruct (lookup_lt_is_Some_2 population p) as [x Hx]; [apply H; left|].
  rewrite Hx. simpl. f_equal. apply IH. intros q Hq. apply H. by right.
Qed.

Section Histogram.
Variable rng : nat -> nat.
Variable bin_count : string -> nat -> N.

(** The sum of the [uint32] accumulator and the counts of a file is
    refused. *)
Lemma iadd_histogram (f : string) :
  iadd (np_zeros 256) (histogram bin_count f) = Raise TypeError.
Proof. reflexivity. Qed.

(** The loop ends at the first file. *)
Lemma accumulate_zeros (files : list string) :
  accumulate bin_count (np_zeros 256) files
  = match files with
    | [] => (Ok (np_zeros 256), [])
    | f :: _ => (Raise TypeError, [f])
    end.
Proof.
  destruct files as [|f rest]; [done|].
  cbn [accumulate]. by rewrite iadd_histogram.
Qed.

Lemma sample_raises (fuel : nat) (filenames : list string) (k : Z) :
  k < 0 \/ Z.of_nat (length filenames) < k ->
  sample rng fuel filenames k = Some (Raise ValueError).
Proof.
  intros Hk. unfold sample.
  destruct (Z.leb_spec 0 k); destruct (Z.leb_spec k (Z.of_nat (length filenames)));
    try lia; reflexivity.
Qed.

Lemma sample_returns (filenames : list string) (k : Z) :
  0 <= k <= Z.of_nat (length filenames) ->
  ((setsize (Z.to_nat k) < length filenames)%nat ->
   recurrent rng (length filenames)) ->
  exists fuel0 positions files,
    length positions = Z.to_nat k
    /\ NoDup positions
    /\ Some <$> files = (fun p => filenames !! p) <$> positions
    /\ forall fuel, (fuel0 <= fuel)%nat ->
         sample rng fuel filenames k = Some (Ok files).
Proof.
  intros [H0 Hk] Hrec.
  destruct (sample_positions_spec rng (length filenames) (Z.to_nat k))
    as (fuel0 & positions & Hlen & Hnd & Hlt & Hrun); [lia|done|].
  exists fuel0, positions, (omap (fun p => filenames !! p) positions).
  split; [done|]. split; [done|]. split; [by apply omap_lookup_total|].
  intros fuel Hf. unfold sample.
  destruct (Z.leb_spec 0 k); [|lia].
  destruct (Z.leb_spec k (Z.of_nat (length filenames))); [|lia].
  cbn [andb negb]. by rewrite Hrun.
Qed.

(** C10: [hist_sample_from_sites] raises [ValueError] without reading
    any file when the list holds fewer than [nr_to_sample] (by default 5)
    names.  When it holds at least that many, the sampling selects the
    files at [nr_to_sample] pairwise distinct positions of the list (for
    every population when the draws give every index again and again),
    but no histogram is returned for them: the sum of the [uint32]
    accumulator and the signed counts of the first sampled file is
    refused with [TypeError], after this one file was read.  The call
    returns an array only for [nr_to_sample = 0]: 256 zeros. *)
Theorem hist_sample_from_sites_spec (filenames : list string)
    (nr_to_sample : option Z) :
  let k := default 5 nr_to_sample in
  let n := length filenames in
  (k < 0 \/ Z.of_nat n < k ->
   forall fuel,
     hist_sample_from_sites rng bin_count fuel filenames nr_to_sample
     = Some (Raise ValueError, []))
  /\ (0 <= k <= Z.of_nat n ->
      ((setsize (Z.to_nat k) < n)%nat -> recurrent rng n) ->
      exists fuel0 positions files,
        length positions = Z.to_nat k
        /\ NoDup positions
        /\ Some <$> files = (fun p => filenames !! p) <$> positions
        /\ forall fuel, (fuel0 <= fuel)%nat ->
             sample rng fuel filenames k = Some (Ok files)
             /\ hist_sample_from_sites rng bin_count fuel filenames nr_to_sample
                = Some match files with
                       | [] => (Ok (MkArray uint32 (replicate 256 0)), [])
                       | f :: _ => (Raise TypeError, [f])
                       end)
  /\ (forall fuel hist read,
        hist_sample_from_sites rng bin_count fuel filenames nr_to_sample
        = Some (Ok hist, read) ->
        k = 0 /\ read = [] /\ hist = MkArray uint32 (replicate 256 0)).
Proof.
  intros k n. unfold hist_sample_from_sites. fold k. split; [|split].
  - intros Hk fuel. by rewrite sample_raises.
  - intros Hk Hrec.
    destruct (sample_returns filenames k Hk Hrec)
      as (fuel0 & positions & files & Hlen & Hnd & Hfiles & Hrun).
    exists fuel0, positions, files. split; [done|]. split; [done|].
    split; [done|]. intros fuel Hf. rewrite (Hrun fuel Hf). split; [done|].
    rewrite accumulate_zeros. by destruct files.
  - intros fuel hist read.
    destruct (sample rng fuel filenames k) as [[files|e]|] eqn:Hs; [|done|done].
    rewrite accumulate_zeros. destruct files as [|f rest]; [|done].
    intros [= <- <-]. split; [|done].
    unfold sample in Hs.
    destruct (Z.leb_spec 0 k); [|done].
    destruct (Z.leb_spec k (Z.of_nat (length filenames))); [|done].
    cbn [andb negb] in Hs.
    destruct (sample_positions _ _ _ _) as [positions|] eqn:Hp; [|done].
    injection Hs as Hs.
    apply sample_positions_bound in Hp as [Hlen Hlt]; [|lia].
    apply (f_equal length) in Hs. rewrite omap_lookup_length in Hs by done.
    simpl in Hs. lia.
Qed.
End Histogram.

(** Witness of C10: two files of which five are asked for by default; six
    files, sampled the first way; thirty files, sampled the second way
    with the draws [0, 1, 2, ...]. *)
Lemma hist_sample_from_sites_spec_witness :
  let count (f : string) (b : nat) : N := if (b =? 0)%nat then 7%N else 0%N in
  let rng (i : nat) := i in
  (forall fuel,
     hist_sample_from_sites rng count fuel ["a"; "b"] None
     = Some (Raise ValueError, []))
  /\ (exists fuel0, forall fuel, (fuel0 <= fuel)%nat ->
        hist_sample_from_sites rng count fuel
          ["a"; "b"; "c"; "d"; "e"; "f"] None
        = Some (Raise TypeError, ["a"]))
  /\ (exists fuel0, forall fuel, (fuel0 <= fuel)%nat ->
        hist_sample_from_sites rng count fuel thirty_files None
        = Some (Raise TypeError, ["A"])).
Proof.
  intros count rng. split; [|split].
  - apply (hist_sample_from_sites_spec rng count ["a"; "b"] None).
    right. simpl. lia.
  - destruct (hist_sample_from_sites_spec rng count
                ["a"; "b"; "c"; "d"; "e"; "f"] None) as (_ & H & _).
    destruct H as (fuel0 & positions & files & _ & _ & _ & Hrun).
    { simpl. lia. }
    { intros Hlarge. vm_compute in Hlarge. lia. }
    exists fuel0. intros fuel Hf. destruct (Hrun fuel Hf) as [Hs Hh].
    rewrite Hh. vm_compute in Hs. injection Hs as <-. reflexivity.
  - destruct (hist_sample_from_sites_spec rng count thirty_files None)
      as (_ & H & _).
    destruct H as (fuel0 & positions & files & Hlen & _ & Hfiles & Hrun).
    { simpl. lia. }
    { intros _ i j Hj. change (length thirty_files) with 30%nat in *.
      exists (j + 29 * i)%nat. unfold rng.
      replace (i + (j + 29 * i))%nat with (j + i * 30)%nat by lia.
      rewrite Nat.Div0.mod_add. by apply Nat.mod_small. }
    destruct (Hrun (5 + fuel0)%nat) as [Hs _]; [lia|].
    vm_compute in Hs. injection Hs as <-.
    exists fuel0. intros fuel Hf. by destruct (Hrun fuel Hf) as [_ ->].
Defined.

End ImageUtilProps.

(** ** User configuration: construction and iteration *)

Module CfgProps.
Import Cfg.

Section UserConfiguration.
Context {RawArgs Args ArgsDict : Type}.
Variable load_args : string -> RawArgs -> result Args.
Variable args_dict : Args -> ArgsDict.
Variable path_exists : string -> bool.

Local Abbreviation UserConfiguration := (Cfg.UserConfiguration Args).
Local Abbreviation setting := (Cfg.setting RawArgs).
Local Abbreviation __init__ := (Cfg.__init__ RawArgs Args load_args path_exists).
Local Abbreviation init_loop := (Cfg.init_loop RawArgs Args load_args).
Local Abbreviation setattr := (Cfg.setattr RawArgs Args load_args).
Local Abbreviation __iter__ := (Cfg.__iter__ Args ArgsDict args_dict).
Local Abbreviation whitelisted := (Cfg.whitelisted RawArgs).

Lemma iter_all_set (self : UserConfiguration) (pf : value)
    (wd : WorkflowDescription Args) :
  _plate_format Args self = Some pf ->
  _workflow Args self = Some wd ->
  snd (fst (__iter__ self)) = whitelisted_items Args ArgsDict args_dict self pf wd
  /\ snd (__iter__ self) = None.
Proof.
  destruct self as [d s p l f w]. simpl. intros -> ->.
  split; vm_compute; reflexivity.
Qed.

Lemma iter_no_plate_format (self : UserConfiguration) :
  _plate_format Args self = None ->
  snd (fst (__iter__ self))
  = [("layers_dir",
      ItemStr ArgsDict (default (os_path_join (experiment_dir Args self) "layers")
                       (_layers_dir Args self)))]
  /\ snd (__iter__ self) = Some AttributeError.
Proof.
  destruct self as [d s p l f w]. simpl. intros ->.
  destruct w; split; vm_compute; reflexivity.
Qed.

Lemma iter_no_workflow (self : UserConfiguration) (pf : value) :
  _plate_format Args self = Some pf ->
  _workflow Args self = None ->
  snd (__iter__ self) = Some AttributeError
  /\ length (snd (fst (__iter__ self))) = 4%nat.
Proof.
  destruct self as [d s p l f w]. simpl. intros -> ->.
  split; vm_compute; reflexivity.
Qed.

Lemma init_loop_ignores (cfg_settings : list (string * setting))
    (self : UserConfiguration) :
  init_loop self (filter whitelisted cfg_settings) = init_loop self cfg_settings.
Proof.
  revert self. induction cfg_settings as [|[k v] rest IH]; intros self; [done|].
  rewrite filter_cons. unfold whitelisted at 1. cbn [fst init_loop].
  destruct (decide (k ∈ _PERSISTENT_ATTRS)) as [Hk|Hk].
  - cbn [init_loop]. rewrite (bool_decide_eq_true_2 _ Hk).
    destruct (setattr self k v) as [self'|e]; [|done]. simpl. apply IH.
  - rewrite (bool_decide_eq_false_2 _ Hk). apply IH.
Qed.

Lemma setattr_attributes (self self' : UserConfiguration) (k : string)
    (v : setting) :
  k ∈ _PERSISTENT_ATTRS ->
  setattr self k v = Ok self' ->
  experiment_dir Args self' = experiment_dir Args self
  /\ (is_Some (_plate_format Args self')
      <-> is_Some (_plate_format Args self) \/ k = "plate_format")
  /\ (is_Some (_workflow Args self')
      <-> is_Some (_workflow Args self) \/ k = "workflow").
Proof.
  intros Hk. unfold Cfg.setattr.
  destruct (String.eqb_spec k "workflow") as [->|Hw].
  { destruct v as [v|w]; [done|].
    destruct (WorkflowDescription_init _ _ _ w); [|done].
    intros [= <-]. simpl. split; [done|]. split.
    - split; [by left | intros [H|H]; [done | discriminate]].
    - split; [by right | by intros _]. }
  destruct (String.eqb_spec k "sources_dir") as [->|Hs].
  { destruct (as_dir _ v); [|done]. intros [= <-]. simpl.
    split; [done|]. split; (split; [by left | intros [H|H]; [done | discriminate]]). }
  destruct (String.eqb_spec k "plates_dir") as [->|Hp].
  { destruct (as_dir _ v); [|done]. intros [= <-]. simpl.
    split; [done|]. split; (split; [by left | intros [H|H]; [done | discriminate]]). }
  destruct (String.eqb_spec k "layers_dir") as [->|Hl].
  { destruct (as_dir _ v); [|done]. intros [= <-]. simpl.
    split; [done|]. split; (split; [by left | intros [H|H]; [done | discriminate]]). }
  destruct (String.eqb_spec k "plate_format") as [->|Hf].
  { destruct (as_plate_format _ v); [|done]. intros [= <-]. simpl.
    split; [done|]. split.
    - split; [by right | by intros _].
    - split; [by left | intros [H|H]; [done | discriminate]]. }
  exfalso. unfold _PERSISTENT_ATTRS in Hk.
  repeat (apply elem_of_cons in Hk as [Hk|Hk]; [done|]). inversion Hk.
Qed.

Lemma init_loop_attributes (cfg_settings : list (string * setting))
    (self cfg : UserConfiguration) :
  init_loop self cfg_settings = Ok cfg ->
  experiment_dir Args cfg = experiment_dir Args self
  /\ (is_Some (_plate_format Args cfg)
      <-> is_Some (_plate_format Args self)
          \/ supplied RawArgs "plate_format" cfg_settings)
  /\ (is_Some (_workflow Args cfg)
      <-> is_Some (_workflow Args self)
          \/ supplied RawArgs "workflow" cfg_settings).
Proof.
  unfold supplied.
  revert self. induction cfg_settings as [|[k v] rest IH]; intros self.
  - intros [= <-]. split; [done|].
    split; (split; [by left | intros [H|H]; [done | inversion H]]).
  - cbn [init_loop]. rewrite fmap_cons. cbn [fst].
    case_bool_decide as Hk.
    + destruct (setattr self k v) as [self'|e] eqn:E; [|done]. simpl.
      intros H. apply IH in H as (H1 & H2 & H3).
      destruct (setattr_attributes _ _ _ _ Hk E) as (S1 & S2 & S3).
      split; [congruence|].
      assert (k = "plate_format" <-> "plate_format" = k) by (split; congruence).
      assert (k = "workflow" <-> "workflow" = k) by (split; congruence).
      rewrite H2, H3, S2, S3, !elem_of_cons. tauto.
    + intros H. apply IH in H as (H1 & H2 & H3).
      assert ("plate_format" <> k) as Np
        by (intros <-; apply Hk; apply list_elem_of_In; simpl; tauto).
      assert ("workflow" <> k) as Nw
        by (intros <-; apply Hk; apply list_elem_of_In; simpl; tauto).
      split; [done|]. rewrite H2, H3, !elem_of_cons. tauto.
Qed.

Lemma iter_loop_keys (attrs : list string) (self : UserConfiguration)
    (k : string) (v : item ArgsDict) :
  (k, v) ∈ snd (fst (Cfg.iter_loop Args ArgsDict args_dict attrs self)) ->
  k ∈ _PERSISTENT_ATTRS.
Proof.
  revert self. induction attrs as [|attr rest IH]; intros self; cbn [iter_loop].
  - intros H. inversion H.
  - case_bool_decide as Hattr; [|apply IH].
    destruct (getattr Args ArgsDict args_dict self attr) as [self1 [x|e]];
      [|intros H; inversion H].
    destruct (getattr Args ArgsDict args_dict self1 attr) as [self2 [y|e]];
      [|intros H; inversion H].
    specialize (IH self2).
    destruct (Cfg.iter_loop Args ArgsDict args_dict rest self2)
      as [[self3 items] e].
    cbn [fst snd] in *. intros H.
    apply elem_of_cons in H as [[= -> ->]|H]; [done | by apply IH].
Qed.

Lemma not_yields_whitelist (self : UserConfiguration) (e : exn) :
  snd (__iter__ self) = Some e ->
  ~ yields_whitelist Args ArgsDict args_dict self.
Proof. intros H [H' _]. congruence. Qed.

(** C9, amended: when the construction succeeds, the keys outside the
    whitelist have had no effect; if [plate_format] and [workflow] were
    both supplied, iterating the object yields exactly the five
    whitelisted keys with their current values, the directories that were
    not supplied being defaulted and the workflow being expanded to its
    dictionary; if one of the two was not supplied, the iteration ends
    with [AttributeError] before it has yielded the five keys; in every
    case only whitelisted keys are yielded. *)
Theorem iter_yields_whitelist_when_set (dir : string)
    (cfg_settings : list (string * setting)) (cfg : UserConfiguration) :
  __init__ dir cfg_settings = Ok cfg ->
  __init__ dir (filter whitelisted cfg_settings) = Ok cfg
  /\ (supplied RawArgs "plate_format" cfg_settings ->
      supplied RawArgs "workflow" cfg_settings ->
      exists pf wd,
        _plate_format Args cfg = Some pf /\ _workflow Args cfg = Some wd
        /\ snd (fst (__iter__ cfg))
           = whitelisted_items Args ArgsDict args_dict cfg pf wd
        /\ snd (__iter__ cfg) = None
        /\ yields_whitelist Args ArgsDict args_dict cfg)
  /\ (~ (supplied RawArgs "plate_format" cfg_settings
         /\ supplied RawArgs "workflow" cfg_settings) ->
      snd (__iter__ cfg) = Some AttributeError
      /\ ~ yields_whitelist Args ArgsDict args_dict cfg)
  /\ (forall k v, (k, v) ∈ snd (fst (__iter__ cfg)) -> k ∈ _PERSISTENT_ATTRS).
Proof.
  unfold Cfg.__init__. destruct (path_exists dir); [|done]. cbn [negb].
  intros Hinit. split; [by rewrite init_loop_ignores|].
  match goal with
  | |- ?A /\ ?B /\ ?C =>
      cut (A /\ B);
      [intros [HA HB]; split; [exact HA|]; split; [exact HB|];
       intros k v; apply iter_loop_keys |]
  end.
  destruct (init_loop_attributes _ _ _ Hinit) as (_ & Hpf & Hwf).
  simpl in Hpf, Hwf. split.
  - intros Sp Sw.
    destruct (proj2 Hpf (or_intror Sp)) as [pf Epf].
    destruct (proj2 Hwf (or_intror Sw)) as [wd Ewd].
    destruct (iter_all_set cfg pf wd Epf Ewd) as [Hitems Hnone].
    exists pf, wd. repeat split; try done.
    rewrite Hitems. unfold whitelisted_items, _PERSISTENT_ATTRS. simpl.
    apply NoDup_Permutation.
    + by apply (bool_decide_unpack _).
    + by apply (bool_decide_unpack _).
    + intros k. rewrite !list_elem_of_In. simpl. tauto.
  - intros Hnot.
    assert (snd (__iter__ cfg) = Some AttributeError) as Hexn.
    { destruct (_plate_format Args cfg) as [pf|] eqn:Epf.
      - destruct (_workflow Args cfg) as [wd|] eqn:Ewd.
        + exfalso. apply Hnot. split.
          * destruct (proj1 Hpf) as [[? [=]]|]; [by eexists | done].
          * destruct (proj1 Hwf) as [[? [=]]|]; [by eexists | done].
        + by apply (iter_no_workflow cfg pf).
      - by apply iter_no_plate_format. }
    split; [done | by apply (not_yields_whitelist _ AttributeError)].
Qed.

End UserConfiguration.

(** Counterexample to C9 as stated: constructed from [sources_dir]
    alone, the object yields [layers_dir] and then raises
    [AttributeError]. *)
Lemma iter_without_plate_format_raises :
  let exists_ (_ : string) := true in
  let load (_ : string) (_ : unit) : result unit := Ok tt in
  exists cfg,
    Cfg.__init__ unit unit load exists_ "/data/experiment"
      [("sources_dir", Plain unit (VStr "/data/src"))] = Ok cfg
    /\ Cfg.__iter__ unit unit id cfg
       = (MkUserConfiguration unit "/data/experiment" (Some "/data/src") None
            (Some "/data/experiment/layers") None None,
          [("layers_dir", ItemStr unit "/data/experiment/layers")],
          Some AttributeError)
    /\ ~ yields_whitelist unit unit id cfg.
Proof.
  intros exists_ load. eexists. split; [reflexivity|]. split.
  - vm_compute. reflexivity.
  - apply (not_yields_whitelist id _ AttributeError). vm_compute. reflexivity.
Qed.

(** Witness of C9 as amended: plate format 96, a workflow without stages
    and a key that is not whitelisted. *)
Lemma iter_yields_whitelist_when_set_witness :
  let exists_ (_ : string) := true in
  let load (_ : string) (_ : unit) : result unit := Ok tt in
  let cfg_settings :=
    [("plate_format", Plain unit (VInt 96));
     ("colour", Plain unit (VStr "red"));
     ("workflow", Mapping unit (MkWorkflowKwargs unit (Some [])))] in
  exists cfg,
    Cfg.__init__ unit unit load exists_ "/data/experiment" cfg_settings = Ok cfg
    /\ yields_whitelist unit unit id cfg.
Proof.
  intros exists_ load cfg_settings. eexists. split; [reflexivity|].
  destruct (iter_yields_whitelist_when_set load id exists_ "/data/experiment"
              cfg_settings _ eq_refl) as (_ & Hset & _ & _).
  destruct Hset as (pf & wd & _ & _ & _ & _ & Hy).
  - apply list_elem_of_In. simpl. tauto.
  - apply list_elem_of_In. simpl. tauto.
  - exact Hy.
Defined.

End CfgProps.

(** ** Image extraction: batches of mappings *)

Module ImExtractProps.
Import ImExtract.

Lemma chunk_concat {A} (n fuel : nat) (li : list A) :
  (1 <= n)%nat -> (length li <= fuel)%nat -> concat (chunk fuel n li) = li.
Proof.
  intros Hn. revert li. induction fuel as [|fuel IH]; intros li Hlen.
  - destruct li; [done | simpl in Hlen; lia].
  - destruct li as [|a li]; [done|].
    cbn [chunk concat]. rewrite IH.
    + apply take_drop.
    + rewrite length_drop. simpl in *. lia.
Qed.

Lemma chunk_lengths {A} (n fuel : nat) (li : list A) :
  Forall (fun c => (length c <= n)%nat) (chunk fuel n li).
Proof.
  revert li. induction fuel as [|fuel IH]; intros li; [apply Forall_nil_2|].
  destruct li as [|a li]; [apply Forall_nil_2|].
  cbn [chunk]. apply Forall_cons. split; [|apply IH].
  rewrite length_take. lia.
Qed.

Lemma chunk_fmap {A B} (g : A -> B) (n fuel : nat) (li : list A) :
  chunk fuel n (g <$> li) = (fun c : list A => g <$> c) <$> chunk fuel n li.
Proof.
  revert li. induction fuel as [|fuel IH]; intros li; [done|].
  destruct li as [|a li]; [done|].
  change (g <$> a :: li) with (g a :: (g <$> li)).
  cbn [chunk]. change (g a :: (g <$> li)) with (g <$> a :: li).
  by rewrite <- fmap_take, <- fmap_drop, IH.
Qed.

Lemma chunk_elem_of {A} (n fuel : nat) (li c : list A) (x : A) :
  c ∈ chunk fuel n li -> x ∈ c -> x ∈ li.
Proof.
  revert li. induction fuel as [|fuel IH]; intros li Hc Hx; [inversion Hc|].
  destruct li as [|a li]; [inversion Hc|].
  cbn [chunk] in Hc. rewrite <- (take_drop n (a :: li)).
  apply elem_of_app. apply elem_of_cons in Hc as [->|Hc].
  - by left.
  - right. by apply IH.
Qed.

Lemma concat_nil_groups {A K} (ks : list K) :
  concat ((fun _ : K => @nil A) <$> ks) = [].
Proof. induction ks; [done | by simpl]. Qed.

Section Grouping.
Context {A : Type} (key : A -> Z).

Lemma groups_unchanged (ks : list Z) (m : A) (tbl : list A) :
  key m ∉ ks ->
  (fun s => filter (fun x => key x = s) (m :: tbl)) <$> ks
  = (fun s => filter (fun x => key x = s) tbl) <$> ks.
Proof.
  intros Hk. apply list_fmap_ext. intros i s Hs.
  rewrite filter_cons_False; [done|].
  intros <-. apply Hk. by apply list_elem_of_lookup_2 in Hs.
Qed.

Lemma groups_cons (ks : list Z) (m : A) (tbl : list A) :
  NoDup ks -> key m ∈ ks ->
  concat ((fun s => filter (fun x => key x = s) (m :: tbl)) <$> ks)
  ≡ₚ m :: concat ((fun s => filter (fun x => key x = s) tbl) <$> ks).
Proof.
  induction ks as [|k ks IH]; intros Hnd Hin; [inversion Hin|].
  apply NoDup_cons in Hnd as [Hk Hnd]. rewrite !fmap_cons. cbn [concat].
  destruct (decide (key m = k)) as [<-|Hne].
  - rewrite filter_cons_True by done.
    by rewrite groups_unchanged.
  - rewrite filter_cons_False by done.
    apply elem_of_cons in Hin as [Hin|Hin]; [done|].
    rewrite IH by done. by rewrite <- Permutation_middle.
Qed.

Lemma groups_partition (ks : list Z) (tbl : list A) :
  NoDup ks -> (forall m, m ∈ tbl -> key m ∈ ks) ->
  concat ((fun s => filter (fun x => key x = s) tbl) <$> ks) ≡ₚ tbl.
Proof.
  intros Hnd. induction tbl as [|m tbl IH]; intros Hin.
  - clear. induction ks as [|k ks IH]; [done | by simpl].
  - rewrite groups_cons; [|done|apply Hin; left].
    apply Permutation_skip, IH. intros m' Hm'. apply Hin. by right.
Qed.
End Grouping.

Lemma fmap_concat {A B} (f : A -> B) (ls : list (list A)) :
  f <$> concat ls = concat ((fun l : list A => f <$> l) <$> ls).
Proof.
  induction ls as [|l ls IH]; [done|]. cbn [concat]. rewrite fmap_app, IH. done.
Qed.

Lemma elem_of_concat {A} (ls : list (list A)) (x : A) :
  x ∈ concat ls <-> exists l, l ∈ ls /\ x ∈ l.
Proof.
  induction ls as [|l ls IH]; cbn [concat].
  - split; [intros H; inversion H | intros (l & H & _); inversion H].
  - rewrite elem_of_app, IH. split.
    + intros [H|(l' & H1 & H2)]; [exists l; split; [left | done]|].
      exists l'. split; [by right | done].
    + intros (l' & H1 & H2). apply elem_of_cons in H1 as [->|H1]; [by left|].
      right. eauto.
Qed.

Lemma values_permutation (tbl : list ImageFileMapping) :
  concat (snd <$> file_mappings_per_site tbl) ≡ₚ id <$> tbl.
Proof.
  unfold file_mappings_per_site, ids_of_site.
  rewrite <- list_fmap_compose.
  transitivity (id <$> concat ((fun s => filter (fun m => site_id m = s) tbl)
                                 <$> sites tbl)).
  - rewrite fmap_concat, <- list_fmap_compose. done.
  - apply fmap_Permutation, groups_partition.
    + apply NoDup_remove_dups.
    + intros m Hm. apply elem_of_remove_dups, list_elem_of_fmap. eauto.
Qed.

Lemma NoDup_concat_unique {A} (ls : list (list A)) (i j : nat) (a b : list A)
    (x : A) :
  NoDup (concat ls) ->
  ls !! i = Some a -> ls !! j = Some b -> x ∈ a -> x ∈ b -> i = j.
Proof.
  revert i j. induction ls as [|l ls IH]; intros i j Hnd Hi Hj Ha Hb.
  - inversion Hi.
  - cbn [concat] in Hnd. apply NoDup_app in Hnd as (Hl & Hdisj & Hls).
    assert (forall k c, ls !! k = Some c -> x ∈ c -> x ∈ concat ls) as Hin.
    { intros k c Hk Hc. apply elem_of_concat. exists c. split; [|done].
      by apply list_elem_of_lookup_2 in Hk. }
    destruct i as [|i], j as [|j]; simpl in Hi, Hj.
    + done.
    + injection Hi as ->. exfalso. apply (Hdisj x Ha). by apply (Hin j b).
    + injection Hj as ->. exfalso. apply (Hdisj x Hb). by apply (Hin i a).
    + f_equal. by apply IH.
Qed.

Lemma Permutation_reflexive_eq {A} (l k : list A) : l = k -> l ≡ₚ k.
Proof. by intros ->. Qed.

Lemma NoDup_fmap_inj_on {A B} (f : A -> B) (l : list A) (x y : A) :
  NoDup (f <$> l) -> x ∈ l -> y ∈ l -> f x = f y -> x = y.
Proof.
  induction l as [|a l IH]; intros Hnd Hx Hy Heq; [inversion Hx|].
  rewrite fmap_cons in Hnd. apply NoDup_cons in Hnd as [Ha Hnd].
  apply elem_of_cons in Hx as [->|Hx]; apply elem_of_cons in Hy as [->|Hy].
  - done.
  - exfalso. apply Ha. rewrite Heq. by apply list_elem_of_fmap_2.
  - exfalso. apply Ha. rewrite <- Heq. by apply list_elem_of_fmap_2.
  - by apply IH.
Qed.

Section Batches.
Variable tbl : list ImageFileMapping.
Variable args : ImextractArgs.
Hypothesis ids_unique : NoDup (id <$> tbl).
Hypothesis size_positive : 1 <= batch_size args.
Hypothesis all_rectangular : rectangular_batches tbl (batch_size args) = true.

Local Abbreviation groups := (file_mappings_per_site tbl).
Local Abbreviation gchunks :=
  (chunk (length groups) (Z.to_nat (batch_size args)) groups).
Local Abbreviation jobs := (run (create_batches tbl args)).

Lemma batches_of_groups :
  _create_batches (snd <$> groups) (batch_size args)
  = (fun gb : list (Z * list Z) => snd <$> gb) <$> gchunks.
Proof.
  unfold _create_batches. by rewrite length_fmap, chunk_fmap.
Qed.

Lemma job_lookup (j : nat) (job : run_description) :
  jobs !! j = Some job ->
  exists gb,
    gchunks !! j = Some gb
    /\ image_file_mapping_ids job = Scalar <$> concat (snd <$> gb)
    /\ run_id job = Z.of_nat j + 1.
Proof.
  unfold create_batches. cbn [run].
  intros H. apply list_lookup_imap_Some in H as (batch & Hb & ->).
  pose proof all_rectangular as Hrect. unfold rectangular_batches in Hrect.
  assert (rectangular batch = true) as Hr.
  { apply Is_true_true, forallb_True in Hrect.
    rewrite Forall_forall in Hrect. apply Is_true_true, Hrect.
    by apply list_elem_of_lookup_2 in Hb. }
  rewrite batches_of_groups, list_lookup_fmap in Hb.
  destruct (gchunks !! j) as [gb|] eqn:Eg; [|done].
  injection Hb as <-. exists gb. split; [done|]. split; [|done].
  cbn [run_of_batch image_file_mapping_ids]. unfold np_array_flat.
  by rewrite Hr.
Qed.

Lemma jobs_ids :
  image_file_mapping_ids <$> jobs
  = (fun gb : list (Z * list Z) => Scalar <$> concat (snd <$> gb)) <$> gchunks.
Proof.
  apply list_eq. intros j. rewrite !list_lookup_fmap.
  destruct (jobs !! j) as [job|] eqn:Ej.
  - destruct (job_lookup j job Ej) as (gb & Hg & Hids & _).
    rewrite Hg. simpl. by rewrite Hids.
  - assert (gchunks !! j = None) as ->; [|done].
    apply lookup_ge_None. apply lookup_ge_None in Ej.
    unfold create_batches in Ej. cbn [run] in Ej.
    rewrite length_imap in Ej.
    by rewrite batches_of_groups, length_fmap in Ej.
Qed.

Lemma gchunks_concat : concat gchunks = groups.
Proof. apply chunk_concat; [lia | done]. Qed.

Lemma all_job_ids :
  concat (image_file_mapping_ids <$> jobs) ≡ₚ Scalar <$> (id <$> tbl).
Proof.
  rewrite jobs_ids.
  transitivity (Scalar <$> concat (snd <$> concat gchunks)).
  - apply Permutation_reflexive_eq.
    induction gchunks as [|gb l IH]; [done|].
    cbn [fmap list_fmap concat]. rewrite IH.
    by rewrite fmap_app, concat_app, fmap_app.
  - rewrite gchunks_concat. apply fmap_Permutation, values_permutation.
Qed.

Lemma NoDup_all_job_ids : NoDup (concat (image_file_mapping_ids <$> jobs)).
Proof.
  rewrite all_job_ids. apply NoDup_fmap_2; [|done].
  intros a b [= ->]. done.
Qed.

Lemma job_holds_site (j : nat) (job : run_description) (gb : list (Z * list Z))
    (m : ImageFileMapping) :
  gchunks !! j = Some gb ->
  image_file_mapping_ids job = Scalar <$> concat (snd <$> gb) ->
  m ∈ tbl ->
  Scalar (id m) ∈ image_file_mapping_ids job ->
  (site_id m, ids_of_site tbl (site_id m)) ∈ gb.
Proof.
  intros Hg Hids Hm Hin. rewrite Hids in Hin.
  apply list_elem_of_fmap in Hin as (i & [= <-] & Hin).
  apply elem_of_concat in Hin as (g & Hg' & Hin).
  apply list_elem_of_fmap in Hg' as ([s g'] & -> & Hsg). cbn [snd] in Hin.
  assert ((s, g') ∈ groups) as Hgr.
  { apply list_elem_of_lookup_2 in Hg.
    by apply (chunk_elem_of _ _ _ _ _ Hg). }
  unfold file_mappings_per_site in Hgr.
  apply list_elem_of_fmap in Hgr as (s' & [= -> ->] & _).
  unfold ids_of_site in Hin.
  apply list_elem_of_fmap in Hin as (m0 & Hid & Hm0).
  apply list_elem_of_filter in Hm0 as [Hs Hm0].
  assert (m0 = m) as -> by (by apply (NoDup_fmap_inj_on id tbl)).
  by rewrite Hs.
Qed.

(** C2, amended: when the ids of the mapping records are distinct, the
    batch size is at least 1 and the sites of every batch have equally
    many mappings, every mapping record appears in exactly one job, the
    mappings of one site are never split (a job that names one of them
    names all of them), the mappings of a job come from at most
    [batch_size] sites, and the jobs are numbered from 1. *)
Theorem create_batches_keeps_sites_whole :
  (forall m, m ∈ tbl -> in_exactly_one_job jobs m)
  /\ (forall job m m',
        job ∈ jobs -> m ∈ tbl -> m' ∈ tbl -> site_id m = site_id m' ->
        Scalar (id m) ∈ image_file_mapping_ids job ->
        Scalar (id m') ∈ image_file_mapping_ids job)
  /\ (forall job,
        job ∈ jobs ->
        exists ss : list Z,
          Z.of_nat (length ss) <= batch_size args
          /\ forall m, m ∈ job_mappings tbl job -> site_id m ∈ ss)
  /\ (forall j job, jobs !! j = Some job -> run_id job = Z.of_nat j + 1).
Proof.
  split; [|split; [|split]].
  - intros m Hm.
    assert (Scalar (id m) ∈ concat (image_file_mapping_ids <$> jobs)) as Hin.
    { rewrite all_job_ids. by do 2 apply list_elem_of_fmap_2. }
    apply elem_of_concat in Hin as (l & Hl & Hin).
    apply list_elem_of_lookup in Hl as (j & Hj).
    rewrite list_lookup_fmap in Hj.
    destruct (jobs !! j) as [job|] eqn:Ej; [|done]. injection Hj as <-.
    exists j, job. split; [done|]. split; [done|].
    intros j' job' Ej' Hin'.
    apply (NoDup_concat_unique (image_file_mapping_ids <$> jobs) j' j
             (image_file_mapping_ids job') (image_file_mapping_ids job)
             (Scalar (id m))); try done.
    + apply NoDup_all_job_ids.
    + by rewrite list_lookup_fmap, Ej'.
    + by rewrite list_lookup_fmap, Ej.
  - intros job m m' Hjob Hm Hm' Hsite Hin.
    apply list_elem_of_lookup in Hjob as (j & Hj).
    destruct (job_lookup j job Hj) as (gb & Hg & Hids & _).
    pose proof (job_holds_site j job gb m Hg Hids Hm Hin) as Hgb.
    rewrite Hids. apply list_elem_of_fmap_2, elem_of_concat.
    exists (ids_of_site tbl (site_id m)). split.
    + apply list_elem_of_fmap. eexists. split; [|exact Hgb]. done.
    + unfold ids_of_site. apply list_elem_of_fmap_2, list_elem_of_filter.
      by split.
  - intros job Hjob.
    apply list_elem_of_lookup in Hjob as (j & Hj).
    destruct (job_lookup j job Hj) as (gb & Hg & Hids & _).
    exists (fst <$> gb). split.
    + rewrite length_fmap.
      pose proof (chunk_lengths (Z.to_nat (batch_size args)) (length groups) groups)
        as Hlen.
      rewrite Forall_forall in Hlen.
      assert (length gb <= Z.to_nat (batch_size args))%nat
        by (apply Hlen; by apply list_elem_of_lookup_2 in Hg).
      lia.
    + intros m Hm. unfold job_mappings in Hm.
      apply list_elem_of_filter in Hm as [Hin Hm].
      pose proof (job_holds_site j job gb m Hg Hids Hm Hin) as Hgb.
      apply list_elem_of_fmap. eexists. split; [|exact Hgb]. done.
  - intros j job Hj. by destruct (job_lookup j job Hj) as (gb & _ & _ & ?).
Qed.
End Batches.

(** Counterexample to C2 as stated: with a batch size of 2, the two sites
    of two mappings each end in one job, which holds the mappings of two
    sites and four mappings. *)
Lemma two_sites_in_one_job :
  run (create_batches two_sites (MkArgs 2 false true))
  = [MkRun 1 [["/raw/a.tif"]; ["/raw/b.tif"]; ["/raw/c.tif"]; ["/raw/d.tif"]]
       [Scalar 1; Scalar 2; Scalar 3; Scalar 4] false]
  /\ ~ one_site_per_job two_sites (MkArgs 2 false true).
Proof.
  split; [vm_compute; reflexivity|].
  intros (_ & _ & Hsize).
  specialize (Hsize (MkRun 1 [["/raw/a.tif"]; ["/raw/b.tif"]; ["/raw/c.tif"]; ["/raw/d.tif"]]
                       [Scalar 1; Scalar 2; Scalar 3; Scalar 4] false)).
  assert (4 <= 2) as H; [|lia]. apply Hsize. vm_compute. left.
Qed.

(** The same job of the counterexample holds mappings of the sites 10 and
    20. *)
Example two_sites_job_mappings :
  (site_id <$> job_mappings two_sites
     (MkRun 1 [] [Scalar 1; Scalar 2; Scalar 3; Scalar 4] false))
  = [10; 10; 20; 20].
Proof. vm_compute. reflexivity. Qed.

(** Witness of C2 as amended: the two sites with a batch size of 1. *)
Lemma create_batches_keeps_sites_whole_witness :
  in_exactly_one_job (run (create_batches two_sites (MkArgs 1 false true)))
    (MkMapping 3 20 ["c.tif"] "/raw").
Proof.
  destruct (create_batches_keeps_sites_whole two_sites (MkArgs 1 false true))
    as [H _].
  - by apply (bool_decide_unpack _).
  - simpl. lia.
  - reflexivity.
  - apply H. apply list_elem_of_In. simpl. tauto.
Defined.

End ImExtractProps.

(** ** Background engine: further properties *)

Module EngineMoreProps.
Import Engine EngineProps EngineControl.

Section Cycles.
Context {EngineState Value : Type}.
Variable engine_call :
  method -> list value -> kwargs -> EngineState -> EngineState * option exn.
Variable engine_progress : EngineState -> EngineState * option exn.

Local Abbreviation BgEngine := (Engine.BgEngine EngineState Value).
Local Abbreviation body := (Engine.body EngineState Value).

Lemma issue_all_frame (calls : list proxy_call) (self : BgEngine) :
  _cache_last_updated (foldl issue self calls) = _cache_last_updated self
  /\ _cache_value (foldl issue self calls) = _cache_value self.
Proof.
  revert self. induction calls as [|c calls IH]; intros self; [done|].
  simpl. destruct (IH (issue self c)) as [H1 H2].
  rewrite H1, H2, issue_enqueue. done.
Qed.

(** X1: whatever the engine does, the proxy calls issued before a perform
    cycle do not reach the wrapped engine until the cycle runs; the cycle
    calls the wrapped engine with what was queued and with the calls
    issued before it, in order, and then calls [progress]; the next cycle
    calls the engine it has left with the calls issued in between and
    with nothing else: a queued call is executed once. *)
Theorem delayed_calls_run_once (self : BgEngine)
    (calls1 calls2 : list proxy_call) (now1 now2 : Z) :
  let call e c := fst (engine_call (fn c) (args c) (kw c) e) in
  let bg1 := foldl issue self calls1 in
  let cycle1 := _perform engine_call engine_progress now1 bg1 in
  let bg2 := foldl issue (fst cycle1) calls2 in
  let cycle2 := _perform engine_call engine_progress now2 bg2 in
  (_engine bg1 = _engine self
   /\ _progress_last_run bg1 = _progress_last_run self
   /\ _cache_last_updated bg1 = _cache_last_updated self
   /\ _cache_value bg1 = _cache_value self)
  /\ executed (snd cycle1) = _q self ++ (corresponding <$> calls1)
  /\ _engine (fst cycle1)
     = fst (engine_progress
              (foldl call (_engine self)
                     (_q self ++ (corresponding <$> calls1))))
  /\ _engine bg2 = _engine (fst cycle1)
  /\ executed (snd cycle2) = corresponding <$> calls2
  /\ _engine (fst cycle2)
     = fst (engine_progress
              (foldl call (_engine (fst cycle1)) (corresponding <$> calls2)))
  /\ _q (fst cycle2) = [].
Proof.
  intros call bg1 cycle1 bg2 cycle2.
  destruct (issue_all_queue calls1 self) as (Hq1 & He1 & Hp1).
  destruct (issue_all_frame calls1 self) as (Hl1 & Hv1).
  destruct (perform_queue engine_call engine_progress now1 bg1) as (C1 & C2 & C3).
  destruct (issue_all_queue calls2 (fst cycle1)) as (Hq2 & He2 & _).
  destruct (perform_queue engine_call engine_progress now2 bg2) as (D1 & D2 & D3).
  fold bg1 in Hq1, He1, Hp1, Hl1, Hv1. fold cycle1 in C1, C2, C3.
  fold bg2 in Hq2, He2. fold cycle2 in D1, D2, D3.
  split; [done|]. split; [by rewrite C2, Hq1|].
  split; [by rewrite C3, received_calls, Hq1, He1|].
  split; [done|]. split; [by rewrite D2, Hq2, C1|].
  split; [by rewrite D3, received_calls, Hq2, C1, He2|done].
Qed.

Lemma check_update_run (self : BgEngine) (key : cache_key) :
  _progress_last_run (fst (check_update self key)) = _progress_last_run self.
Proof.
  unfold check_update. destruct (_cache_last_updated self) as [lu|]; [|done].
  by destruct (lu !! key).
Qed.

(** X2: in one poll interval the body runs at most once for a call
    signature: when the entry is stale, the body returns [v] and keeps the
    time of the last cycle, and the clock reads no less than that time,
    the call returns [v] and every later call of the signature before the
    next cycle returns [v] too, whatever the body would compute then, and
    leaves the object as it is. *)
Theorem body_runs_once_per_cycle (f : reader) (fn_body fn_body' : body)
    (now now' : Z) (self self2 : BgEngine) (args : list nat) (v : Value)
    (lu2 : gmap cache_key Z) (cv2 : gmap cache_key Value) :
  _progress_last_run self <> 0 ->
  stale self (f, args) ->
  fn_body (fst (check_update self (f, args))) args = (self2, Ok v) ->
  _cache_last_updated self2 = Some lu2 ->
  _cache_value self2 = Some cv2 ->
  _progress_last_run self2 = _progress_last_run self ->
  _progress_last_run self <= now ->
  let first := at_most_once_per_cycle f fn_body now self args in
  snd first = Ok v
  /\ at_most_once_per_cycle f fn_body' now' (fst first) args = (fst first, Ok v).
Proof.
  intros Hp Hst Hb Hlu Hcv Hkeep Hnow first. unfold first.
  rewrite (recompute_when_stale f fn_body now self self2 args v lu2 cv2)
    by done.
  split; [done|]. cbn [fst].
  apply (reuse_when_fresh f fn_body' now' _ args now v).
  - simpl. by rewrite Hkeep.
  - exists (<[(f, args) := now]> lu2), (<[(f, args) := v]> cv2).
    by rewrite !lookup_insert_eq.
  - simpl. by rewrite Hkeep.
Qed.

Lemma check_update_entry (self : BgEngine) (key : cache_key) :
  exists lu',
    _cache_last_updated (fst (check_update self key)) = Some lu'
    /\ default 0 (lu' !! key)
       = match _cache_last_updated self with
         | Some lu => default 0 (lu !! key)
         | None => 0
         end.
Proof.
  unfold check_update.
  destruct (_cache_last_updated self) as [lu|] eqn:El.
  - destruct (lu !! key) as [t|] eqn:Et.
    + exists lu. simpl. by rewrite El, Et.
    + eexists. simpl. split; [done|]. by rewrite lookup_insert_eq.
  - eexists. simpl. split; [done|]. by rewrite lookup_empty.
Qed.

(** X3: after a progress cycle (the clock reads a positive time), an
    exception of the body is propagated and nothing is cached for it: when
    the body leaves the time stamps of the cache and of the last
    cycle as they are, the entry is still stale after the failed call, so
    that the next call runs the body again. *)
Theorem failed_body_is_not_cached (f : reader) (fn_body : body) (now : Z)
    (self self2 : BgEngine) (args : list nat) (e : exn) :
  0 < _progress_last_run self ->
  stale self (f, args) ->
  fn_body (fst (check_update self (f, args))) args = (self2, Raise e) ->
  _cache_last_updated self2
  = _cache_last_updated (fst (check_update self (f, args))) ->
  _progress_last_run self2 = _progress_last_run self ->
  at_most_once_per_cycle f fn_body now self args = (self2, Raise e)
  /\ stale self2 (f, args).
Proof.
  intros Hp Hst Hb Hlu Hkeep. split.
  - unfold at_most_once_per_cycle.
    destruct (Z.eqb_spec (_progress_last_run self) 0) as [|_]; [lia|].
    pose proof (check_update_stale self (f, args) Hst) as Hup.
    destruct (check_update self (f, args)) as [self1 update].
    simpl in Hup, Hb. subst update. by rewrite Hb.
  - destruct (check_update_entry self (f, args)) as (lu' & Hlu' & Hdef).
    unfold stale in *. rewrite Hlu, Hlu', Hdef, Hkeep.
    destruct (_cache_last_updated self); [exact Hst | lia].
Qed.

Lemma check_update_cached (self : BgEngine) (key key' : cache_key) (t : Z)
    (v : Value) :
  key' <> key -> cached self key' t v ->
  cached (fst (check_update self key)) key' t v.
Proof.
  intros Hne (lu & cv & Hlu & Hcv & Ht & Hv). unfold check_update.
  rewrite Hlu. destruct (lu !! key); simpl.
  - by exists lu, cv.
  - exists (<[key := 0]> lu), cv. simpl.
    by rewrite lookup_insert_ne.
Qed.

Lemma store_cached (self self' : BgEngine) (key key' : cache_key) (t now : Z)
    (v w : Value) (r : option exn) :
  key' <> key -> cached self key' t v ->
  store self key w now = (self', r) ->
  cached self' key' t v.
Proof.
  intros Hne (lu & cv & Hlu & Hcv & Ht & Hv). unfold store.
  rewrite Hcv. simpl. rewrite Hlu. intros [= <- <-].
  exists (<[key := now]> lu), (<[key := w]> cv). simpl.
  by rewrite !lookup_insert_ne.
Qed.

(** X4: the cache is kept per call signature: a call of one signature,
    whether it reuses or recomputes its value, leaves the value and the
    time stamp cached for any other signature as they are, provided the
    body itself does. *)
Theorem other_signatures_keep_their_entry (f : reader) (fn_body : body)
    (now : Z) (self : BgEngine) (args : list nat) (key' : cache_key) (t : Z)
    (v : Value) :
  key' <> (f, args) ->
  (forall s s' r, fn_body s args = (s', r) ->
                  cached s key' t v -> cached s' key' t v) ->
  cached self key' t v ->
  cached (fst (at_most_once_per_cycle f fn_body now self args)) key' t v.
Proof.
  intros Hne Hframe Hc. unfold at_most_once_per_cycle.
  destruct (_progress_last_run self =? 0).
  - destruct (fn_body self args) as [s' r] eqn:E. by apply (Hframe _ _ _ E).
  - pose proof (check_update_cached self (f, args) key' t v Hne Hc) as Hc1.
    destruct (check_update self (f, args)) as [self1 [|]]; [|done].
    simpl in Hc1.
    destruct (fn_body self1 args) as [self2 r] eqn:E.
    pose proof (Hframe _ _ _ E Hc1) as Hc2.
    destruct r as [w|e]; [|done].
    destruct (store self2 (f, args) w now) as [self3 [e|]] eqn:Es; simpl;
      by apply (store_cached self2 self3 (f, args) key' t now v w _ Hne Hc2 Es).
Qed.

End Cycles.

(** Witness of X2: the entry of a signature is missing after the cycle of
    time 10; the call of time 12 computes 1, the next call returns 1. *)
Lemma body_runs_once_per_cycle_witness :
  let self : BgEngine unit nat := MkBgEngine [] tt 10 (Some ∅) (Some ∅) in
  let first :=
    at_most_once_per_cycle task_data_fn (fun s _ => (s, Ok 1%nat)) 12 self [7%nat] in
  snd first = Ok 1%nat
  /\ at_most_once_per_cycle task_data_fn (fun s _ => (s, Ok 2%nat)) 13
       (fst first) [7%nat] = (fst first, Ok 1%nat).
Proof.
  intros self first.
  apply (body_runs_once_per_cycle task_data_fn (fun s _ => (s, Ok 1%nat))
           (fun s _ => (s, Ok 2%nat)) 12 13 self
           (fst (check_update self (task_data_fn, [7%nat]))) [7%nat] 1%nat
           (<[(task_data_fn, [7%nat]) := 0]> ∅) ∅).
  - discriminate.
  - unfold stale. simpl. rewrite lookup_empty. simpl. lia.
  - reflexivity.
  - reflexivity.
  - reflexivity.
  - reflexivity.
  - simpl. lia.
Defined.

(** Witness of X3: a body that raises [KeyError]. *)
Lemma failed_body_is_not_cached_witness :
  let self : BgEngine unit nat := MkBgEngine [] tt 10 (Some ∅) (Some ∅) in
  let self1 := fst (check_update self (task_data_fn, [7%nat])) in
  at_most_once_per_cycle task_data_fn (fun s _ => (s, Raise KeyError)) 12
    self [7%nat] = (self1, Raise KeyError)
  /\ stale self1 (task_data_fn, [7%nat]).
Proof.
  intros self self1.
  apply (failed_body_is_not_cached task_data_fn
           (fun s _ => (s, Raise KeyError)) 12 self self1 [7%nat] KeyError).
  - simpl. lia.
  - unfold stale. simpl. rewrite lookup_empty. simpl. lia.
  - reflexivity.
  - reflexivity.
  - reflexivity.
Defined.

(** Witness of X4: a call of [stats_data] keeps the entry of
    [task_data(7)]. *)
Lemma other_signatures_keep_their_entry_witness :
  let key' := (task_data_fn, [7%nat]) in
  let self : BgEngine unit nat :=
    MkBgEngine [] tt 10 (Some {[ key' := 11 ]}) (Some {[ key' := 1%nat ]}) in
  cached
    (fst (at_most_once_per_cycle stats_data_fn (fun s _ => (s, Ok 5%nat)) 12
            self []))
    key' 11 1%nat.
Proof.
  intros key' self.
  apply (other_signatures_keep_their_entry stats_data_fn
           (fun s _ => (s, Ok 5%nat)) 12 self [] key' 11 1%nat).
  - discriminate.
  - intros s s' r [= <- _] H. exact H.
  - exists {[ key' := 11 ]}, {[ key' := 1%nat ]}.
    repeat split; apply lookup_singleton_eq.
Defined.

Section ControlProps.
Context {EngineState Value Scheduler : Type}.
Variable scheduler_add_job : Z -> Scheduler -> Scheduler * option exn.
Variable scheduler_start : Scheduler -> Scheduler * option exn.
Variable scheduler_shutdown : bool -> Scheduler -> Scheduler * option exn.
Variable engine_progress : EngineState -> EngineState * option exn.

Local Abbreviation Controlled := (EngineControl.Controlled EngineState Value Scheduler).
Local Abbreviation apply_control :=
  (EngineControl.apply_control scheduler_add_job scheduler_start scheduler_shutdown).
Local Abbreviation progress := (EngineControl.progress engine_progress).

Lemma apply_control_bg (self : Controlled) (c : control) :
  bg (apply_control self c) = bg self
  /\ running (apply_control self c)
     = Some (match c with Start _ => true | Stop _ => false end).
Proof.
  destruct c as [i|w]; unfold EngineControl.apply_control, start, stop.
  - destruct (scheduler_add_job i (_scheduler self)) as [s1 [e|]]; [done|].
    by destruct (scheduler_start s1).
  - by destruct (scheduler_shutdown _ (_scheduler self)).
Qed.

Lemma foldl_control_bg (l : list control) (self : Controlled) :
  bg (foldl apply_control self l) = bg self.
Proof.
  revert self. induction l as [|c l IH]; intros self; [done|].
  simpl. rewrite IH. apply apply_control_bg.
Qed.

(** X5: [progress()] on a [BgEngine] on which neither [start] nor [stop]
    has been called raises [AttributeError] and leaves the engine
    untouched; after any calls of [start] and [stop], whatever the
    scheduler raised in them, it does nothing when the last of them was
    [start], and when the last was [stop] it calls the wrapped engine's
    [progress] once and hands its exception to the caller; [start] and
    [stop] themselves never touch the wrapped engine or the queue. *)
Theorem progress_follows_running (engine : EngineState) (sched : Scheduler)
    (calls : list control) (c : control) :
  progress (fresh Value engine sched)
  = (fresh Value engine sched, Some AttributeError)
  /\ bg (foldl apply_control (fresh Value engine sched) (calls ++ [c]))
     = init Value engine
  /\ let self := foldl apply_control (fresh Value engine sched) (calls ++ [c]) in
     match c with
     | Start _ => progress self = (self, None)
     | Stop _ =>
         _engine (bg (fst (progress self))) = fst (engine_progress engine)
         /\ snd (progress self) = snd (engine_progress engine)
         /\ _q (bg (fst (progress self))) = []
     end.
Proof.
  split; [done|]. split; [apply foldl_control_bg|].
  intros self.
  assert (bg self = init Value engine) as Hbg by apply foldl_control_bg.
  assert (running self
          = Some (match c with Start _ => true | Stop _ => false end)) as Hr.
  { unfold self. rewrite foldl_app. simpl. apply apply_control_bg. }
  unfold EngineControl.progress. rewrite Hr, Hbg.
  destruct c; [done|]. simpl.
  by destruct (engine_progress engine).
Qed.

End ControlProps.

End EngineMoreProps.

(** ** Series of stages and steps (tmlib/workflow/description.py) *)

Module DescriptionMoreProps.
Import Py Description DescriptionSteps.

Lemma feed_appends {S A} (call : S -> A -> result S) (items : S -> list A)
    (I : S -> Prop) (Q : list A -> A -> Prop) :
  (forall s a s', I s -> call s a = Ok s' ->
                  I s' /\ items s' = items s ++ [a] /\ Q (items s) a) ->
  forall l s w,
    I s -> feed call s l = Ok w ->
    I w /\ items w = items s ++ l
    /\ forall pre x post, l = pre ++ x :: post -> Q (items s ++ pre) x.
Proof.
  intros Hstep. induction l as [|a l IH]; intros s w Hs Hfeed.
  - injection Hfeed as <-. split; [done|]. split; [by rewrite app_nil_r|].
    intros [|??] ?? [=].
  - cbn [feed] in Hfeed. destruct (call s a) as [s1|e] eqn:E; [|done].
    simpl in Hfeed. destruct (Hstep s a s1 Hs E) as (Hs1 & Hitems & HQ).
    destruct (IH s1 w Hs1 Hfeed) as (Hw & Hiw & Hall).
    split; [done|]. split; [by rewrite Hiw, Hitems, <- app_assoc|].
    intros [|b pre] x post Heq.
    + injection Heq as -> ->. by rewrite app_nil_r.
    + injection Heq as -> ->. specialize (Hall pre x post eq_refl).
      by rewrite Hitems, <- app_assoc in Hall.
Qed.

Lemma NoDup_from_prefixes {A B} (f : A -> B) (l : list A) :
  (forall pre x post, l = pre ++ x :: post -> f x ∉ f <$> pre) ->
  NoDup (f <$> l).
Proof.
  induction l as [|x l IH] using rev_ind; intros H; [apply NoDup_nil_2|].
  rewrite fmap_app. apply NoDup_app. split; [|split].
  - apply IH. intros pre y post ->. apply (H pre y (post ++ [x])).
    by rewrite <- app_assoc.
  - intros b Hb Hb'. simpl in Hb'. apply list_elem_of_singleton in Hb'. subst b.
    by apply (H l x []).
  - apply NoDup_singleton.
Qed.

Lemma existsb_name_false {A} (f : A -> string) (n : string) (l : list A) :
  existsb (fun a => String.eqb (f a) n) l = false -> n ∉ f <$> l.
Proof.
  induction l as [|a l IH]; simpl; [intros _ H; inversion H|].
  intros H. apply orb_false_iff in H as [H1 H2].
  apply not_elem_of_cons. split; [|by apply IH].
  intros ->. by rewrite String.eqb_refl in H1.
Qed.

Lemma check_implemented_ok (deps : WorkflowDependencies) (stage : string)
    (l : list WorkflowStepDescription) :
  check_implemented deps stage l = Ok tt ->
  forall implemented, STEPS_PER_STAGE deps !! stage = Some implemented ->
  forall st, st ∈ l -> step_name st ∈ implemented.
Proof.
  intros H implemented Himpl. induction l as [|s l IH]; [intros st Hst; inversion Hst|].
  cbn [check_implemented] in H. unfold getitem in H. rewrite Himpl in H.
  simpl in H. case_bool_decide as Hs; [|done].
  intros st Hst. apply elem_of_cons in Hst as [->|Hst]; [done | by apply IH].
Qed.

Lemma warn_missing_inv (stage_names ds : list string) :
  warn_missing stage_names ds = Ok tt ->
  forall d, d ∈ ds -> d ∈ stage_names.
Proof.
  induction ds as [|d' ds IH]; simpl; [intros _ d Hd; inversion Hd|].
  case_bool_decide as Hd'; [|done]. intros H d Hd.
  apply elem_of_cons in Hd as [->|Hd]; [done | by apply IH].
Qed.

Lemma check_upstream_inv (deps : WorkflowDependencies) (new : string)
    (stage_names : list string) :
  check_upstream deps new stage_names = Ok tt ->
  forall n, n ∈ stage_names ->
    exists ds, INTER_STAGE_DEPENDENCIES deps !! n = Some ds /\ new ∉ ds.
Proof.
  induction stage_names as [|n' l IH]; simpl; [intros _ n Hn; inversion Hn|].
  unfold getitem.
  destruct (INTER_STAGE_DEPENDENCIES deps !! n') as [ds|] eqn:E; [|done].
  simpl. case_bool_decide as Hnew; [done|]. intros H n Hn.
  apply elem_of_cons in Hn as [->|Hn]; [by exists ds | by apply IH].
Qed.

Lemma add_stage_admits (self w : WorkflowDescription)
    (sd : WorkflowStageDescription) :
  add_stage self (StageArg sd) = Ok w ->
  dependencies w = dependencies self
  /\ stages w = stages self ++ [sd]
  /\ stage_admitted (dependencies self) (stages self) sd.
Proof.
  unfold add_stage.
  destruct (existsb _ (stages self)) eqn:Edup; [done|].
  case_bool_decide as Hknown; [|done]. cbn [negb].
  destruct (check_implemented _ _ _) as [[]|e] eqn:Eimpl; [|done]. cbn [bind].
  destruct (match INTER_STAGE_DEPENDENCIES (dependencies self) !! name sd with
            | Some ds => warn_missing (name <$> stages self) ds
            | None => Ok ()
            end) as [[]|e] eqn:Ewarn; [|done]. cbn [bind].
  destruct (check_upstream _ _ _) as [[]|e] eqn:Eup; [|done]. cbn [bind].
  unfold getitem.
  destruct (STEPS_PER_STAGE (dependencies self) !! name sd) as [req|] eqn:Ereq;
    [|done]. cbn [bind].
  destruct (check_required _ _) as [[]|e]; [|done]. cbn [bind].
  intros [= <-]. cbn [dependencies stages]. split; [done|]. split; [done|].
  split; [by apply existsb_name_false|]. split; [done|].
  split; [exists req; split; [done|]; by apply (check_implemented_ok _ _ _ Eimpl)|].
  split.
  - intros ds d Hds Hd. rewrite Hds in Ewarn. by apply (warn_missing_inv _ _ Ewarn).
  - by apply check_upstream_inv.
Qed.

(** X8: when the stages [l] are added one after another to a workflow
    without stages and every call succeeds, the workflow holds exactly
    [l], in order, no two stages share a name, and every stage passed the
    checks of [add_stage] against the stages before it: it is an
    implemented stage with implemented steps, all stages declared
    upstream of it come before it, and it is declared upstream of none of
    them. *)
Theorem stages_follow_declared_order (ty : string) (deps : WorkflowDependencies)
    (l : list WorkflowStageDescription) (w : WorkflowDescription) :
  add_stages (MkWorkflow ty deps []) l = Ok w ->
  stages w = l
  /\ NoDup (name <$> l)
  /\ forall pre sd post, l = pre ++ sd :: post -> stage_admitted deps pre sd.
Proof.
  intros H.
  destruct (feed_appends (fun w sd => add_stage w (StageArg sd)) stages
              (fun s => dependencies s = deps) (stage_admitted deps)) with
    (l := l) (s := MkWorkflow ty deps []) (w := w) as (_ & Hst & Hall);
    [|done|exact H|].
  - intros s a s' Hs Hadd. apply add_stage_admits in Hadd as (Hd & Hi & Hq).
    rewrite Hs in Hd, Hq. done.
  - simpl in Hst, Hall. split; [done|]. split; [|done].
    apply NoDup_from_prefixes. intros pre x post Heq.
    by destruct (Hall pre x post Heq).
Qed.

Lemma existsb_name_false_iff {A} (f : A -> string) (n : string) (l : list A) :
  existsb (fun a => String.eqb (f a) n) l = false <-> n ∉ f <$> l.
Proof.
  split; [apply existsb_name_false|].
  induction l as [|a l IH]; simpl; [done|].
  intros H. apply not_elem_of_cons in H as [H1 H2].
  apply orb_false_iff. split; [|by apply IH].
  apply String.eqb_neq. congruence.
Qed.

Lemma check_implemented_complete (deps : WorkflowDependencies) (stage : string)
    (l : list WorkflowStepDescription) (implemented : list string) :
  STEPS_PER_STAGE deps !! stage = Some implemented ->
  (forall st, st ∈ l -> step_name st ∈ implemented) ->
  check_implemented deps stage l = Ok tt.
Proof.
  intros Himpl. induction l as [|s l IH]; intros H; [done|].
  cbn [check_implemented]. unfold getitem. rewrite Himpl. simpl.
  rewrite bool_decide_eq_true_2 by (apply H; left).
  apply IH. intros st Hst. apply H. by right.
Qed.

Lemma warn_missing_complete (stage_names ds : list string) :
  (forall d, d ∈ ds -> d ∈ stage_names) ->
  warn_missing stage_names ds = Ok tt.
Proof.
  induction ds as [|d ds IH]; intros H; [done|]. simpl.
  rewrite bool_decide_eq_true_2 by (apply H; left).
  apply IH. intros d' Hd'. apply H. by right.
Qed.

Lemma check_upstream_complete (deps : WorkflowDependencies) (new : string)
    (stage_names : list string) :
  (forall n, n ∈ stage_names ->
     exists ds, INTER_STAGE_DEPENDENCIES deps !! n = Some ds /\ new ∉ ds) ->
  check_upstream deps new stage_names = Ok tt.
Proof.
  induction stage_names as [|n l IH]; intros H; [done|]. simpl.
  destruct (H n) as (ds & Hds & Hnew); [left|].
  unfold getitem. rewrite Hds. simpl.
  rewrite bool_decide_eq_false_2 by done.
  apply IH. intros n' Hn'. apply H. by right.
Qed.

Lemma check_required_complete (required : list string) (names : list string) :
  (forall n, n ∈ names -> n ∈ required) ->
  check_required required names = Ok tt.
Proof.
  induction names as [|n l IH]; intros H; [done|]. simpl.
  rewrite bool_decide_eq_true_2 by (apply H; left).
  apply IH. intros n' Hn'. apply H. by right.
Qed.

(** X6: [add_stage] appends the stage, leaving the rest of the workflow
    unchanged, exactly when the stage is new, is listed in [STAGES], has
    an entry in [STEPS_PER_STAGE] that contains all its steps, every stage
    that [INTER_STAGE_DEPENDENCIES] declares upstream of it is already
    there, and every stage already there has an entry in
    [INTER_STAGE_DEPENDENCIES] that does not contain it. *)
Theorem add_stage_succeeds_iff_admitted (self : WorkflowDescription)
    (sd : WorkflowStageDescription) :
  stage_admitted (dependencies self) (stages self) sd <->
  add_stage self (StageArg sd) =
    Ok (MkWorkflow (type self) (dependencies self) (stages self ++ [sd])).
Proof.
  split.
  - intros (Hnew & Hknown & (impl & Himpl & Hsteps) & Hdeps & Hup).
    unfold add_stage.
    rewrite (proj2 (existsb_name_false_iff name (name sd) (stages self)) Hnew).
    rewrite bool_decide_eq_true_2 by done. cbn [negb].
    rewrite (check_implemented_complete _ _ _ _ Himpl Hsteps). cbn [bind].
    replace (match INTER_STAGE_DEPENDENCIES (dependencies self) !! name sd with
             | Some ds => warn_missing (name <$> stages self) ds
             | None => Ok ()
             end) with (@Ok unit tt).
    2:{ destruct (INTER_STAGE_DEPENDENCIES (dependencies self) !! name sd)
          as [ds|] eqn:E; [|done].
        symmetry. apply warn_missing_complete. intros d Hd. by apply (Hdeps ds). }
    cbn [bind]. rewrite (check_upstream_complete _ _ _ Hup). cbn [bind].
    unfold getitem. rewrite Himpl. cbn [bind].
    rewrite check_required_complete; [done|].
    intros n Hn. apply list_elem_of_fmap in Hn as (st & -> & Hst). by apply Hsteps.
  - intros H. by apply add_stage_admits in H as (_ & _ & H).
Qed.

Lemma check_implemented_error (deps : WorkflowDependencies) (stage : string)
    (l : list WorkflowStepDescription) (e : exn) :
  check_implemented deps stage l = Raise e ->
  e = KeyError \/ e = WorkflowDescriptionError.
Proof.
  induction l as [|s l IH]; [done|]. cbn [check_implemented]. unfold getitem.
  destruct (STEPS_PER_STAGE deps !! stage); simpl; [|intros [= <-]; by left].
  case_bool_decide; [exact IH | intros [= <-]; by right].
Qed.

Lemma warn_missing_error (stage_names ds : list string) (e : exn) :
  warn_missing stage_names ds = Raise e -> e = NameError.
Proof.
  induction ds as [|d ds IH]; [done|]. simpl.
  case_bool_decide; [exact IH | by intros [= <-]].
Qed.

Lemma check_upstream_error (deps : WorkflowDependencies) (new : string)
    (stage_names : list string) (e : exn) :
  check_upstream deps new stage_names = Raise e ->
  e = KeyError \/ e = WorkflowDescriptionError.
Proof.
  induction stage_names as [|n l IH]; [done|]. simpl. unfold getitem.
  destruct (INTER_STAGE_DEPENDENCIES deps !! n); simpl; [|intros [= <-]; by left].
  case_bool_decide; [intros [= <-]; by right | exact IH].
Qed.

(** X7: given a stage description, [add_stage] never raises [TypeError]:
    the last loop, whose [raise] formats a two-field string with one
    argument, repeats the test of the loop over the steps and is never
    reached with a step that fails it. *)
Theorem add_stage_never_raises_TypeError (self : WorkflowDescription)
    (sd : WorkflowStageDescription) :
  add_stage self (StageArg sd) <> Raise TypeError.
Proof.
  unfold add_stage.
  destruct (existsb _ (stages self)); [done|].
  case_bool_decide as Hknown; [|done]. cbn [negb].
  destruct (check_implemented _ _ _) as [[]|e] eqn:Eimpl.
  2:{ cbn [bind]. intros [= ->].
      by destruct (check_implemented_error _ _ _ _ Eimpl). }
  cbn [bind].
  destruct (match INTER_STAGE_DEPENDENCIES (dependencies self) !! name sd with
            | Some ds => warn_missing (name <$> stages self) ds
            | None => Ok ()
            end) as [[]|e] eqn:Ewarn.
  2:{ cbn [bind]. intros [= ->].
      destruct (INTER_STAGE_DEPENDENCIES _ !! _) as [ds|]; [|done].
      by apply warn_missing_error in Ewarn. }
  cbn [bind].
  destruct (check_upstream _ _ _) as [[]|e] eqn:Eup.
  2:{ cbn [bind]. intros [= ->].
      by destruct (check_upstream_error _ _ _ _ Eup). }
  cbn [bind]. unfold getitem.
  destruct (STEPS_PER_STAGE (dependencies self) !! name sd) as [req|] eqn:Ereq;
    [|done]. cbn [bind].
  rewrite check_required_complete; [done|].
  intros n Hn. apply list_elem_of_fmap in Hn as (st & -> & Hst).
  by apply (check_implemented_ok _ _ _ Eimpl).
Qed.

Lemma require_upstream_iff (step_names ds : list string) :
  require_upstream step_names ds = Ok tt <->
  forall d, d ∈ ds -> d ∈ step_names.
Proof.
  induction ds as [|d ds IH]; simpl.
  - split; [intros _ d Hd; inversion Hd | done].
  - case_bool_decide as Hd.
    + rewrite IH. split.
      * intros H d' Hd'. apply elem_of_cons in Hd' as [->|Hd']; [done | by apply H].
      * intros H d' Hd'. apply H. by right.
    + split; [done|]. intros H. destruct Hd. apply H. left.
Qed.

Lemma add_step_admits (deps : WorkflowDependencies)
    (self st : WorkflowStageDescription) (sd : WorkflowStepDescription) :
  add_step deps self (StepArg sd) = Ok st ->
  st = MkStage (name self) (mode self) (active self) (steps self ++ [sd])
  /\ step_admitted deps (name self) (steps self) sd.
Proof.
  unfold step_admitted, add_step, getitem.
  destruct (existsb _ (steps self)) eqn:Edup; [done|].
  destruct (STEPS_PER_STAGE deps !! name self) as [declared|] eqn:Edecl;
    [|done].
  cbn [bind]. case_bool_decide as Hin; cbn [negb]; [|done].
  destruct (match INTRA_STAGE_DEPENDENCIES deps !! step_name sd with
            | Some ds => require_upstream (step_name <$> steps self) ds
            | None => Ok ()
            end) as [[]|e] eqn:Ereq; [|done].
  cbn [bind]. intros [= <-]. split; [done|].
  split; [by apply existsb_name_false|]. split; [by exists declared|].
  intros ds d Hds. rewrite Hds in Ereq. by apply require_upstream_iff.
Qed.

(** X9: [add_step] appends the step exactly when the step is new to the
    stage, is declared for the stage in [STEPS_PER_STAGE], and every step
    that [INTRA_STAGE_DEPENDENCIES] declares upstream of it is already in
    the stage; then the stage is otherwise unchanged. *)
Theorem add_step_succeeds_iff_admitted (deps : WorkflowDependencies)
    (self : WorkflowStageDescription) (sd : WorkflowStepDescription) :
  step_admitted deps (name self) (steps self) sd <->
  add_step deps self (StepArg sd) =
    Ok (MkStage (name self) (mode self) (active self) (steps self ++ [sd])).
Proof.
  split; [|intros H; by apply add_step_admits in H as [_ H]].
  intros (Hnew & (declared & Hdecl & Hin) & Hdeps).
  unfold add_step, getitem.
  rewrite (proj2 (existsb_name_false_iff step_name (step_name sd) (steps self))
             Hnew).
  rewrite Hdecl. cbn [bind]. rewrite bool_decide_eq_true_2 by done. cbn [negb].
  destruct (INTRA_STAGE_DEPENDENCIES deps !! step_name sd) as [ds|] eqn:Eds;
    [|done].
  rewrite (proj2 (require_upstream_iff (step_name <$> steps self) ds));
    [done|]. intros d. by apply Hdeps.
Qed.

(** X10: when the steps [l] are added one after another to a stage
    without steps and every call succeeds, the stage holds exactly [l],
    in order, no two steps share a name, and every step passed the checks
    of [add_step] against the steps before it: its declared upstream
    steps all come before it. *)
Theorem steps_follow_declared_order (deps : WorkflowDependencies)
    (stage m : string) (a : bool)
    (l : list WorkflowStepDescription) (st : WorkflowStageDescription) :
  add_steps deps (MkStage stage m a []) l = Ok st ->
  st = MkStage stage m a l
  /\ NoDup (step_name <$> l)
  /\ forall pre sd post, l = pre ++ sd :: post -> step_admitted deps stage pre sd.
Proof.
  intros H.
  destruct (feed_appends (fun st sd => add_step deps st (StepArg sd)) steps
              (fun s => name s = stage /\ mode s = m /\ active s = a)
              (step_admitted deps stage)) with
    (l := l) (s := MkStage stage m a []) (w := st) as (Hinv & Hst & Hall);
    [|done|exact H|].
  - intros s x s' (Hn & Hm & Ha) Hadd.
    apply add_step_admits in Hadd as [-> Hq]. cbn [name mode active steps].
    by rewrite <- Hn.
  - simpl in Hst, Hall. destruct Hinv as (Hn & Hm & Ha).
    split; [destruct st; simpl in *; congruence|]. split; [|done].
    apply NoDup_from_prefixes. intros pre x post Heq.
    by destruct (Hall pre x post Heq).
Qed.

Lemma stages_follow_declared_order_witness :
  stages (workflow_with [upload_stage; analysis_stage])
    = [upload_stage; analysis_stage]
  /\ NoDup (name <$> [upload_stage; analysis_stage])
  /\ forall pre sd post,
       [upload_stage; analysis_stage] = pre ++ sd :: post ->
       stage_admitted upload_analysis pre sd.
Proof.
  apply (stages_follow_declared_order "example" upload_analysis).
  vm_compute. reflexivity.
Defined.

(** Witness of X10: three steps of which the second requires the first
    and the third the second.  The same steps with the first two swapped
    are refused. *)
Lemma steps_follow_declared_order_witness :
  (MkStage "image_conversion" "sequential" true conversion_steps
   = MkStage "image_conversion" "sequential" true conversion_steps
   /\ NoDup (step_name <$> conversion_steps)
   /\ forall pre sd post,
        conversion_steps = pre ++ sd :: post ->
        step_admitted conversion "image_conversion" pre sd)
  /\ add_steps conversion (MkStage "image_conversion" "sequential" true [])
       [MkStep "metaconfig" true; MkStep "metaextract" true;
        MkStep "imextract" false]
     = Raise WorkflowDescriptionError.
Proof.
  split; [|vm_compute; reflexivity].
  apply (steps_follow_declared_order conversion).
  vm_compute. reflexivity.
Defined.

End DescriptionMoreProps.

(** ** Tiles: what [add] and [add_multiple] change (tmlib/models/tile.py) *)

Module TileMoreProps.
Import Py Tile TileProps.

Lemma rows_of_other_update (tbl : table) (r : tile_row) (k : primary_key) :
  k <> row_key r ->
  rows_of (on_conflict_update r <$> tbl) k = rows_of tbl k.
Proof.
  intros Hk. unfold rows_of. induction tbl as [|r' tbl IH]; [done|].
  rewrite fmap_cons. destruct (decide (row_key r' = row_key r)) as [E|E].
  - rewrite on_conflict_update_same by done.
    rewrite !filter_cons_False by congruence. exact IH.
  - rewrite on_conflict_update_other by done.
    destruct (decide (row_key r' = k)) as [E'|E'].
    + rewrite !filter_cons_True by done. by rewrite IH.
    + rewrite !filter_cons_False by done. exact IH.
Qed.

Lemma update_twice (tbl : table) (r : tile_row) :
  on_conflict_update r <$> (on_conflict_update r <$> tbl)
  = on_conflict_update r <$> tbl.
Proof.
  rewrite <- list_fmap_compose. apply list_fmap_ext. intros i r' _. simpl.
  destruct (decide (row_key r' = row_key r)) as [E|E].
  - rewrite (on_conflict_update_same r r') by done.
    by rewrite on_conflict_update_same.
  - rewrite (on_conflict_update_other r r') by done.
    by rewrite on_conflict_update_other.
Qed.

(** X11: a successful [add] leaves the rows of every other key as they
    were, keeps the order of the keys, appending the tile's key only when
    the table did not have it, and is idempotent: adding the same tile
    again returns the same table. *)
Theorem add_touches_one_key (tbl tbl' : table) (t : ChannelLayerTile) :
  add tbl t = Ok tbl' ->
  (forall k, k <> tile_key t -> rows_of tbl' k = rows_of tbl k)
  /\ row_key <$> tbl'
     = (row_key <$> tbl)
         ++ (if has_key tbl (tile_key t) then [] else [tile_key t])
  /\ add tbl' t = Ok tbl'.
Proof.
  unfold add. destruct (parameters t) as [r|e] eqn:Ep; [|done]. cbn [bind].
  intros [= <-]. apply parameters_key in Ep as Hk. rewrite <- Hk.
  split; [|split].
  - intros k Hne. unfold insert_on_conflict_update.
    destruct (has_key tbl (row_key r)).
    + by apply rows_of_other_update.
    + unfold rows_of. rewrite filter_app.
      rewrite (filter_cons_False _ r) by congruence.
      by rewrite app_nil_r.
  - rewrite upsert_keys. destruct (has_key tbl (row_key r));
      [by rewrite app_nil_r | done].
  - f_equal. unfold insert_on_conflict_update at 1.
    rewrite upsert_has_key. unfold insert_on_conflict_update.
    destruct (has_key tbl (row_key r)) eqn:E.
    + apply update_twice.
    + rewrite fmap_app. simpl. rewrite on_conflict_update_same by done.
      f_equal. apply has_key_false in E.
      clear -E. induction tbl as [|r' tbl IH]; [done|].
      rewrite fmap_cons, not_elem_of_cons in E. destruct E as [E1 E2].
      rewrite fmap_cons, on_conflict_update_other by congruence.
      f_equal. by apply IH.
Qed.

(** X12: [add_multiple] succeeds exactly when every tile has pixels, no
    two tiles share a key and no tile's key is in the table; the result is
    then the table followed by the rows of the tiles, in the order of the
    tiles. *)
Theorem add_multiple_succeeds_iff (tiles : list ChannelLayerTile)
    (tbl tbl' : table) :
  add_multiple tbl tiles = Ok tbl' <->
  exists rows,
    Forall2 (fun t r => parameters t = Ok r) tiles rows
    /\ tbl' = tbl ++ rows
    /\ NoDup (row_key <$> rows)
    /\ forall r, r ∈ rows -> row_key r ∉ row_key <$> tbl.
Proof.
  revert tbl. induction tiles as [|t tiles IH]; intros tbl.
  - simpl. split.
    + intros [= <-]. exists []. rewrite app_nil_r.
      repeat split; [constructor | apply NoDup_nil_2 |].
      intros r Hr. inversion Hr.
    + intros (rows & Hall & -> & _). apply Forall2_nil_inv_l in Hall as ->.
      by rewrite app_nil_r.
  - cbn [add_multiple]. split.
    + destruct (parameters t) as [r|e] eqn:Ep; [|done]. cbn [bind].
      destruct (insert tbl r) as [tbl1|e] eqn:E; [|done]. cbn [bind].
      apply insert_ok in E as [Hnew ->]. apply has_key_false in Hnew.
      intros H. apply IH in H as (rows & Hall & -> & Hnd & Hfresh).
      exists (r :: rows). split; [by constructor|].
      split; [by rewrite <- app_assoc|]. split.
      * rewrite fmap_cons. apply NoDup_cons. split; [|done].
        intros Hin. apply list_elem_of_fmap in Hin as (r' & Hk & Hr').
        apply (Hfresh r' Hr'). rewrite fmap_app, <- Hk.
        apply elem_of_app. right. left.
      * intros r' Hr'. apply elem_of_cons in Hr' as [->|Hr']; [done|].
        intros Hin. apply (Hfresh r' Hr'). rewrite fmap_app.
        apply elem_of_app. by left.
    + intros (rows & Hall & -> & Hnd & Hfresh).
      apply Forall2_cons_inv_l in Hall as (r & rows' & Ep & Hall & ->).
      rewrite Ep. cbn [bind]. unfold insert.
      rewrite (proj2 (has_key_false tbl (row_key r))) by (apply Hfresh; left).
      cbn [bind]. apply IH. exists rows'. split; [done|].
      split; [by rewrite <- app_assoc|].
      rewrite fmap_cons in Hnd. apply NoDup_cons in Hnd as [Hr Hnd].
      split; [done|]. intros r' Hr'. rewrite fmap_app.
      intros Hin. apply elem_of_app in Hin as [Hin|Hin].
      * apply (Hfresh r'); [by right | done].
      * simpl in Hin. apply list_elem_of_singleton in Hin.
        apply Hr. rewrite <- Hin. by apply list_elem_of_fmap_2.
Qed.

(** Witness of X11: a tile of a new key on a table of one row. *)
Lemma add_touches_one_key_witness :
  let tbl := [MkRow 1 0 0 0 [Byte.x01]] in
  let t := MkTile 2 0 3 1 (Some [Byte.x02]) in
  let tbl' := [MkRow 1 0 0 0 [Byte.x01]; MkRow 1 2 0 3 [Byte.x02]] in
  (forall k, k <> tile_key t -> rows_of tbl' k = rows_of tbl k)
  /\ row_key <$> tbl'
     = (row_key <$> tbl)
         ++ (if has_key tbl (tile_key t) then [] else [tile_key t])
  /\ add tbl' t = Ok tbl'.
Proof.
  intros tbl t tbl'. apply (add_touches_one_key tbl tbl' t). reflexivity.
Defined.

End TileMoreProps.

(** ** Verbosity tables, handlers and filters (tmlib/logging_utils.py) *)

Module LoggingMoreProps.
Import Py LoggingUtils LoggingUtilsProps LoggingHandlers.

Lemma map_logging_verbosity_cases (v : Z) :
  0 <= v ->
  map_logging_verbosity (VInt v)
  = Ok (if decide (v = 0) then WARN
        else if decide (v = 1) then INFO
        else if decide (v = 2) then DEBUG else NOTSET).
Proof.
  intros Hv. unfold map_logging_verbosity.
  destruct (v >=? 0) eqn:E; [|lia]. cbn [negb]. rewrite len_levels_eq.
  destruct (v >? 4) eqn:E4.
  - repeat (destruct (decide _); [lia|]). reflexivity.
  - assert (v = 0 \/ v = 1 \/ v = 2 \/ v = 3 \/ v = 4) as H by lia.
    destruct H as [->|[->|[->|[->| ->]]]]; reflexivity.
Qed.

(** X13: for verbosities [0 <= v <= w], [map_logging_verbosity] returns
    a level for both, the level of the larger verbosity is not above the
    level of the smaller one, and [LEVELS_TO_VERBOSITY] maps the level of
    [v] back to [v], capped at 3. *)
Theorem verbosity_levels_consistent (v w : Z) :
  0 <= v -> v <= w ->
  exists lv lw,
    map_logging_verbosity (VInt v) = Ok lv
    /\ map_logging_verbosity (VInt w) = Ok lw
    /\ lw <= lv
    /\ LEVELS_TO_VERBOSITY !! lv = Some (Z.min v 3).
Proof.
  intros Hv Hw. do 2 eexists.
  split; [by apply map_logging_verbosity_cases|].
  split; [apply map_logging_verbosity_cases; lia|].
  unfold WARN, INFO, DEBUG, NOTSET.
  repeat destruct (decide _); subst; try lia; split; try lia;
    try reflexivity.
  replace (Z.min v 3) with 3 by lia. reflexivity.
Qed.

Lemma callHandlers_app (hs hs' : root_logger) (rec : LogRecord) :
  callHandlers (hs ++ hs') rec = callHandlers hs rec ++ callHandlers hs' rec.
Proof. unfold callHandlers. by rewrite List.filter_app, fmap_app. Qed.

Lemma callHandlers_configured (hs : root_logger) (rec : LogRecord) :
  callHandlers (configure_logging hs) rec = callHandlers hs rec ++ route rec.
Proof.
  unfold configure_logging. rewrite !callHandlers_app, <- app_assoc. f_equal.
  unfold callHandlers, route, WARN. simpl.
  rewrite andb_true_r.
  destruct (levelno rec >=? 30) eqn:E30.
  - destruct (levelno rec >=? 0) eqn:E0; [|lia]. simpl.
    rewrite bool_decide_eq_false_2; [done|].
    unfold DEBUG, INFO. rewrite !elem_of_cons, elem_of_nil. lia.
  - destruct (levelno rec >=? 0) eqn:E0; simpl.
    + by destruct (bool_decide _).
    + rewrite bool_decide_eq_false_2; [done|].
      unfold DEBUG, INFO. rewrite !elem_of_cons, elem_of_nil. lia.
Qed.

(** X14: after [n] calls of [configure_logging] on a root logger without
    handlers, a record is written [n] times to the stream that its level
    selects: standard error from [WARN] upwards, standard output for
    exactly the levels [DEBUG] and [INFO], and no stream for any other
    level. *)
Theorem configure_logging_routes_by_level (n : nat) (rec : LogRecord) :
  callHandlers (Nat.iter n configure_logging []) rec
  = concat (replicate n (route rec))
  /\ (route rec = [Stderr] <-> WARN <= levelno rec)
  /\ (route rec = [Stdout] <-> levelno rec = DEBUG \/ levelno rec = INFO).
Proof.
  split; [|split].
  - induction n as [|n IH]; [done|].
    rewrite Nat.iter_succ, callHandlers_configured, IH.
    change (S n) with (1 + n)%nat.
    rewrite Nat.add_comm, replicate_add, concat_app. simpl.
    by rewrite app_nil_r.
  - unfold route, WARN. destruct (levelno rec >=? 30) eqn:E; [split; [lia|done]|].
    split; [|lia]. by destruct (bool_decide _).
  - unfold route, WARN, DEBUG, INFO.
    destruct (levelno rec >=? 30) eqn:E; [split; [done|lia]|].
    case_bool_decide as H; rewrite !elem_of_cons, elem_of_nil in H;
      split; try done; tauto.
Qed.

Lemma append_cons (c : ascii) (n rest : string) :
  (String c n ++ rest)%string = String c (n ++ rest)%string.
Proof. reflexivity. Qed.

Lemma prefix_append (n s : string) :
  String.prefix n s = true <-> exists rest, s = (n ++ rest)%string.
Proof.
  revert s. induction n as [|c n IH]; intros s.
  - split; [by exists s | by destruct s].
  - destruct s as [|c' s]; simpl; [split; [done | by intros [? ?]]|].
    destruct (ascii_dec c c') as [<-|Hne].
    + rewrite IH. split; intros [rest H]; exists rest;
        rewrite append_cons in *; congruence.
    + split; [done|]. intros [rest H]. rewrite append_cons in H. congruence.
Qed.

Lemma get_after (n rest : string) :
  String.get (String.length n) (n ++ rest) = String.get 0 rest.
Proof. induction n as [|c n IH]; [done | rewrite append_cons; exact IH]. Qed.

Lemma Filter_filter_spec (name : string) (rec : LogRecord) :
  Filter_filter name rec = true <->
  name = EmptyString \/ record_name rec = name
  \/ exists rest, record_name rec = (name ++ "." ++ rest)%string.
Proof.
  unfold Filter_filter. destruct name as [|c name].
  { simpl. split; [by left | done]. }
  cbn [String.length Nat.eqb].
  destruct (String.eqb_spec (String c name) (record_name rec)) as [E|E].
  { split; [by right; left | done]. }
  destruct (String.prefix (String c name) (record_name rec)) eqn:Ep; cbn [negb].
  - apply prefix_append in Ep as [rest Hrest]. rewrite Hrest.
    change (S (String.length name)) with (String.length (String c name)).
    rewrite get_after. destruct rest as [|d rest]; simpl.
    + split; [done|]. intros [?|[H|[rest' H]]]; [done| |].
      * rewrite Hrest in E. by destruct E.
      * by apply String.app_inj in H.
    + destruct (Ascii.eqb_spec d ".") as [->|Hd].
      * split; [|done]. intros _. right; right. by exists rest.
      * split; [done|]. intros [?|[H|[rest' H]]]; [done| |].
        -- rewrite Hrest in E. by destruct E.
        -- apply String.app_inj in H.
           exfalso. apply Hd. by injection H.
  - split; [done|]. intros [?|[H|[rest H]]]; [done|by destruct E|].
    assert (String.prefix (String c name) (record_name rec) = true); [|congruence].
    apply prefix_append. by exists ("." ++ rest)%string.
Qed.

(** X15: a [Whitelist] filter lets a record pass exactly when one of its
    names is empty, is the name of the record's logger, or is followed in
    that name by a dot; a whitelist without names lets nothing pass. *)
Theorem whitelist_passes_descendants (whitelist : list string) (rec : LogRecord) :
  filter_filter (Whitelist whitelist) rec = true <->
  exists name, name ∈ whitelist
    /\ (name = EmptyString \/ record_name rec = name
        \/ exists rest, record_name rec = (name ++ "." ++ rest)%string).
Proof.
  simpl. rewrite existsb_exists. split.
  - intros (name & Hin & H). exists name. split; [by apply list_elem_of_In|].
    by apply Filter_filter_spec.
  - intros (name & Hin & H). exists name. split; [by apply list_elem_of_In|].
    by apply Filter_filter_spec.
Qed.

(** Witness of X13 at the verbosities 1 and 7. *)
Lemma verbosity_levels_consistent_witness :
  exists lv lw,
    map_logging_verbosity (VInt 1) = Ok lv
    /\ map_logging_verbosity (VInt 7) = Ok lw
    /\ lw <= lv
    /\ LEVELS_TO_VERBOSITY !! lv = Some (Z.min 1 3).
Proof. apply (verbosity_levels_consistent 1 7); lia. Defined.

End LoggingMoreProps.

(** ** Jobs of the illumination statistics step
       (tmlib/workflow/corilla/api.py) *)

Module CorillaProps.
Import Corilla.

Lemma nested_loops (cycles : list Cycle) (channels : list Channel)
    (st : Z * list run_description) :
  foldl (fun st cycle => foldl (visit cycle) st channels) st cycles
  = foldl (fun st p => visit p.1 st p.2) st (visits cycles channels).
Proof.
  unfold visits. revert st. induction cycles as [|cycle cycles IH]; intros st; [done|].
  cbn [foldl]. rewrite IH. simpl. rewrite foldl_app. f_equal.
  generalize st. clear. induction channels as [|ch channels IH]; intros st; [done|].
  simpl. by rewrite IH.
Qed.

Lemma flat_loop (ps : list (Cycle * Channel)) (count : Z)
    (run : list run_description) :
  foldl (fun st p => visit p.1 st p.2) (count, run) ps
  = (count + Z.of_nat (length (filter with_files ps)),
     run ++ imap (fun i p => job_of (count + Z.of_nat i + 1) p)
                 (filter with_files ps)).
Proof.
  revert count run. induction ps as [|p ps IH]; intros count run.
  - simpl. by rewrite Z.add_0_r, app_nil_r.
  - cbn [foldl]. unfold visit at 2.
    destruct (files_of p.1 p.2) as [|f files] eqn:E.
    + rewrite filter_cons_False by (unfold with_files; rewrite E; tauto).
      apply IH.
    + rewrite filter_cons_True by (unfold with_files; by rewrite E).
      rewrite IH. cbn [length imap]. f_equal; [lia|].
      rewrite <- app_assoc. f_equal. cbn [app]. f_equal.
      * unfold job_of. rewrite E. f_equal. lia.
      * apply imap_ext. intros i x _. simpl. f_equal. lia.
Qed.

Lemma create_batches_flat (cycles : list Cycle) (channels : list Channel) :
  create_batches cycles channels
  = imap (fun i p => job_of (Z.of_nat i + 1) p)
         (filter with_files (visits cycles channels)).
Proof.
  unfold create_batches. rewrite nested_loops, flat_loop. simpl.
  apply imap_ext. intros i x _. simpl. f_equal.
Qed.

Lemma elem_of_visits (cycles : list Cycle) (channels : list Channel)
    (cycle : Cycle) (channel : Channel) :
  (cycle, channel) ∈ visits cycles channels
  <-> cycle ∈ cycles /\ channel ∈ channels.
Proof.
  unfold visits. rewrite list_elem_of_bind. split.
  - intros (cy & Hin & Hcy). apply list_elem_of_fmap in Hin as (ch & [= -> ->] & Hch).
    done.
  - intros [Hcy Hch]. exists cycle. split; [|done]. by apply list_elem_of_fmap_2.
Qed.

(** X16: the jobs of [create_batches] are numbered from 1 in the order of
    the list; every job has at least one file, and stands for one cycle
    and one channel of the two queries: it names exactly the files of
    that cycle whose channel is that channel, ids and locations in the
    same order. *)
Theorem jobs_numbered_and_homogeneous (cycles : list Cycle)
    (channels : list Channel) (j : nat) (job : run_description) :
  create_batches cycles channels !! j = Some job ->
  id job = Z.of_nat j + 1
  /\ channel_image_files_ids job <> []
  /\ exists cycle channel,
       cycle ∈ cycles /\ channel ∈ channels
       /\ run_cycle_id job = cycle_id cycle
       /\ run_channel_id job = channel_id channel
       /\ channel_image_files_ids job = file_id <$> files_of cycle channel
       /\ inputs_channel_image_files job = location <$> files_of cycle channel.
Proof.
  rewrite create_batches_flat. intros H.
  apply list_lookup_imap_Some in H as ([cycle channel] & Hp & ->).
  apply list_elem_of_lookup_2, list_elem_of_filter in Hp as [Hfiles Hin].
  apply elem_of_visits in Hin as [Hcy Hch].
  split; [done|]. split.
  - simpl. unfold with_files in Hfiles. simpl in Hfiles.
    by destruct (files_of cycle channel).
  - by exists cycle, channel.
Qed.

(** X17: a file of a queried cycle is named by a job of its cycle and
    channel exactly when its channel is among the queried channels; a
    file whose channel is not queried is silently left out. *)
Theorem files_of_queried_channels_are_covered (cycles : list Cycle)
    (channels : list Channel) (cycle : Cycle) (f : ChannelImageFile) :
  cycle ∈ cycles -> f ∈ channel_image_files cycle ->
  (exists channel, channel ∈ channels /\ channel_id channel = file_channel_id f)
  <-> exists job, job ∈ create_batches cycles channels
        /\ run_cycle_id job = cycle_id cycle
        /\ run_channel_id job = file_channel_id f
        /\ file_id f ∈ channel_image_files_ids job
        /\ location f ∈ inputs_channel_image_files job.
Proof.
  intros Hcy Hf. rewrite create_batches_flat. split.
  - intros (channel & Hch & Hid).
    assert (f ∈ files_of cycle channel) as Hin
      by (apply list_elem_of_filter; by split).
    assert ((cycle, channel) ∈ filter with_files (visits cycles channels)) as Hp.
    { apply list_elem_of_filter. split; [|by apply elem_of_visits].
      unfold with_files. simpl. intros E. rewrite E in Hin. inversion Hin. }
    apply list_elem_of_lookup in Hp as [i Hi].
    exists (job_of (Z.of_nat i + 1) (cycle, channel)). split.
    + apply list_elem_of_lookup. exists i. apply list_lookup_imap_Some.
      by exists (cycle, channel).
    + simpl. split; [done|]. split; [done|].
      split; by apply list_elem_of_fmap_2.
  - intros (job & Hjob & _ & Hch & _).
    apply list_elem_of_lookup in Hjob as [i Hi].
    apply list_lookup_imap_Some in Hi as ([cy ch] & Hp & ->).
    apply list_elem_of_lookup_2, list_elem_of_filter in Hp as [_ Hin].
    apply elem_of_visits in Hin as [_ Hin]. by exists ch.
Qed.

(** Witness of X16: the only job of one cycle and the channels 5 and 7. *)
Lemma jobs_numbered_and_homogeneous_witness :
  let job := MkRun 1 ["a.h5"] [10] 5 1 in
  id job = Z.of_nat 0 + 1
  /\ channel_image_files_ids job <> []
  /\ exists cycle channel,
       cycle ∈ one_cycle /\ channel ∈ [MkChannel 5; MkChannel 7]
       /\ run_cycle_id job = cycle_id cycle
       /\ run_channel_id job = channel_id channel
       /\ channel_image_files_ids job = file_id <$> files_of cycle channel
       /\ inputs_channel_image_files job = location <$> files_of cycle channel.
Proof.
  intros job.
  apply (jobs_numbered_and_homogeneous one_cycle [MkChannel 5; MkChannel 7]).
  reflexivity.
Defined.

(** Witness of X17: the file of channel 6 is in no job when the channels
    5 and 7 are queried. *)
Lemma files_of_queried_channels_are_covered_witness :
  let cycle := MkCycle 1 [MkFile 10 "a.h5" 5; MkFile 11 "b.h5" 6] in
  let f := MkFile 11 "b.h5" 6 in
  (exists channel,
      channel ∈ [MkChannel 5; MkChannel 7]
      /\ channel_id channel = file_channel_id f)
  <-> exists job, job ∈ create_batches one_cycle [MkChannel 5; MkChannel 7]
        /\ run_cycle_id job = cycle_id cycle
        /\ run_channel_id job = file_channel_id f
        /\ file_id f ∈ channel_image_files_ids job
        /\ location f ∈ inputs_channel_image_files job.
Proof.
  intros cycle f.
  apply (files_of_queried_channels_are_covered one_cycle
           [MkChannel 5; MkChannel 7] cycle f).
  - left.
  - right. left.
Defined.

End CorillaProps.

(** ** Objects at the border of a site (tmt/imageutil.py) *)

Module BorderObjectsProps.
Import Numpy BorderObjects.

Lemma unique_elem (a : list Z) (o : Z) : o ∈ unique a <-> o ∈ a.
Proof.
  unfold unique. rewrite merge_sort_Permutation. apply elem_of_remove_dups.
Qed.

Lemma unique_NoDup (a : list Z) : NoDup (unique a).
Proof.
  unfold unique. rewrite merge_sort_Permutation. apply NoDup_remove_dups.
Qed.

Lemma strictly_sorted (l : list Z) :
  StronglySorted Z.le l -> NoDup l -> StronglySorted Z.lt l.
Proof.
  induction 1 as [|x l Hs IH Hall]; intros Hnd; [constructor|].
  apply NoDup_cons in Hnd as [Hx Hnd]. constructor; [by apply IH|].
  rewrite Forall_forall in *. intros y Hy.
  assert (x <> y) by (intros ->; by apply Hx).
  specialize (Hall y Hy). lia.
Qed.

Lemma unique_sorted (a : list Z) : StronglySorted Z.lt (unique a).
Proof.
  apply strictly_sorted; [|apply unique_NoDup].
  unfold unique. apply StronglySorted_merge_sort; apply _.
Qed.

Lemma elem_of_column (f : list Z -> option Z) (im : ndarray) (col : list Z)
    (o : Z) :
  mapM f im = Some col ->
  o ∈ col <-> exists i row, im !! i = Some row /\ f row = Some o.
Proof.
  intros H. apply mapM_Some in H. split.
  - intros Ho. apply list_elem_of_lookup in Ho as [i Hi].
    destruct (Forall2_lookup_r _ _ _ _ _ H Hi) as (row & Hrow & Hf).
    by exists i, row.
  - intros (i & row & Hrow & Hf).
    destruct (Forall2_lookup_l _ _ _ _ _ H Hrow) as (o' & Ho' & Hf').
    rewrite Hf in Hf'. injection Hf' as <-. by apply list_elem_of_lookup_2 in Ho'.
Qed.

Lemma last_Some_lookup {A} (l : list A) (x : A) :
  last l = Some x <-> exists j, l !! j = Some x /\ S j = length l.
Proof.
  rewrite last_lookup. split.
  - intros H. exists (pred (length l)). split; [done|].
    apply lookup_lt_Some in H. lia.
  - intros (j & Hj & Hlen). by replace (pred (length l)) with j by lia.
Qed.

Lemma head_Some_lookup {A} (l : list A) (x : A) :
  head l = Some x <-> l !! 0%nat = Some x.
Proof. by destruct l. Qed.

Lemma on_border_edges (im : ndarray) (e1 e2 e3 e4 : list Z) (o : Z) :
  first_row im = Return e1 -> last_row im = Return e2 ->
  first_col im = Return e3 -> last_col im = Return e4 ->
  on_border im o <-> o ∈ e1 \/ o ∈ e2 \/ o ∈ e3 \/ o ∈ e4.
Proof.
  unfold first_row, last_row, first_col, last_col.
  intros H1 H2 H3 H4.
  destruct im as [|r0 im'] eqn:Eim; [done|]. injection H1 as <-.
  rewrite <- Eim in *.
  destruct (last im) as [rl|] eqn:El; [|done]. injection H2 as <-.
  destruct (mapM head im) as [c0|] eqn:E3; [|done]. injection H3 as <-.
  destruct (mapM last im) as [cl|] eqn:E4; [|done]. injection H4 as <-.
  rewrite (elem_of_column _ _ _ o E3), (elem_of_column _ _ _ o E4).
  apply last_Some_lookup in El as (il & Hil & Hlen).
  assert (im !! 0%nat = Some r0) as H0 by (by rewrite Eim).
  split.
  - intros (i & j & row & Hrow & Ho & [->|[Hi|[->|Hj]]]).
    + left. rewrite H0 in Hrow. injection Hrow as <-.
      by apply list_elem_of_lookup_2 in Ho.
    + right; left. assert (i = il) as -> by lia.
      rewrite Hil in Hrow. injection Hrow as <-.
      by apply list_elem_of_lookup_2 in Ho.
    + right; right; left. exists i, row. split; [done|].
      by apply head_Some_lookup.
    + right; right; right. exists i, row. split; [done|].
      apply last_Some_lookup. by exists j.
  - intros [Ho|[Ho|[(i & row & Hrow & Ho)|(i & row & Hrow & Ho)]]].
    + apply list_elem_of_lookup in Ho as [j Hj].
      exists 0%nat, j, r0. split; [done|]. split; [done|]. by left.
    + apply list_elem_of_lookup in Ho as [j Hj].
      exists il, j, rl. split; [done|]. split; [done|]. right; by left.
    + apply head_Some_lookup in Ho. exists i, 0%nat, row. split; [done|]. split; [done|]. right; right; by left.
    + apply last_Some_lookup in Ho as (j & Hj & Hlenj).
      exists i, j, row. split; [done|]. split; [done|]. right; right; by right.
Qed.

Lemma occurs_nonzero (im : ndarray) (o : Z) :
  o ∈ unique (nonzero_entries im) <-> o <> 0 /\ occurs im o.
Proof.
  rewrite unique_elem. unfold nonzero_entries, occurs.
  rewrite list_elem_of_filter. 
  assert (o ∈ concat im <-> exists row, row ∈ im /\ o ∈ row) as ->; [|done].
  induction im as [|r im IH]; simpl.
  - split; [intros H; inversion H | intros (? & H & _); inversion H].
  - rewrite elem_of_app, IH. split.
    + intros [H|(row & Hrow & H)]; [exists r; split; [left|done]|].
      exists row. split; [by right | done].
    + intros (row & Hrow & H). apply elem_of_cons in Hrow as [->|Hrow];
        [by left | right; by exists row].
Qed.

Lemma edges_exist (im : ndarray) (w : nat) :
  im <> [] -> (0 < w)%nat -> rectangular w im ->
  exists e1 e2 e3 e4,
    first_row im = Return e1 /\ last_row im = Return e2
    /\ first_col im = Return e3 /\ last_col im = Return e4.
Proof.
  intros Him Hw Hrect.
  assert (forall f : list Z -> option Z,
            (forall row, length row = w -> is_Some (f row)) ->
            is_Some (mapM f im)) as Hcol.
  { intros f Hf. apply mapM_is_Some. unfold rectangular in Hrect.
    rewrite Forall_forall in *. intros row Hrow. apply Hf, Hrect, Hrow. }
  destruct (Hcol head) as [e3 H3].
  { intros [|x row] Hlen; [simpl in Hlen; lia | by eexists]. }
  destruct (Hcol last) as [e4 H4].
  { intros row Hlen. rewrite last_lookup. apply lookup_lt_is_Some. lia. }
  unfold first_row, last_row, first_col, last_col. rewrite H3, H4.
  destruct im as [|r0 im']; [done|].
  destruct (last (r0 :: im')) as [rl|] eqn:El.
  - by exists r0, rl, e3, e4.
  - rewrite last_lookup in El. apply lookup_ge_None in El. simpl in El. lia.
Qed.

(** X18: on an image with at least one row and one column,
    [find_border_objects] returns one flag per distinct non-zero label of
    the image, in ascending order of the labels; the flag is 1 when the
    label occurs in the first or last row or column and 0 otherwise. *)
Theorem find_border_objects_flags (im : ndarray) (w : nat) :
  im <> [] -> (0 < w)%nat -> rectangular w im ->
  exists labels flags,
    find_border_objects im = Return flags
    /\ StronglySorted Z.lt labels
    /\ (forall o, o ∈ labels <-> o <> 0 /\ occurs im o)
    /\ Forall2 (fun o flag => flag = 1 /\ on_border im o
                              \/ flag = 0 /\ ~ on_border im o)
               labels flags.
Proof.
  intros Him Hw Hrect.
  destruct (edges_exist im w Him Hw Hrect)
    as (e1 & e2 & e3 & e4 & H1 & H2 & H3 & H4).
  exists (unique (nonzero_entries im)). eexists.
  unfold find_border_objects. rewrite H1, H2, H3, H4. cbn [and_then].
  split; [reflexivity|]. split; [apply unique_sorted|].
  split; [apply occurs_nonzero|].
  apply Forall2_fmap_r, Forall_Forall2_diag, Forall_forall.
  intros o Ho. apply occurs_nonzero in Ho as [Hnz _]. unfold compose.
  rewrite (on_border_edges im e1 e2 e3 e4 o H1 H2 H3 H4).
  destruct (decide _) as [Hin|Hin]; [left|right]; (split; [done|]);
    revert Hin; cbn [foldr];
    rewrite elem_of_difference, !elem_of_union, !elem_of_list_to_set,
      !unique_elem, elem_of_empty, not_elem_of_singleton; tauto.
Qed.

(** X19: [find_border_objects] raises [IndexError] exactly on an image
    without rows or without columns. *)
Theorem find_border_objects_needs_pixels (im : ndarray) (w : nat) :
  rectangular w im ->
  find_border_objects im = Raised IndexError <-> im = [] \/ w = 0%nat.
Proof.
  intros Hrect. split.
  - intros H. destruct (decide (im = [])) as [|Him]; [by left|].
    destruct (decide (w = 0%nat)) as [|Hw]; [by right|].
    destruct (find_border_objects_flags im w) as (? & ? & Hok & _);
      [done | lia | done | congruence].
  - intros [->| ->]; [done|].
    destruct im as [|r0 im']; [done|].
    unfold find_border_objects.
    cbn [first_row and_then]. unfold last_row.
    destruct (last (r0 :: im')); [|done]. cbn [and_then].
    apply Forall_cons in Hrect as [Hr0 _].
    destruct r0; [|done]. done.
Qed.

(** Witness of X18: label 1 touches the border, label 2 does not. *)
Lemma find_border_objects_flags_witness :
  exists labels flags,
    find_border_objects [[1; 0; 0]; [0; 2; 0]; [0; 0; 0]] = Return flags
    /\ StronglySorted Z.lt labels
    /\ (forall o, o ∈ labels <->
                  o <> 0 /\ occurs [[1; 0; 0]; [0; 2; 0]; [0; 0; 0]] o)
    /\ Forall2 (fun o flag =>
                  flag = 1 /\ on_border [[1; 0; 0]; [0; 2; 0]; [0; 0; 0]] o
                  \/ flag = 0
                     /\ ~ on_border [[1; 0; 0]; [0; 2; 0]; [0; 0; 0]] o)
               labels flags.
Proof.
  apply (find_border_objects_flags [[1; 0; 0]; [0; 2; 0]; [0; 0; 0]] 3).
  - discriminate.
  - lia.
  - repeat constructor.
Defined.

(** Witness of X19: two rows without columns. *)
Lemma find_border_objects_needs_pixels_witness :
  find_border_objects [[]; []] = Raised IndexError
  <-> [[]; []] = ([] : ndarray) \/ 0%nat = 0%nat.
Proof.
  apply (find_border_objects_needs_pixels [[]; []] 0). repeat constructor.
Defined.

End BorderObjectsProps.

(** ** The grid of wells of a plate (src/tmlib/models/plate.py) *)

Module PlateGridProps.
Import Py Numpy PlateGrid.

Lemma determine_plate_dimensions_cases (n : Z) :
  determine_plate_dimensions n =
    if decide (n = 1) then Return (1, 1)%nat
    else if decide (n = 96) then Return (8, 12)%nat
    else if decide (n = 384) then Return (16, 24)%nat
    else Raised (Exn KeyError).
Proof.
  unfold determine_plate_dimensions, plate_dimensions.
  repeat (destruct (decide _) as [->|]; [reflexivity|]).
  rewrite !lookup_insert_ne by done. by rewrite lookup_singleton_ne.
Qed.

Lemma index_Return (size : nat) (i : Z) (k : nat) :
  index size i = Return k -> (k < size)%nat.
Proof.
  unfold index.
  destruct ((0 <=? i) && (i <? Z.of_nat size)) eqn:E1.
  - intros [= <-]. apply andb_true_iff in E1. lia.
  - destruct ((- Z.of_nat size <=? i) && (i <? 0)) eqn:E2; [|done].
    intros [= <-]. apply andb_true_iff in E2. lia.
Qed.

Lemma index_Raised (size : nat) (i : Z) (e : raised) :
  index size i = Raised e -> e = IndexError.
Proof.
  unfold index. repeat destruct (_ && _); try done. by intros [= <-].
Qed.

Lemma index_in_range (size : nat) (i : Z) :
  (exists k, index size i = Return k)
  <-> - Z.of_nat size <= i < Z.of_nat size.
Proof.
  unfold index.
  destruct ((0 <=? i) && (i <? Z.of_nat size)) eqn:E1.
  - apply andb_true_iff in E1. split; [lia | by eexists].
  - destruct ((- Z.of_nat size <=? i) && (i <? 0)) eqn:E2.
    + apply andb_true_iff in E2. split; [lia | by eexists].
    + apply andb_false_iff in E1, E2. split; [by intros [? ?] | lia].
Qed.

Lemma position_Some (h w : nat) (c : Z * Z) (p : nat * nat) :
  position h w c = Some p -> (p.1 < h)%nat /\ (p.2 < w)%nat.
Proof.
  unfold position.
  destruct (index h c.1) as [i|] eqn:E1; [|done].
  destruct (index w c.2) as [j|] eqn:E2; [|done].
  intros [= <-]. split; by eapply index_Return.
Qed.

Lemma position_in_range (h w : nat) (c : Z * Z) :
  is_Some (position h w c)
  <-> (- Z.of_nat h <= c.1 < Z.of_nat h) /\ (- Z.of_nat w <= c.2 < Z.of_nat w).
Proof.
  rewrite <- !index_in_range. unfold position. split.
  - intros [p Hp].
    destruct (index h c.1) as [i|]; [|done].
    destruct (index w c.2) as [j|]; [|done]. split; by eexists.
  - intros [[i ->] [j ->]]. by eexists.
Qed.

Lemma setitem_position (h w : nat) (g : ndarray) (c : Z * Z) (v : Z) :
  setitem h w g c v =
    match position h w c with
    | Some p => Return (alter (<[p.2 := v]>) p.1 g)
    | None => Raised IndexError
    end.
Proof.
  unfold setitem, position.
  destruct (index h c.1) as [i|e] eqn:E1; simpl.
  - destruct (index w c.2) as [j|e] eqn:E2; simpl; [done|].
    by rewrite (index_Raised _ _ _ E2).
  - by rewrite (index_Raised _ _ _ E1).
Qed.

Lemma fill_succeeds (h w : nat) (ws : list Well) (g : ndarray) :
  (exists g', fill h w g ws = Return g')
  <-> Forall (fun well => is_Some (position h w (coordinate well))) ws.
Proof.
  revert g. induction ws as [|well ws IH]; intros g.
  - split; [constructor | by eexists].
  - cbn [fill]. rewrite setitem_position, Forall_cons.
    destruct (position h w (coordinate well)) as [p|]; cbn [and_then].
    + rewrite IH. split; [by split | by intros [_ ?]].
    + split; [by intros [? ?] | by intros [[? ?] _]].
Qed.

Lemma fill_fails (h w : nat) (ws : list Well) (g : ndarray) (e : raised) :
  fill h w g ws = Raised e -> e = IndexError.
Proof.
  revert g. induction ws as [|well ws IH]; intros g; [done|].
  cbn [fill]. rewrite setitem_position.
  destruct (position h w (coordinate well)) as [p|]; cbn [and_then].
  - apply IH.
  - by intros [= <-].
Qed.

Lemma zeros_shape (h w : nat) : has_shape h w (zeros h w).
Proof.
  split; [apply length_replicate|].
  apply Forall_replicate. apply length_replicate.
Qed.

Lemma alter_shape (h w : nat) (g : ndarray) (i j : nat) (v : Z) :
  has_shape h w g -> has_shape h w (alter (<[j := v]>) i g).
Proof.
  intros [Hlen Hrows]. split; [by rewrite length_alter|].
  apply Forall_alter; [done|]. intros row _. by rewrite length_insert.
Qed.

Lemma cell_alter (h w : nat) (g : ndarray) (p q : nat * nat) (v : Z) :
  has_shape h w g -> (p.1 < h)%nat -> (p.2 < w)%nat ->
  cell (alter (<[p.2 := v]>) p.1 g) q
  = if decide (q = p) then Some v else cell g q.
Proof.
  intros [Hlen Hrows] Hi Hj. unfold cell.
  destruct p as [i j], q as [i' j']. cbn [fst snd] in *.
  destruct (decide ((i', j') = (i, j))) as [[= -> ->]|Hne].
  - rewrite list_lookup_alter_eq.
    destruct (g !! i) as [row|] eqn:E.
    + assert (length row = w) as Hrow
        by (rewrite Forall_forall in Hrows; apply Hrows;
            by apply list_elem_of_lookup_2 in E).
      simpl. apply list_lookup_insert_eq. lia.
    + apply lookup_ge_None in E. lia.
  - destruct (decide (i' = i)) as [->|Hnei].
    + rewrite list_lookup_alter_eq. destruct (g !! i) as [row|]; [|done].
      simpl. apply list_lookup_insert_ne. congruence.
    + by rewrite list_lookup_alter_ne.
Qed.

Lemma written_cons (h w : nat) (well : Well) (ws : list Well) (p : nat * nat) :
  written h w (well :: ws) p
  = match written h w ws p with
    | Some v => Some v
    | None => if decide (position h w (coordinate well) = Some p)
              then Some (well_id well) else None
    end.
Proof.
  unfold written.
  destruct (decide (position h w (coordinate well) = Some p)) as [E|E].
  - rewrite filter_cons_True by done. rewrite last_cons.
    by destruct (last _).
  - rewrite filter_cons_False by done. by destruct (last _).
Qed.

Lemma fill_cells (h w : nat) (ws : list Well) (g g' : ndarray) :
  has_shape h w g -> fill h w g ws = Return g' ->
  has_shape h w g'
  /\ forall p, cell g' p = match written h w ws p with
                           | Some v => Some v
                           | None => cell g p
                           end.
Proof.
  revert g. induction ws as [|well ws IH]; intros g Hg.
  - intros [= <-]. done.
  - cbn [fill]. rewrite setitem_position.
    destruct (position h w (coordinate well)) as [q|] eqn:Eq; [|done].
    cbn [and_then]. intros Hfill.
    destruct (position_Some _ _ _ _ Eq) as [Hi Hj].
    destruct (IH _ (alter_shape h w g q.1 q.2 (well_id well) Hg) Hfill)
      as [Hg' Hcells].
    split; [done|]. intros p. rewrite Hcells, written_cons.
    destruct (written h w ws p); [done|].
    rewrite (cell_alter h w) by done.
    destruct (decide (p = q)) as [->|Hne].
    + by rewrite decide_True.
    + by rewrite decide_False by congruence.
Qed.

Lemma cell_zeros (h w : nat) (p : nat * nat) :
  cell (zeros h w) p
  = if decide ((p.1 < h)%nat /\ (p.2 < w)%nat) then Some 0 else None.
Proof.
  unfold cell, zeros.
  destruct (decide (p.1 < h)%nat) as [Hi|Hi].
  - rewrite lookup_replicate_2 by done. simpl.
    destruct (decide (p.2 < w)%nat) as [Hj|Hj].
    + rewrite lookup_replicate_2 by done. by rewrite decide_True.
    + rewrite decide_False by tauto. apply lookup_replicate_None. lia.
  - rewrite decide_False by tauto.
    destruct (replicate h (replicate w 0) !! p.1) eqn:E; [|done].
    apply lookup_replicate in E. lia.
Qed.

(** X20: [well_grid] returns a grid exactly when the plate format is 1,
    96 or 384 and every coordinate [(y, x)] of a well lies within
    [-height <= y < height] and [-width <= x < width]; the grid then has
    the dimensions of the format, whose product is the format.  It raises
    [KeyError] exactly for another format, whatever the wells, and
    [IndexError] for a supported format with a coordinate out of range. *)
Theorem well_grid_succeeds_iff (self : Plate) :
  match well_grid self with
  | Return grid =>
      exists h w, dimensions self = Return (h, w)
        /\ Z.of_nat (h * w) = plate_format self
        /\ has_shape h w grid
        /\ Forall (fun well =>
                     - Z.of_nat h <= (coordinate well).1 < Z.of_nat h
                     /\ - Z.of_nat w <= (coordinate well).2 < Z.of_nat w)
                  (wells self)
  | Raised (Exn e) =>
      e = KeyError /\ plate_format self ∉ [1; 96; 384]
  | Raised IndexError =>
      exists h w, dimensions self = Return (h, w)
        /\ Exists (fun well =>
                     ~ (- Z.of_nat h <= (coordinate well).1 < Z.of_nat h
                        /\ - Z.of_nat w <= (coordinate well).2 < Z.of_nat w))
                  (wells self)
  end.
Proof.
  unfold well_grid, dimensions, n_wells.
  rewrite determine_plate_dimensions_cases.
  assert (forall h w : nat,
    match fill h w (zeros h w) (wells self) with
    | Return grid =>
        has_shape h w grid
        /\ Forall (fun well =>
                     - Z.of_nat h <= (coordinate well).1 < Z.of_nat h
                     /\ - Z.of_nat w <= (coordinate well).2 < Z.of_nat w)
                  (wells self)
    | Raised e =>
        e = IndexError
        /\ Exists (fun well =>
                     ~ (- Z.of_nat h <= (coordinate well).1 < Z.of_nat h
                        /\ - Z.of_nat w <= (coordinate well).2 < Z.of_nat w))
                  (wells self)
    end) as Hfill.
  { intros h w. destruct (fill h w (zeros h w) (wells self)) as [g|e] eqn:E.
    - split; [by apply (fill_cells h w _ _ _ (zeros_shape h w) E)|].
      assert (exists g', fill h w (zeros h w) (wells self) = Return g') as H
        by (by eexists).
      apply fill_succeeds in H. eapply Forall_impl; [exact H|].
      intros well Hw. by apply position_in_range.
    - split; [by apply fill_fails in E|].
      apply not_Forall_Exists; [apply _|]. intros H.
      assert (exists g', fill h w (zeros h w) (wells self) = Return g') as [g' Hg'].
      { apply fill_succeeds. eapply Forall_impl; [exact H|].
        intros well Hw. by apply position_in_range. }
      congruence. }
  destruct (decide (plate_format self = 1)) as [E|E1];
    [|destruct (decide (plate_format self = 96)) as [E|E2];
      [|destruct (decide (plate_format self = 384)) as [E|E3]]];
    cbn [and_then fst snd].
  - specialize (Hfill 1%nat 1%nat).
    destruct (fill 1 1 (zeros 1 1) (wells self)) as [g|e].
    + exists 1%nat, 1%nat. by rewrite E.
    + destruct Hfill as [-> H]. by exists 1%nat, 1%nat.
  - specialize (Hfill 8%nat 12%nat).
    destruct (fill 8 12 (zeros 8 12) (wells self)) as [g|e].
    + exists 8%nat, 12%nat. by rewrite E.
    + destruct Hfill as [-> H]. by exists 8%nat, 12%nat.
  - specialize (Hfill 16%nat 24%nat).
    destruct (fill 16 24 (zeros 16 24) (wells self)) as [g|e].
    + exists 16%nat, 24%nat. by rewrite E.
    + destruct Hfill as [-> H]. by exists 16%nat, 24%nat.
  - split; [done|]. rewrite !elem_of_cons, elem_of_nil. tauto.
Qed.

(** X21: the cell of the grid at a position holds the id of the last well
    of [wells] whose coordinate denotes that position, a negative
    coordinate counting from the end, and 0 when there is no such well:
    two wells of one position are not reported, the later one wins. *)
Theorem well_grid_last_well_wins (self : Plate) (grid : ndarray) (h w : nat) :
  dimensions self = Return (h, w) ->
  well_grid self = Return grid ->
  forall p, (p.1 < h)%nat -> (p.2 < w)%nat ->
    cell grid p = Some (default 0 (written h w (wells self) p)).
Proof.
  unfold well_grid. intros -> Hfill p Hi Hj. cbn [and_then fst snd] in Hfill.
  destruct (fill_cells h w _ _ _ (zeros_shape h w) Hfill) as [_ Hcells].
  rewrite Hcells, cell_zeros, decide_True by done.
  by destruct (written h w (wells self) p).
Qed.

(** *** Empty wells *)

Lemma elem_of_zero_positions (row : list Z) (j : nat) :
  j ∈ zero_positions row <-> row !! j = Some 0.
Proof.
  unfold zero_positions. rewrite list_elem_of_fmap. split.
  - intros ([j' v] & -> & H). apply list_elem_of_filter in H as [Hv H].
    apply elem_of_lookup_imap in H as (i & y & [= -> ->] & Hy).
    simpl in *. by subst.
  - intros H. exists (j, 0). split; [done|].
    apply list_elem_of_filter. split; [done|].
    apply elem_of_lookup_imap. by exists j, 0.
Qed.

Lemma elem_of_where_not (grid : ndarray) (p : nat * nat) :
  p ∈ where_not grid <-> cell grid p = Some 0.
Proof.
  unfold where_not, cell. rewrite ImExtractProps.elem_of_concat. split.
  - intros (l & Hl & Hp). apply elem_of_lookup_imap in Hl as (i & row & -> & Hrow).
    apply list_elem_of_fmap in Hp as (j & -> & Hj). simpl. rewrite Hrow. simpl.
    by apply elem_of_zero_positions.
  - destruct p as [i j]. simpl. destruct (grid !! i) as [row|] eqn:E; [|done].
    simpl. intros Hj. exists (pair i <$> zero_positions row). split.
    + apply elem_of_lookup_imap. by exists i, row.
    + apply list_elem_of_fmap_2. by apply elem_of_zero_positions.
Qed.

Lemma length_concat_imap {A B} (f : nat -> A -> list B) (c : A -> nat)
    (l : list A) :
  (forall i x, length (f i x) = c x) ->
  length (concat (imap f l)) = sum_list (c <$> l).
Proof.
  revert f. induction l as [|x l IH]; intros f Hf; [done|].
  cbn [imap concat fmap list_fmap sum_list]. rewrite length_app, Hf.
  f_equal. apply IH. intros i y. apply Hf.
Qed.

Lemma length_filter_imap_pair {A} (P : A -> Prop) `{!forall x, Decision (P x)}
    (g : nat -> nat) (l : list A) :
  length (filter (fun p : nat * A => P p.2) (imap (fun i x => (g i, x)) l))
  = length (filter P l).
Proof.
  revert g. induction l as [|x l IH]; intros g; [done|].
  cbn [imap]. destruct (decide (P x)) as [HP|HP].
  - rewrite !filter_cons_True by done. cbn [length]. f_equal. apply (IH (g ∘ S)).
  - rewrite !filter_cons_False by done. apply (IH (g ∘ S)).
Qed.

Lemma length_where_not (grid : ndarray) :
  length (where_not grid)
  = sum_list ((fun row => length (filter (fun v => v = 0) row)) <$> grid).
Proof.
  unfold where_not. apply length_concat_imap. intros i row.
  unfold zero_positions. rewrite !length_fmap.
  exact (length_filter_imap_pair (fun v => v = 0) (fun i => i) row).
Qed.

Lemma zeros_in_row_after_insert (row : list Z) (j : nat) (v : Z) :
  row !! j = Some 0 -> v <> 0 ->
  S (length (filter (fun x : Z => x = 0) (<[j := v]> row)))
  = length (filter (fun x : Z => x = 0) row).
Proof.
  intros Hj Hv. apply lookup_lt_Some in Hj as Hlt.
  rewrite insert_take_drop by done.
  rewrite <- (take_drop_middle row j 0 Hj) at 3.
  rewrite !filter_app, !length_app.
  rewrite filter_cons_False by done. rewrite filter_cons_True by done.
  simpl. lia.
Qed.

Lemma zeros_after_alter (grid : ndarray) (p : nat * nat) (v : Z) :
  cell grid p = Some 0 -> v <> 0 ->
  S (length (where_not (alter (<[p.2 := v]>) p.1 grid)))
  = length (where_not grid).
Proof.
  unfold cell. destruct (grid !! p.1) as [row|] eqn:E; [|done]. simpl.
  intros Hj Hv. rewrite !length_where_not.
  rewrite <- (take_drop_middle grid p.1 row E) at 2.
  assert (alter (<[p.2 := v]>) p.1 grid
          = take p.1 grid ++ <[p.2 := v]> row :: drop (S p.1) grid) as ->.
  { apply list_eq. intros i. rewrite list_lookup_alter.
    apply lookup_lt_Some in E as Hlt.
    destruct (decide (p.1 = i)) as [<-|Hne].
    - rewrite E. simpl. rewrite lookup_app_r by (rewrite length_take; lia).
      rewrite length_take. by replace (p.1 - p.1 `min` length grid)%nat with 0%nat by lia.
    - rewrite <- (take_drop_middle grid p.1 row E) at 1.
      destruct (decide (i < p.1)%nat).
      + by rewrite !lookup_app_l by (rewrite length_take; lia).
      + rewrite !lookup_app_r by (rewrite length_take; lia).
        rewrite length_take.
        destruct (i - p.1 `min` length grid)%nat eqn:En; [lia|done]. }
  rewrite !fmap_app, !fmap_cons, !sum_list_with_app. cbn [sum_list_with].
  pose proof (zeros_in_row_after_insert row p.2 v Hj Hv). unfold id. lia.
Qed.

Lemma zeros_of_zeros (h w : nat) : length (where_not (zeros h w)) = (h * w)%nat.
Proof.
  rewrite length_where_not. unfold zeros. rewrite fmap_replicate.
  rewrite sum_list_replicate. f_equal.
  induction w as [|w IH]; [done|]. cbn [replicate].
  rewrite filter_cons_True by done. cbn [length]. by rewrite IH.
Qed.

Lemma fill_count (h w : nat) (ws : list Well) (g g' : ndarray) :
  has_shape h w g -> placed h w ws ->
  (forall well, well ∈ ws ->
     exists p, position h w (coordinate well) = Some p /\ cell g p = Some 0) ->
  fill h w g ws = Return g' ->
  (length (where_not g') + length ws = length (where_not g))%nat.
Proof.
  revert g. induction ws as [|well ws IH]; intros g Hg [Hnd Hall] Hzero.
  - intros [= <-]. simpl. lia.
  - cbn [fill]. rewrite setitem_position.
    destruct (Hzero well) as (q & Hq & Hcell); [left|]. rewrite Hq.
    cbn [and_then]. intros Hfill.
    rewrite fmap_cons in Hnd. apply NoDup_cons in Hnd as [Hfresh Hnd].
    apply Forall_cons in Hall as [[_ Hid] Hall].
    destruct (position_Some _ _ _ _ Hq) as [Hi Hj].
    pose proof (zeros_after_alter g q (well_id well) Hcell Hid) as Hstep.
    rewrite <- (IH _ (alter_shape h w g q.1 q.2 (well_id well) Hg)
                  (conj Hnd Hall)) in Hstep; [simpl; lia | | exact Hfill].
    intros well' Hin. destruct (Hzero well') as (p & Hp & Hcp); [by right|].
    exists p. split; [done|]. rewrite (cell_alter h w) by done.
    rewrite decide_False; [done|]. intros ->. apply Hfresh.
    rewrite Hq, <- Hp. by apply (list_elem_of_fmap_2 (fun well => position h w (coordinate well))).
Qed.

Lemma written_None (h w : nat) (ws : list Well) (p : nat * nat) :
  written h w ws p = None
  <-> forall well, well ∈ ws -> position h w (coordinate well) <> Some p.
Proof.
  unfold written. rewrite fmap_None, last_None. split.
  - intros H well Hin Hp.
    assert (well ∈ filter (fun well => position h w (coordinate well) = Some p) ws)
      as Hf by (by apply list_elem_of_filter).
    rewrite H in Hf. inversion Hf.
  - intros H. destruct (filter _ ws) as [|well l] eqn:E; [done|].
    assert (well ∈ filter (fun well => position h w (coordinate well) = Some p) ws)
      as Hf by (rewrite E; left).
    apply list_elem_of_filter in Hf as [Hp Hin]. by destruct (H well Hin).
Qed.

Lemma written_Some (h w : nat) (ws : list Well) (p : nat * nat) (v : Z) :
  written h w ws p = Some v ->
  exists well, well ∈ ws /\ position h w (coordinate well) = Some p
               /\ well_id well = v.
Proof.
  unfold written. rewrite fmap_Some. intros (well & Hlast & ->).
  exists well.
  assert (well ∈ filter (fun well => position h w (coordinate well) = Some p) ws)
    as Hf.
  { rewrite last_lookup in Hlast. by apply list_elem_of_lookup_2 in Hlast. }
  apply list_elem_of_filter in Hf as [Hp Hin]. done.
Qed.

(** X22: for wells that lie on the grid at distinct positions and have
    ids other than 0, [empty_wells_coordinates] lists exactly the
    positions of the grid that no well has, and the empty positions and
    the wells together are as many as the plate format says. *)
Theorem empty_wells_are_the_unused_positions (self : Plate) (h w : nat) :
  dimensions self = Return (h, w) ->
  placed h w (wells self) ->
  exists empty,
    empty_wells_coordinates self = Return empty
    /\ (forall p, p ∈ empty <->
          (p.1 < h)%nat /\ (p.2 < w)%nat
          /\ forall well, well ∈ wells self ->
               position h w (coordinate well) <> Some p)
    /\ Z.of_nat (length empty + length (wells self)) = plate_format self.
Proof.
  intros Hdim [Hnd Hall].
  assert (exists grid, fill h w (zeros h w) (wells self) = Return grid)
    as [grid Hfill].
  { apply fill_succeeds. eapply Forall_impl; [exact Hall|]. by intros well [? _]. }
  assert (well_grid self = Return grid) as Hgrid
    by (unfold well_grid; by rewrite Hdim).
  exists (where_not grid). unfold empty_wells_coordinates. rewrite Hgrid.
  split; [done|].
  destruct (fill_cells h w _ _ _ (zeros_shape h w) Hfill) as [_ Hcells].
  split.
  - intros p. rewrite elem_of_where_not, Hcells, cell_zeros.
    destruct (written h w (wells self) p) as [v|] eqn:Ew.
    + apply written_Some in Ew as (well & Hin & Hp & Hv).
      rewrite Forall_forall in Hall. destruct (Hall well Hin) as [_ Hid].
      split; [intros [= ->]; by subst | intros (_ & _ & H); by destruct (H well Hin)].
    + pose proof (proj1 (written_None _ _ _ _) Ew) as Hnone.
      destruct (decide _) as [[Hi Hj]|Hn]; [by split | split; [done | tauto]].
  - assert (Z.of_nat (h * w) = plate_format self) as <-.
    { revert Hdim. unfold dimensions, n_wells.
      rewrite determine_plate_dimensions_cases.
      repeat (destruct (decide _) as [->|]); by intros [= <- <-]. }
    f_equal. rewrite <- zeros_of_zeros.
    apply (fill_count h w (wells self) (zeros h w) grid);
      [apply zeros_shape | done | | done].
    intros well Hin. rewrite Forall_forall in Hall.
    destruct (Hall well Hin) as [[p Hp] _]. exists p. split; [done|].
    destruct (position_Some _ _ _ _ Hp). by rewrite cell_zeros, decide_True.
Qed.

(** *** Rows and columns with wells *)

Lemma any_true (a : list Z) : any a = true <-> exists v, v ∈ a /\ v <> 0.
Proof.
  unfold any. rewrite existsb_exists. split.
  - intros (v & Hin & Hv). exists v. split; [by apply list_elem_of_In|].
    apply negb_true_iff in Hv. lia.
  - intros (v & Hin & Hv). exists v. split; [by apply list_elem_of_In|].
    apply negb_true_iff. lia.
Qed.

Lemma elem_of_row (grid : ndarray) (i : nat) (v : Z) :
  v ∈ row grid i <-> exists j, cell grid (i, j) = Some v.
Proof.
  unfold row, cell. cbn [fst snd]. destruct (grid !! i) as [r|]; simpl.
  - apply list_elem_of_lookup.
  - split; [intros H; inversion H | by intros [? ?]].
Qed.

Lemma elem_of_grid_column (grid : ndarray) (j : nat) (v : Z) :
  v ∈ column grid j <-> exists i, cell grid (i, j) = Some v.
Proof.
  unfold column, cell. cbn [fst snd]. rewrite list_elem_of_omap. split.
  - intros (r & Hr & Hv). apply list_elem_of_lookup in Hr as [i Hi].
    exists i. by rewrite Hi.
  - intros [i Hi]. destruct (grid !! i) as [r|] eqn:E; [|done].
    exists r. split; [by apply list_elem_of_lookup_2 in E | done].
Qed.

Lemma seq_sorted (a n : nat) : StronglySorted lt (seq a n).
Proof.
  revert a. induction n as [|n IH]; intros a; [constructor|].
  simpl. constructor; [apply IH|].
  apply Forall_forall. intros x Hx. apply list_elem_of_In, in_seq in Hx. lia.
Qed.

Lemma filter_sorted {A} (R : relation A) (P : A -> Prop)
    `{!forall x, Decision (P x)} (l : list A) :
  StronglySorted R l -> StronglySorted R (filter P l).
Proof.
  induction 1 as [|x l Hs IH Hall]; [constructor|].
  destruct (decide (P x)).
  - rewrite filter_cons_True by done. constructor; [done|].
    rewrite Forall_forall in *. intros y Hy.
    apply list_elem_of_filter in Hy as [_ Hy]. by apply Hall.
  - by rewrite filter_cons_False.
Qed.

Lemma dimensions_positive (self : Plate) (h w : nat) :
  dimensions self = Return (h, w) -> (0 < h)%nat /\ (0 < w)%nat.
Proof.
  unfold dimensions. rewrite determine_plate_dimensions_cases.
  repeat destruct (decide _); try done; intros [= <- <-]; lia.
Qed.

Lemma shape_of_grid (h w : nat) (grid : ndarray) :
  (0 < h)%nat -> has_shape h w grid -> shape grid = (h, w).
Proof.
  intros Hh [Hlen Hrows]. unfold shape, row. rewrite Hlen. f_equal.
  destruct grid as [|r grid]; [simpl in Hlen; lia|]. simpl.
  by apply Forall_cons in Hrows as [? _].
Qed.

Lemma cell_in_range (h w : nat) (grid : ndarray) (p : nat * nat) (v : Z) :
  has_shape h w grid -> cell grid p = Some v -> (p.1 < h)%nat /\ (p.2 < w)%nat.
Proof.
  intros [Hlen Hrows]. unfold cell.
  destruct (grid !! p.1) as [r|] eqn:E; [|done]. simpl. intros Hv.
  apply lookup_lt_Some in E as Hi, Hv as Hj.
  rewrite Forall_forall in Hrows.
  rewrite (Hrows r) in Hj by (by apply list_elem_of_lookup_2 in E). lia.
Qed.

Lemma nonzero_cells (self : Plate) (h w : nat) (grid : ndarray) :
  dimensions self = Return (h, w) ->
  Forall (fun well => well_id well <> 0) (wells self) ->
  well_grid self = Return grid ->
  has_shape h w grid
  /\ forall p,
       (exists v, cell grid p = Some v /\ v <> 0)
       <-> exists well, well ∈ wells self
             /\ position h w (coordinate well) = Some p.
Proof.
  intros Hdim Hids Hgrid. unfold well_grid in Hgrid. rewrite Hdim in Hgrid.
  cbn [and_then fst snd] in Hgrid.
  destruct (fill_cells h w _ _ _ (zeros_shape h w) Hgrid) as [Hshape Hcells].
  split; [done|]. intros p. rewrite Hcells, cell_zeros.
  destruct (written h w (wells self) p) as [v|] eqn:Ew.
  - apply written_Some in Ew as (well & Hin & Hp & Hv). split.
    + intros _. by exists well.
    + intros _. exists v. split; [done|]. subst v.
      rewrite Forall_forall in Hids. by apply Hids.
  - pose proof (proj1 (written_None _ _ _ _) Ew) as Hnone. split.
    + intros (v & Hv & Hnz). by destruct (decide _); simplify_eq.
    + intros (well & Hin & Hp). by destruct (Hnone well Hin).
Qed.

(** X23: for wells that lie on the grid and have ids other than 0,
    [nonempty_rows] and [nonempty_columns] are the rows and the columns
    of the positions of the wells, each once and in ascending order, and
    [image_size] is computed from their numbers; without wells
    [image_size] raises [IndexError]. *)
Theorem rows_and_columns_of_the_wells (self : Plate) (h w : nat) :
  dimensions self = Return (h, w) ->
  Forall (fun well => is_Some (position h w (coordinate well))
                      /\ well_id well <> 0) (wells self) ->
  exists rows cols,
    nonempty_rows self = Return rows
    /\ nonempty_columns self = Return cols
    /\ StronglySorted lt rows /\ StronglySorted lt cols
    /\ (forall i, i ∈ rows <->
          exists well j, well ∈ wells self
            /\ position h w (coordinate well) = Some (i, j))
    /\ (forall j, j ∈ cols <->
          exists well i, well ∈ wells self
            /\ position h w (coordinate well) = Some (i, j))
    /\ image_size self =
         match wells self with
         | [] => Raised IndexError
         | well0 :: _ =>
             let r := Z.of_nat (length rows) in
             let c := Z.of_nat (length cols) in
             Return (r * (well_image_size well0).1
                       + well_spacer_size self * (r - 1),
                     c * (well_image_size well0).2
                       + well_spacer_size self * (c - 1))
         end.
Proof.
  intros Hdim Hall.
  assert (exists grid, well_grid self = Return grid) as [grid Hgrid].
  { unfold well_grid. rewrite Hdim. cbn [and_then fst snd].
    apply fill_succeeds. eapply Forall_impl; [exact Hall|]. by intros well [? _]. }
  assert (Forall (fun well => well_id well <> 0) (wells self)) as Hids
    by (eapply Forall_impl; [exact Hall|]; by intros well [_ ?]).
  destruct (nonzero_cells self h w grid Hdim Hids Hgrid) as [Hshape Hcells].
  destruct (dimensions_positive self h w Hdim) as [Hh Hw].
  pose proof (shape_of_grid h w grid Hh Hshape) as Hsh.
  assert (nonempty_rows self
          = Return (filter (fun i => any (row grid i) = true) (seq 0 h)))
    as Hrows
    by (unfold nonempty_rows; rewrite Hgrid; cbn [and_then]; by rewrite Hsh).
  assert (nonempty_columns self
          = Return (filter (fun i => any (column grid i) = true) (seq 0 w)))
    as Hcols
    by (unfold nonempty_columns; rewrite Hgrid; cbn [and_then]; by rewrite Hsh).
  unfold image_size. rewrite Hrows, Hcols. do 2 eexists.
  split; [reflexivity|]. split; [reflexivity|].
  split; [apply filter_sorted, seq_sorted|].
  split; [apply filter_sorted, seq_sorted|].
  split; [|split].
  - intros i. rewrite list_elem_of_filter, any_true. split.
    + intros [(v & Hv & Hnz) _]. apply elem_of_row in Hv as [j Hj].
      destruct (proj1 (Hcells (i, j))) as (well & Hin & Hp); [by exists v|].
      by exists well, j.
    + intros (well & j & Hin & Hp).
      destruct (proj2 (Hcells (i, j))) as (v & Hv & Hnz); [by exists well|].
      split.
      * exists v. split; [|done]. apply elem_of_row. by exists j.
      * apply list_elem_of_In, in_seq. apply position_Some in Hp. simpl in Hp. lia.
  - intros j. rewrite list_elem_of_filter, any_true. split.
    + intros [(v & Hv & Hnz) _]. apply elem_of_grid_column in Hv as [i Hi].
      destruct (proj1 (Hcells (i, j))) as (well & Hin & Hp); [by exists v|].
      by exists well, i.
    + intros (well & i & Hin & Hp).
      destruct (proj2 (Hcells (i, j))) as (v & Hv & Hnz); [by exists well|].
      split.
      * exists v. split; [|done]. apply elem_of_grid_column. by exists i.
      * apply list_elem_of_In, in_seq. apply position_Some in Hp. simpl in Hp. lia.
  - by destruct (wells self).
Qed.

(** Witness of X21 on the plate [two_wells]. *)
Lemma well_grid_last_well_wins_witness :
  exists grid,
    well_grid two_wells = Return grid
    /\ forall p, (p.1 < 8)%nat -> (p.2 < 12)%nat ->
         cell grid p = Some (default 0 (written 8 12 (wells two_wells) p)).
Proof.
  eexists. split; [vm_compute; reflexivity|].
  apply (well_grid_last_well_wins two_wells _ 8 12);
    [reflexivity | vm_compute; reflexivity].
Defined.

(** Witness of X22 on the plate [two_wells]. *)
Lemma empty_wells_are_the_unused_positions_witness :
  exists empty,
    empty_wells_coordinates two_wells = Return empty
    /\ (forall p, p ∈ empty <->
          (p.1 < 8)%nat /\ (p.2 < 12)%nat
          /\ forall well, well ∈ wells two_wells ->
               position 8 12 (coordinate well) <> Some p)
    /\ Z.of_nat (length empty + length (wells two_wells))
       = plate_format two_wells.
Proof.
  apply (empty_wells_are_the_unused_positions two_wells 8 12);
    [reflexivity|].
  split.
  - apply (bool_decide_unpack _). vm_compute. exact I.
  - repeat constructor; try done; by eexists.
Defined.

(** Witness of X23 on the plate [two_wells]. *)
Lemma rows_and_columns_of_the_wells_witness :
  exists rows cols,
    nonempty_rows two_wells = Return rows
    /\ nonempty_columns two_wells = Return cols
    /\ StronglySorted lt rows /\ StronglySorted lt cols
    /\ (forall i, i ∈ rows <->
          exists well j, well ∈ wells two_wells
            /\ position 8 12 (coordinate well) = Some (i, j))
    /\ (forall j, j ∈ cols <->
          exists well i, well ∈ wells two_wells
            /\ position 8 12 (coordinate well) = Some (i, j))
    /\ image_size two_wells =
         match wells two_wells with
         | [] => Raised IndexError
         | well0 :: _ =>
             let r := Z.of_nat (length rows) in
             let c := Z.of_nat (length cols) in
             Return (r * (well_image_size well0).1
                       + well_spacer_size two_wells * (r - 1),
                     c * (well_image_size well0).2
                       + well_spacer_size two_wells * (c - 1))
         end.
Proof.
  apply (rows_and_columns_of_the_wells two_wells 8 12);
    [reflexivity|].
  repeat constructor; try done; by eexists.
Defined.

End PlateGridProps.

(** ** The configuration object once more (src/tmlib/cfg.py) *)

Module CfgMoreProps.
Import Py Cfg CfgProps LoggingUtils LoggingUtilsProps CfgVerbosity.

Ltac split_key k :=
  destruct (String.eqb_spec k "workflow") as [->|?];
  [|destruct (String.eqb_spec k "sources_dir") as [->|?];
    [|destruct (String.eqb_spec k "plates_dir") as [->|?];
      [|destruct (String.eqb_spec k "layers_dir") as [->|?];
        [|destruct (String.eqb_spec k "plate_format") as [->|?]]]]].

Ltac split_setting v :=
  destruct v as [[| | | |]|?];
  cbn [as_dir as_plate_format bind];
  repeat match goal with
  | |- context [WorkflowDescription_init ?a ?b ?c ?w] =>
      destruct (WorkflowDescription_init a b c w); cbn [bind]
  | |- context [bool_decide ?P] => destruct (bool_decide P); cbn [bind]
  end.

Section UserConfiguration.
Context {RawArgs Args ArgsDict : Type}.
Variable load_args : string -> RawArgs -> result Args.
Variable args_dict : Args -> ArgsDict.
Variable path_exists : string -> bool.

Local Abbreviation UserConfiguration := (Cfg.UserConfiguration Args).
Local Abbreviation setting := (Cfg.setting RawArgs).
Local Abbreviation __init__ := (Cfg.__init__ RawArgs Args load_args path_exists).
Local Abbreviation init_loop := (Cfg.init_loop RawArgs Args load_args).
Local Abbreviation setattr := (Cfg.setattr RawArgs Args load_args).
Local Abbreviation __iter__ := (Cfg.__iter__ Args ArgsDict args_dict).
Local Abbreviation whitelisted := (Cfg.whitelisted RawArgs).

(** X24: iterating a configuration changes nothing of the object but the
    directories that were not set, which now hold their defaults; a
    second iteration yields the same pairs, ends in the same way and
    changes nothing. *)
Theorem iteration_stores_defaults_only (self : UserConfiguration) :
  let after := fst (fst (__iter__ self)) in
  __iter__ after = (after, snd (fst (__iter__ self)), snd (__iter__ self))
  /\ experiment_dir Args after = experiment_dir Args self
  /\ _plate_format Args after = _plate_format Args self
  /\ _workflow Args after = _workflow Args self
  /\ (_sources_dir Args after = _sources_dir Args self
      \/ _sources_dir Args self = None
         /\ _sources_dir Args after
            = Some (os_path_join (experiment_dir Args self) "sources"))
  /\ (_plates_dir Args after = _plates_dir Args self
      \/ _plates_dir Args self = None
         /\ _plates_dir Args after
            = Some (os_path_join (experiment_dir Args self) "plates"))
  /\ (_layers_dir Args after = _layers_dir Args self
      \/ _layers_dir Args self = None
         /\ _layers_dir Args after
            = Some (os_path_join (experiment_dir Args self) "layers")).
Proof.
  destruct self as [d [s|] [p|] [l|] [f|] [w|]];
    (split; [vm_compute; reflexivity|]);
    repeat split; vm_compute; auto.
Qed.

Lemma setattr_swap (self r : UserConfiguration) (k1 k2 : string)
    (v1 v2 : setting) (K : UserConfiguration -> result UserConfiguration) :
  k1 <> k2 ->
  (do a <- setattr self k1 v1; do b <- setattr a k2 v2; K b) = Ok r
  <-> (do a <- setattr self k2 v2; do b <- setattr a k1 v1; K b) = Ok r.
Proof.
  intros Hne. unfold Cfg.setattr.
  split_key k1; split_key k2; try done; cbn [String.eqb Ascii.eqb Bool.eqb];
    split_setting v1; split_setting v2; try done.
Qed.

Lemma init_loop_cons (self : UserConfiguration) (k : string) (v : setting)
    (rest : list (string * setting)) :
  init_loop self ((k, v) :: rest)
  = do a <- (if bool_decide (k ∈ _PERSISTENT_ATTRS) then setattr self k v
             else Ok self);
    init_loop a rest.
Proof. cbn [Cfg.init_loop]. by destruct (bool_decide _). Qed.

Lemma init_loop_permutation (l l' : list (string * setting)) :
  l ≡ₚ l' -> NoDup (fst <$> l) ->
  forall self r, init_loop self l = Ok r <-> init_loop self l' = Ok r.
Proof.
  induction 1 as [|[k v] l l' Hperm IH|[k1 v1] [k2 v2] l|l l' l'' H1 IH1 H2 IH2];
    intros Hnd self r.
  - done.
  - rewrite !init_loop_cons. rewrite fmap_cons in Hnd.
    apply NoDup_cons in Hnd as [_ Hnd].
    destruct (if bool_decide (k ∈ _PERSISTENT_ATTRS) then setattr self k v
              else Ok self) as [a|e]; [|done].
    cbn [bind]. by apply IH.
  - rewrite !fmap_cons in Hnd. apply NoDup_cons in Hnd as [Hne _].
    apply not_elem_of_cons in Hne as [Hne _]. cbn [fst] in Hne.
    rewrite (init_loop_cons self k1), (init_loop_cons self k2).
    destruct (bool_decide (k1 ∈ _PERSISTENT_ATTRS)) eqn:W1,
             (bool_decide (k2 ∈ _PERSISTENT_ATTRS)) eqn:W2.
    + pose proof (setattr_swap self r k2 k1 v2 v1 (fun b => init_loop b l) Hne)
        as H.
      destruct (setattr self k2 v2) as [a|e] eqn:E2;
        destruct (setattr self k1 v1) as [b|e'] eqn:E1; cbn [bind] in *.
      * by rewrite !init_loop_cons, W1, W2.
      * rewrite init_loop_cons, W1. done.
      * rewrite init_loop_cons, W2. done.
      * done.
    + cbn [bind]. rewrite init_loop_cons, W1.
      destruct (setattr self k1 v1) as [b|e'] eqn:E1; cbn [bind]; [|done].
      by rewrite init_loop_cons, W2.
    + cbn [bind]. rewrite init_loop_cons, W2.
      destruct (setattr self k2 v2) as [a|e] eqn:E2; cbn [bind]; [|done].
      by rewrite init_loop_cons, W1.
    + cbn [bind]. by rewrite !init_loop_cons, W1, W2.
  - rewrite IH1 by done. apply IH2. by rewrite <- H1.
Qed.

(** X25: the object that [__init__] builds does not depend on the order
    in which the dictionary of settings is iterated: if the construction
    succeeds for one order of the settings, whose keys are distinct, it
    succeeds with the same object for every other order. *)
Theorem init_independent_of_order (dir : string)
    (cfg_settings cfg_settings' : list (string * setting))
    (cfg : UserConfiguration) :
  cfg_settings ≡ₚ cfg_settings' ->
  NoDup (fst <$> cfg_settings) ->
  __init__ dir cfg_settings = Ok cfg ->
  __init__ dir cfg_settings' = Ok cfg.
Proof.
  intros Hperm Hnd. unfold Cfg.__init__.
  destruct (negb (path_exists dir)); [done|].
  intros H. by apply (proj1 (init_loop_permutation _ _ Hperm Hnd _ _)).
Qed.

Lemma traverse_Forall2 {A B} (f : A -> result B) (l : list A) (bs : list B) :
  traverse f l = Ok bs -> Forall2 (fun a b => f a = Ok b) l bs.
Proof.
  revert bs. induction l as [|a l IH]; intros bs; cbn [traverse].
  - intros [= <-]. constructor.
  - destruct (f a) as [b|e] eqn:E; [|done]. cbn [bind].
    destruct (traverse f l) as [bs'|e]; [|done]. cbn [bind].
    intros [= <-]. constructor; [done | by apply IH].
Qed.

(** X26: when the legacy [WorkflowDescription] is built from a mapping,
    its dictionary form has the stages of the mapping in their order and
    under their names, each with the steps of the mapping in their order
    and under their names, with the arguments loaded for the step name;
    no stage is without steps, [virtualenv] is [None] and [verbosity] is
    1. *)
Theorem legacy_workflow_round_trip (kw : workflow_kwargs RawArgs)
    (wd : WorkflowDescription Args) :
  WorkflowDescription_init RawArgs Args load_args kw = Ok wd ->
  virtualenv Args wd = None /\ verbosity Args wd = 1
  /\ exists l,
       kw_stages RawArgs kw = Some l
       /\ Forall2
            (fun skw sd =>
               kw_stage_name RawArgs skw = Some (VStr (dict_stage_name ArgsDict sd))
               /\ exists steps,
                    kw_steps RawArgs skw = Some steps /\ steps <> []
                    /\ Forall2
                         (fun stkw std =>
                            kw_step_name RawArgs stkw
                            = Some (VStr (dict_step_name ArgsDict std))
                            /\ exists raw a,
                                 kw_step_args RawArgs stkw = Some raw
                                 /\ load_args (dict_step_name ArgsDict std) raw
                                    = Ok a
                                 /\ dict_step_args ArgsDict std = args_dict a)
                         steps (dict_stage_steps ArgsDict sd))
            l (WorkflowDescription_dict Args ArgsDict args_dict wd).
Proof.
  unfold WorkflowDescription_init.
  destruct (kw_stages RawArgs kw) as [l|]; [|done].
  destruct (traverse _ l) as [stages'|e] eqn:E; [|done]. cbn [bind].
  intros [= <-]. split; [done|]. split; [done|]. exists l. split; [done|].
  unfold WorkflowDescription_dict. cbn [stages].
  apply Forall2_fmap_r. apply traverse_Forall2 in E.
  eapply Forall2_impl; [exact E|]. clear.
  intros skw sd. unfold WorkflowStageDescription_init.
  destruct (kw_stage_name RawArgs skw) as [n|]; [|done].
  destruct (kw_steps RawArgs skw) as [steps|]; [|done].
  destruct n; try done. cbn [as_name bind].
  destruct steps as [|st steps]; [done|].
  destruct (traverse _ (st :: steps)) as [steps'|e] eqn:E; [|done]. cbn [bind].
  intros [= <-]. cbn. split; [done|]. exists (st :: steps).
  split; [done|]. split; [done|].
  apply Forall2_fmap_r. apply traverse_Forall2 in E.
  eapply Forall2_impl; [exact E|]. clear.
  intros stkw std. unfold WorkflowStepDescription_init.
  destruct (kw_step_name RawArgs stkw) as [n|]; [|done].
  destruct (kw_step_args RawArgs stkw) as [raw|]; [|by destruct n].
  destruct n; try done. cbn [as_name bind].
  destruct (load_args s raw) as [a|e] eqn:E; [|done]. cbn [bind].
  intros [= <-]. cbn. split; [done|]. by exists raw, a.
Qed.

End UserConfiguration.

(** X27: the setter of the legacy [verbosity] accepts exactly the values
    that [map_logging_verbosity] accepts, and rejects the others with the
    same exception; it stores the value as given, [map_logging_verbosity]
    maps a stored value from 3 upwards to [NOTSET], and the setter warns
    only above 4: the verbosity 4 is stored without a warning. *)
Theorem verbosity_setter_agrees_with_mapping (v : value) :
  match verbosity_setter v with
  | Ok (stored, warned) =>
      stored = v
      /\ exists n level,
           (v = VInt n \/ exists b, v = VBool b /\ n = Z.b2z b)
           /\ map_logging_verbosity v = Ok level
           /\ (warned = true <-> 4 < n)
           /\ (3 <= n -> level = NOTSET)
  | Raise e => map_logging_verbosity v = Raise e
  end.
Proof.
  unfold verbosity_setter, map_logging_verbosity. rewrite len_levels_eq.
  destruct v as [|b|n|s|o]; try done.
  - destruct b; cbn; (split; [done|]); [exists 1 | exists 0]; eexists;
      (split; [right; by eexists|]); (split; [reflexivity|]);
      (split; [split; [done | lia] | intros; lia]).
  - destruct (n <? 0) eqn:E.
    + destruct (n >=? 0) eqn:E'; [lia | done].
    + destruct (n >=? 0) eqn:E'; [|lia]. cbn [negb].
      split; [done|]. exists n. eexists. split; [by left|].
      split; [reflexivity|]. split; [lia|].
      intros Hn. destruct (n >? 4) eqn:E4; [done|].
      assert (n = 3 \/ n = 4) as [-> | ->] by lia; reflexivity.
Qed.

(** Witness of X25: two settings in both orders. *)
Lemma init_independent_of_order_witness :
  let exists_ (_ : string) := true in
  let load (_ : string) (_ : unit) : result unit := Ok tt in
  Cfg.__init__ unit unit load exists_ "/data/experiment"
    [("sources_dir", Plain unit (VStr "/data/src"));
     ("plate_format", Plain unit (VInt 96))]
  = Ok (MkUserConfiguration unit "/data/experiment" (Some "/data/src") None
          None (Some (VInt 96)) None).
Proof.
  intros exists_ load.
  apply (init_independent_of_order load exists_ "/data/experiment"
           [("plate_format", Plain unit (VInt 96));
            ("sources_dir", Plain unit (VStr "/data/src"))]).
  - apply perm_swap.
  - apply (bool_decide_unpack _). vm_compute. exact I.
  - reflexivity.
Defined.

(** Witness of X26: one stage of one step. *)
Lemma legacy_workflow_round_trip_witness :
  let load (_ : string) (_ : unit) : result unit := Ok tt in
  let kw :=
    MkWorkflowKwargs unit
      (Some [MkStageKwargs unit (Some (VStr "image_conversion"))
               (Some [MkStepKwargs unit (Some (VStr "imextract")) (Some tt)])]) in
  let wd :=
    MkWorkflowDescription unit
      [MkStageDescription unit "image_conversion"
         [MkStepDescription unit "imextract" tt]] None 1 in
  virtualenv unit wd = None /\ verbosity unit wd = 1
  /\ exists l,
       kw_stages unit kw = Some l
       /\ Forall2
            (fun skw sd =>
               kw_stage_name unit skw = Some (VStr (dict_stage_name unit sd))
               /\ exists steps,
                    kw_steps unit skw = Some steps /\ steps <> []
                    /\ Forall2
                         (fun stkw std =>
                            kw_step_name unit stkw
                            = Some (VStr (dict_step_name unit std))
                            /\ exists raw a,
                                 kw_step_args unit stkw = Some raw
                                 /\ load (dict_step_name unit std) raw = Ok a
                                 /\ dict_step_args unit std = id a)
                         steps (dict_stage_steps unit sd))
            l (WorkflowDescription_dict unit unit id wd).
Proof.
  intros load kw wd.
  apply (legacy_workflow_round_trip load id kw wd). reflexivity.
Defined.

End CfgMoreProps.

(** ** The flags of [task_data] (src/tmlib/engine.py) *)

Module TaskDataProps.
Import Py Engine EngineProps.

Lemma task_data_info (now : Z) (t : task) (info : task_info) :
  task_data now t = Ok info ->
  info_name info = task_jobname t
  /\ info_state info = state (task_execution t)
  /\ info_id info = task_persistent_id t
  /\ info_is_live info
     = bool_decide (state (task_execution t) ∈ [SUBMITTED; RUNNING; STOPPED])
  /\ info_is_done info = str_in (state (task_execution t)) TERMINATED
  /\ info_failed info
     = info_is_done info
       && negb (bool_decide (exitcode (task_execution t) = Some 0))
  /\ (info_percent_done info = PercentNone
      <-> timestamp (task_execution t) !! RUNNING = None).
Proof.
  unfold task_data.
  destruct (timestamp (task_execution t) !! RUNNING) as [started|].
  - destruct (task_cls t); [| |done].
    + destruct (_ =? 0); [done|]. intros [= <-]. cbn. by repeat split.
    + destruct (_ =? 0); [done|]. intros [= <-]. cbn. by repeat split.
  - intros [= <-]. cbn. by repeat split.
Qed.

(** X28: in the data that [task_data] returns, [is_live] and [is_done]
    are never both set; [failed] is set exactly when [is_done] is and the
    exit code is not 0 (a missing exit code counts as a failure); for the
    six states of [Run.State], [is_live] means submitted, running or
    stopped and [is_done] means terminated; [percent_done] is [None]
    exactly when the task has never been running; [id] is there exactly
    when the task has a [persistent_id]. *)
Theorem task_data_flags (now : Z) (t : task) (info : task_info) :
  task_data now t = Ok info ->
  (info_is_live info = true -> info_is_done info = false)
  /\ (info_failed info = true <->
        info_is_done info = true /\ exitcode (task_execution t) <> Some 0)
  /\ (state (task_execution t)
        ∈ [NEW; SUBMITTED; RUNNING; STOPPED; TERMINATING; TERMINATED] ->
      (info_is_live info = true <->
         state (task_execution t) ∈ [SUBMITTED; RUNNING; STOPPED])
      /\ (info_is_done info = true <-> state (task_execution t) = TERMINATED))
  /\ (info_percent_done info = PercentNone <->
        timestamp (task_execution t) !! RUNNING = None)
  /\ info_id info = task_persistent_id t.
Proof.
  intros H. apply task_data_info in H as (_ & _ & Hid & Hlive & Hdone & Hfail & Hp).
  rewrite Hfail, Hlive, Hdone. split; [|split; [|split; [|split]]].
  - intros Hl. apply bool_decide_eq_true in Hl.
    rewrite !elem_of_cons, elem_of_nil in Hl.
    destruct Hl as [->|[->|[->|[]]]]; reflexivity.
  - rewrite andb_true_iff, negb_true_iff, bool_decide_eq_false. tauto.
  - intros Hst. rewrite bool_decide_eq_true. split; [done|].
    rewrite !elem_of_cons, elem_of_nil in Hst.
    destruct Hst as [->|[->|[->|[->|[->|[->|[]]]]]]];
      (split; [by intros [=] | by intros [=]]) || (split; reflexivity).
  - done.
  - done.
Qed.

(** Witness of X28 on the collection [half_done_collection] at time 10. *)
Lemma task_data_flags_witness :
  exists info,
    task_data 10 half_done_collection = Ok info
    /\ info_is_live info = true /\ info_is_done info = false
    /\ info_failed info = false.
Proof.
  eexists. split; [reflexivity|].
  destruct (task_data_flags 10 half_done_collection _ eq_refl)
    as (Hlive & _ & _ & _ & _).
  split; [reflexivity|]. split; [by apply Hlive | reflexivity].
Defined.

End TaskDataProps.
